(** * Indicator engine of [technical_analysis.py]

    A shallow embedding of the [TechnicalAnalysis] class, of
    [_analyze_single_asset] and of [analyze_all_assets], together with the
    properties of the indicator engine that the specification states.

    Numbers.  The Python code computes on IEEE float64 columns of a pandas
    [DataFrame].  Here a cell is a value of [fval]: a rational number, or one
    of the three special values NaN, +inf, -inf that pandas and numpy produce
    instead of raising.  Arithmetic on finite cells is exact rational
    arithmetic: rounding, overflow and the sign of zero are not modelled.
    NaN is pandas' missing marker. *)

From Stdlib Require Import ZArith QArith Qabs Lqa Lia String.
From stdpp Require Import base list strings sorting.

Local Open Scope nat_scope.

(** ** Cells: rationals extended with NaN and the infinities *)

Module Float.

Inductive fval : Type :=
  | NaN
  | PInf
  | NInf
  | Fin (q : Q).

Definition Qltb (a b : Q) : bool := negb (Qle_bool b a).

Definition isnan (v : fval) : bool :=
  match v with NaN => true | _ => false end.

Definition notna (v : fval) : bool := negb (isnan v).

Definition isfinite (v : fval) : bool :=
  match v with Fin _ => true | _ => false end.

Definition fneg (v : fval) : fval :=
  match v with
  | NaN => NaN
  | PInf => NInf
  | NInf => PInf
  | Fin q => Fin (- q)
  end.

Definition fadd (x y : fval) : fval :=
  match x, y with
  | NaN, _ | _, NaN => NaN
  | PInf, NInf | NInf, PInf => NaN
  | PInf, _ | _, PInf => PInf
  | NInf, _ | _, NInf => NInf
  | Fin a, Fin b => Fin (a + b)
  end.

Definition fsub (x y : fval) : fval := fadd x (fneg y).

(** The sign of a finite factor decides the product with an infinity;
    zero times infinity is NaN. *)
Definition inf_times (pos : bool) (a : Q) : fval :=
  if Qeq_bool a 0 then NaN
  else if Qltb 0 a then (if pos then PInf else NInf)
  else (if pos then NInf else PInf).

Definition fmul (x y : fval) : fval :=
  match x, y with
  | NaN, _ | _, NaN => NaN
  | PInf, PInf | NInf, NInf => PInf
  | PInf, NInf | NInf, PInf => NInf
  | PInf, Fin a | Fin a, PInf => inf_times true a
  | NInf, Fin a | Fin a, NInf => inf_times false a
  | Fin a, Fin b => Fin (a * b)
  end.

(** Division never raises: a finite non-zero numerator over zero is an
    infinity, zero over zero is NaN. *)
Definition fdiv (x y : fval) : fval :=
  match x, y with
  | NaN, _ | _, NaN => NaN
  | Fin a, Fin b =>
      if Qeq_bool b 0 then
        (if Qeq_bool a 0 then NaN else if Qltb 0 a then PInf else NInf)
      else Fin (a / b)
  | Fin _, PInf | Fin _, NInf => Fin 0
  | PInf, Fin b => if Qle_bool 0 b then PInf else NInf
  | NInf, Fin b => if Qle_bool 0 b then NInf else PInf
  | PInf, PInf | PInf, NInf | NInf, PInf | NInf, NInf => NaN
  end.

Definition fabs (v : fval) : fval :=
  match v with
  | NaN => NaN
  | PInf | NInf => PInf
  | Fin q => Fin (Qabs q)
  end.

(** Comparisons are false as soon as one side is NaN. *)
Definition flt (x y : fval) : bool :=
  match x, y with
  | NaN, _ | _, NaN => false
  | _, NInf => false
  | PInf, _ => false
  | NInf, _ => true
  | _, PInf => true
  | Fin a, Fin b => Qltb a b
  end.

Definition fle (x y : fval) : bool :=
  match x, y with
  | NaN, _ | _, NaN => false
  | NInf, _ => true
  | _, PInf => true
  | _, NInf => false
  | PInf, _ => false
  | Fin a, Fin b => Qle_bool a b
  end.

Definition feqb (x y : fval) : bool :=
  match x, y with
  | PInf, PInf | NInf, NInf => true
  | Fin a, Fin b => Qeq_bool a b
  | _, _ => false
  end.

Definition fgt (x y : fval) : bool := flt y x.
Definition fge (x y : fval) : bool := fle y x.

(** Equality of cells up to the representation of a rational; NaN is
    related to NaN, so that [feq] compares cells, not float comparisons. *)
Definition feq (x y : fval) : Prop :=
  match x, y with
  | NaN, NaN | PInf, PInf | NInf, NInf => True
  | Fin a, Fin b => (a == b)%Q
  | _, _ => False
  end.

Definition of_nat (n : nat) : fval := Fin (inject_Z (Z.of_nat n)).

Definition fsum (xs : list fval) : fval := foldr fadd (Fin 0) xs.

Definition fmin2 (x y : fval) : fval := if flt y x then y else x.
Definition fmax2 (x y : fval) : fval := if flt x y then y else x.

End Float.

Import Float.

Declare Scope fval_scope.
Delimit Scope fval_scope with F.
Infix "+" := fadd : fval_scope.
Infix "-" := fsub : fval_scope.
Infix "*" := fmul : fval_scope.
Infix "/" := fdiv : fval_scope.
Notation "- x" := (fneg x) : fval_scope.

(** ** Columns

    A pandas [Series] is a list of cells; position [i] of the list is
    [.iloc[i]]. *)

Abbreviation Series := (list fval).

(** pandas' exceptions that the modelled code can meet. *)
Inductive exn : Type := KeyError | IndexError | ValueError.

Inductive res (A : Type) : Type :=
  | Ok (a : A)
  | Raise (e : exn).
Arguments Ok {A} a.
Arguments Raise {A} e.

#[global] Instance res_ret : MRet res := fun _ a => Ok a.

#[global] Instance res_bind : MBind res := fun _ _ k m =>
  match m with
  | Ok a => k a
  | Raise e => Raise e
  end.

(** [s.iloc[i]] for [i >= 0] and [s.iloc[-1]]. *)
Definition iloc {A : Type} (s : list A) (i : nat) : res A :=
  match s !! i with
  | Some v => Ok v
  | None => Raise IndexError
  end.

Definition iloc_last {A : Type} (s : list A) : res A :=
  match last s with
  | Some v => Ok v
  | None => Raise IndexError
  end.

(** [a op b] on two columns with the same index. *)
Definition sadd (a b : Series) : Series := zip_with fadd a b.
Definition ssub (a b : Series) : Series := zip_with fsub a b.
Definition sdiv (a b : Series) : Series := zip_with fdiv a b.
Definition sscale (k : fval) (a : Series) : Series := fmap (fmul k) a.
Definition sneg (a : Series) : Series := fmap fneg a.
Definition sabs (a : Series) : Series := fmap fabs a.

(** [s.shift()]: every value moves one position down, NaN enters at 0. *)
Definition shift (s : Series) : Series := take (length s) (NaN :: s).

(** [s.shift(k)] *)
Definition shift_by (k : nat) (s : Series) : Series :=
  take (length s) (replicate k NaN ++ s).

(** [s.diff()] is [s - s.shift()]. *)
Definition diff (s : Series) : Series := ssub s (shift s).

(** [s.where(cond, other)]: keep the cell where [cond] holds, put [other]
    elsewhere; a comparison with NaN does not hold. *)
Definition where_ (cond : fval → bool) (other : fval) (s : Series) : Series :=
  fmap (fun v => if cond v then v else other) s.

(** [s[mask] = v], the mask being computed cell by cell from [s] and a
    second column [t]. *)
Definition assign_where (cond : fval → fval → bool) (v : fval)
    (s t : Series) : Series :=
  zip_with (fun x y => if cond x y then v else x) s t.

(** *** Rolling windows

    [s.rolling(window=w)] has [min_periods = w]: the window at position [i]
    holds the positions [max 0 (i+1-w) .. i]; the aggregate is NaN unless
    the window holds at least [w] observations that are not NaN. *)

Definition window (w i : nat) (s : Series) : Series :=
  drop (i + 1 - w) (take (i + 1) s).

Definition observations (w i : nat) (s : Series) : Series :=
  List.filter notna (window w i s).

Definition rolling (need : nat) (agg : Series → fval) (w : nat) (s : Series)
    : Series :=
  imap (fun i _ =>
          let obs := observations w i s in
          if (w <=? length obs) && (need <=? length obs)
          then agg obs else NaN) s.

Definition mean (obs : Series) : fval := (fsum obs / of_nat (length obs))%F.

Definition rolling_mean (w : nat) (s : Series) : Series :=
  rolling 1 mean w s.

Definition fmin_list (obs : Series) : fval :=
  match obs with
  | [] => NaN
  | x :: r => foldl fmin2 x r
  end.

Definition fmax_list (obs : Series) : fval :=
  match obs with
  | [] => NaN
  | x :: r => foldl fmax2 x r
  end.

Definition rolling_min (w : nat) (s : Series) : Series :=
  rolling 1 fmin_list w s.

Definition rolling_max (w : nat) (s : Series) : Series :=
  rolling 1 fmax_list w s.

(** ** The data frame of a [TechnicalAnalysis] instance *)

(** A parsed [datetime] cell: a point in time (milliseconds) or pandas'
    [NaT]. *)
Inductive Timestamp : Type :=
  | NaT
  | At (ms : Z).

(** One row of [self.data]: its index label and its six columns. *)
Record Row : Type := mkRow {
  label : nat;
  datetime : Timestamp;
  open : fval;
  high : fval;
  low : fval;
  close : fval;
  vol : fval
}.

(** [pd.DataFrame()] has neither rows nor columns; every other frame of the
    program carries the columns [datetime, open, high, low, close, vol]. *)
Inductive DataFrame : Type :=
  | NoColumns
  | Frame (rows : list Row).

Definition rows_of (df : DataFrame) : list Row :=
  match df with
  | NoColumns => []
  | Frame rows => rows
  end.

(** [len(df)] and [df.empty] *)
Definition len (df : DataFrame) : nat := length (rows_of df).

Definition empty (df : DataFrame) : bool :=
  match rows_of df with
  | [] => true
  | _ :: _ => false
  end.

(** [df[name]]: a [KeyError] when the frame has no such column. *)
Definition column {A : Type} (f : Row → A) (df : DataFrame) : res (list A) :=
  match df with
  | NoColumns => Raise KeyError
  | Frame rows => Ok (f <$> rows)
  end.

(** [for i in items: s = body(s, i)], stopping at the first exception. *)
Fixpoint for_each {S I : Type} (body : S → I → res S) (items : list I) (s : S)
    : res S :=
  match items with
  | [] => Ok s
  | i :: rest => s' ← body s i; for_each body rest s'
  end.

(** [d[k] = v] on a dictionary, which keeps its keys in insertion order:
    a key already present keeps its place. *)
Fixpoint dict_set {V : Type} (k : string) (v : V) (d : list (string * V))
    : list (string * V) :=
  match d with
  | [] => [(k, v)]
  | (k', v') :: rest =>
      if String.eqb k k' then (k, v) :: rest
      else (k', v') :: dict_set k v rest
  end.

Fixpoint dict_get {V : Type} (k : string) (d : list (string * V)) : option V :=
  match d with
  | [] => None
  | (k', v') :: rest => if String.eqb k k' then Some v' else dict_get k rest
  end.

Definition keys {V : Type} (d : list (string * V)) : list string := fst <$> d.

(** [range(a, b)] *)
Definition range (a b : nat) : list nat := seq a (b - a).

(** *** Variance, extrema and exponential smoothing *)

(** Sample variance of a window ([ddof = 1]). *)
Definition variance (obs : Series) : fval :=
  let m := mean obs in
  (fsum ((fun x => (x - m) * (x - m)) <$> obs)
   / of_nat (length obs - 1))%F.

(** [s.max()] and [s.min()] skip NaN; a column without observation gives
    NaN.  The same rule is the row-wise [max(axis=1)]. *)
Definition smax (s : Series) : fval := fmax_list (List.filter notna s).
Definition smin (s : Series) : fval := fmin_list (List.filter notna s).

Definition row_max3 (a b c : Series) : Series :=
  zip_with (fun x yz => smax [x; yz.1; yz.2]) a (zip b c).

(** [s.ewm(alpha, adjust=False).mean()], pandas' recursion: [weighted] is
    the running average and [old_wt] the weight it carries; a NaN cell
    decays the weight and repeats the average; leading NaN cells stay
    NaN. *)
Fixpoint ewm_go (alpha weighted old_wt : fval) (vals : Series) : Series :=
  match vals with
  | [] => []
  | cur :: rest =>
      let '(weighted', old_wt') :=
        if notna weighted then
          let old_wt1 := (old_wt * (Fin 1 - alpha))%F in
          if notna cur then
            ((if feqb weighted cur then weighted
              else ((old_wt1 * weighted + alpha * cur)
                    / (old_wt1 + alpha))%F),
             Fin 1)
          else (weighted, old_wt1)
        else if notna cur then (cur, old_wt)
        else (weighted, old_wt)
      in
      weighted' :: ewm_go alpha weighted' old_wt' rest
  end.

Definition ewm_mean (alpha : fval) (vals : Series) : Series :=
  match vals with
  | [] => []
  | v0 :: rest => v0 :: ewm_go alpha v0 (Fin 1) rest
  end.

(** [s.ewm(span=n, adjust=False)]: pandas refuses a span below 1;
    [alpha = 2 / (span + 1)]. *)
Definition ewm_span (span : nat) (vals : Series) : res Series :=
  if span <? 1 then Raise ValueError
  else Ok (ewm_mean (Fin 2 / of_nat (span + 1))%F vals).

(** [s.ewm(com=m-1, adjust=False)]: pandas refuses a negative [com];
    [alpha = 1 / (1 + com) = 1 / m]. *)
Definition ewm_com_pred (m : nat) (vals : Series) : res Series :=
  if m <? 1 then Raise ValueError
  else Ok (ewm_mean (Fin 1 / of_nat m)%F vals).

(** [s.ffill()] and [s.pct_change(periods=k)] (which pads first). *)
Fixpoint ffill_from (prev : fval) (s : Series) : Series :=
  match s with
  | [] => []
  | x :: rest =>
      let x' := if isnan x then prev else x in
      x' :: ffill_from x' rest
  end.

Definition ffill (s : Series) : Series := ffill_from NaN s.

Definition pct_change (k : nat) (s : Series) : Series :=
  let p := ffill s in
  (fun v => (v - Fin 1)%F) <$> sdiv p (shift_by k p).

(** ** The engine *)

Section Engine.

(** numpy's square root on the non-negative rationals. *)
Variable sqrtQ : Q → Q.

Definition fsqrt (v : fval) : fval :=
  match v with
  | NaN | NInf => NaN
  | PInf => PInf
  | Fin q => if Qltb q 0 then NaN else Fin (sqrtQ q)
  end.

(** [s.rolling(window=w).std()]: needs more than one observation. *)
Definition rolling_std (w : nat) (s : Series) : Series :=
  rolling 2 (fun obs => fsqrt (variance obs)) w s.

(** The data-retrieval collaborator [get_okx_candles(inst_id, bar, limit,
    use_proxy)] of [crypto_data.py]: a frame, or [None] when the request
    failed. *)
Variable get_okx_candles : string → string → nat → bool → option DataFrame.

(** A raw candle record as handed to the constructor: a [datetime] cell
    that parses to a time, is null, or does not parse, and five numeric
    cells, each a number (possibly NaN or infinite) or not a number. *)
Inductive RawTime : Type :=
  | TimeOk (ms : Z)
  | TimeNull
  | TimeBad.

Inductive RawNum : Type :=
  | NumOk (v : fval)
  | NumBad.

Record RawRecord : Type := mkRaw {
  raw_datetime : RawTime;
  raw_open : RawNum;
  raw_high : RawNum;
  raw_low : RawNum;
  raw_close : RawNum;
  raw_vol : RawNum
}.

(** The content of a JSON data file, asset by asset with its ['kline_1d']
    records; [None] when the file does not exist. *)
Variable read_json : string → option (list (string * list RawRecord)).

(** *** The instance and the Series Normalizer, lines 34-80 *)

Record TechnicalAnalysis : Type := mkTA {
  inst_id : option string;
  bar : string;
  limit : nat;
  use_proxy : bool;
  data : DataFrame
}.

(** [pd.to_datetime] raises on a cell it cannot parse; a null cell is
    [NaT]. *)
Definition to_datetime (c : RawTime) : res Timestamp :=
  match c with
  | TimeOk ms => Ok (At ms)
  | TimeNull => Ok NaT
  | TimeBad => Raise ValueError
  end.

(** [pd.to_numeric(errors='coerce')] *)
Definition to_numeric (c : RawNum) : fval :=
  match c with
  | NumOk v => v
  | NumBad => NaN
  end.

(** The order of [sort_values]: ascending, [NaT] last. *)
Definition ts_le (a b : Timestamp) : Prop :=
  match a, b with
  | _, NaT => True
  | NaT, At _ => False
  | At x, At y => (x <= y)%Z
  end.

Definition ts_lt (a b : Timestamp) : Prop :=
  match a, b with
  | NaT, _ => False
  | At _, NaT => True
  | At x, At y => (x < y)%Z
  end.

#[global] Instance ts_le_dec (a b : Timestamp) : Decision (ts_le a b).
Proof.
  destruct a as [|x], b as [|y]; simpl;
    [left; exact I | right; tauto | left; exact I | apply Z_le_dec].
Defined.

#[global] Instance ts_lt_dec (a b : Timestamp) : Decision (ts_lt a b).
Proof.
  destruct a as [|x], b as [|y]; simpl;
    [right; tauto | right; tauto | left; exact I | apply Z_lt_dec].
Defined.

(** [df.sort_values(key)]: the rows in ascending order of their key.  The
    order pandas gives to rows with equal keys is that of numpy's default
    sort, which is not stable; the merge sort used here fixes one such
    order, and no statement below depends on it. *)
Definition sort_values {A : Type} (key : A → Timestamp) (rows : list A)
    : list A :=
  merge_sort (fun x y => ts_le (key x) (key y)) rows.

(** [df.reset_index(drop=True)] *)
Definition reset_index {A : Type} (rows : list (nat * A)) : list (nat * A) :=
  imap (fun i r => (i, r.2)) rows.

Definition sequence {A : Type} (l : list (res A)) : res (list A) :=
  foldr (fun m acc => x ← m; xs ← acc; Ok (x :: xs)) (Ok []) l.

Definition row_of (r : nat * (Timestamp * RawRecord)) : Row :=
  mkRow r.1 r.2.1
        (to_numeric (raw_open r.2.2)) (to_numeric (raw_high r.2.2))
        (to_numeric (raw_low r.2.2)) (to_numeric (raw_close r.2.2))
        (to_numeric (raw_vol r.2.2)).

(** [pd.DataFrame(kline_data)] followed by [_process_dataframe]: nothing
    is done to an empty frame; otherwise the timestamps are parsed, the
    rows sorted on them and re-indexed, and the numeric columns coerced. *)
Definition _process_dataframe (kline_data : list RawRecord) : res DataFrame :=
  match kline_data with
  | [] => Ok NoColumns
  | _ :: _ =>
      dts ← sequence (to_datetime ∘ raw_datetime <$> kline_data);
      let frame := zip (seq 0 (length kline_data)) (zip dts kline_data) in
      let frame := reset_index (sort_values (fun r => r.2.1) frame) in
      Ok (Frame (row_of <$> frame))
  end.

(** [TechnicalAnalysis.__init__], lines 49-69: the data come from the
    records given, else from the collaborator, else stay [pd.DataFrame()]. *)
Definition __init__ (kline_data : option (list RawRecord))
    (id : option string) (b : string) (lim : nat) (proxy : bool)
    : res TechnicalAnalysis :=
  match kline_data, id with
  | Some records, _ =>
      df ← _process_dataframe records;
      Ok (mkTA id b lim proxy df)
  | None, Some i =>
      Ok (mkTA id b lim proxy
            (match get_okx_candles i b lim proxy with
             | None => NoColumns
             | Some df => df
             end))
  | None, None => Ok (mkTA id b lim proxy NoColumns)
  end.

(** [TechnicalAnalysis.from_api] *)
Definition from_api (id b : string) (lim : nat) (proxy : bool)
    : res TechnicalAnalysis :=
  __init__ None (Some id) b lim proxy.

(** ** The indicator library *)

Definition hundred : fval := Fin 100.

(** *** Trend, lines 179-211 *)

Definition calculate_ma (self : TechnicalAnalysis) (period : nat)
    : res Series :=
  closes ← column close (data self);
  Ok (rolling_mean period closes).

Definition calculate_ema (self : TechnicalAnalysis) (period : nat)
    : res Series :=
  closes ← column close (data self);
  ewm_span period closes.

(** The four assignments of lines 195-198, in their order: the fourth
    compares [minus_dm] with the [plus_dm] that the third has changed. *)
Definition directional_movement (highs lows : Series) : Series * Series :=
  let plus_dm := diff highs in
  let minus_dm := sneg (diff lows) in
  let plus_dm := assign_where (fun x _ => flt x (Fin 0)) (Fin 0) plus_dm plus_dm in
  let minus_dm := assign_where (fun x _ => flt x (Fin 0)) (Fin 0) minus_dm minus_dm in
  let plus_dm := assign_where fle (Fin 0) plus_dm minus_dm in
  let minus_dm := assign_where fle (Fin 0) minus_dm plus_dm in
  (plus_dm, minus_dm).

Definition true_range (highs lows closes : Series) : Series :=
  let tr1 := ssub highs lows in
  let tr2 := sabs (ssub highs (shift closes)) in
  let tr3 := sabs (ssub lows (shift closes)) in
  row_max3 tr1 tr2 tr3.

Definition calculate_dmi (self : TechnicalAnalysis) (period : nat)
    : res (Series * Series * Series) :=
  highs ← column high (data self);
  lows ← column low (data self);
  closes ← column close (data self);
  let '(plus_dm, minus_dm) := directional_movement highs lows in
  let atr := rolling_mean period (true_range highs lows closes) in
  let plus_di := sdiv (sscale hundred (rolling_mean period plus_dm)) atr in
  let minus_di := sdiv (sscale hundred (rolling_mean period minus_dm)) atr in
  let dx := sdiv (sscale hundred (sabs (ssub plus_di minus_di)))
                 (sadd plus_di minus_di) in
  let adx := rolling_mean period dx in
  Ok (plus_di, minus_di, adx).

(** *** Momentum, lines 215-243 *)

Definition rsi_of_rs (rs : fval) : fval :=
  (hundred - hundred / (Fin 1 + rs))%F.

Definition gains (closes : Series) : Series :=
  where_ (fun d => fgt d (Fin 0)) (Fin 0) (diff closes).

Definition losses (closes : Series) : Series :=
  sneg (where_ (fun d => flt d (Fin 0)) (Fin 0) (diff closes)).

Definition calculate_rsi (self : TechnicalAnalysis) (period : nat)
    : res Series :=
  closes ← column close (data self);
  let avg_gain := rolling_mean period (gains closes) in
  let avg_loss := rolling_mean period (losses closes) in
  let rs := sdiv avg_gain avg_loss in
  Ok (rsi_of_rs <$> rs).

Definition calculate_macd (self : TechnicalAnalysis) (fast slow signal : nat)
    : res (Series * Series * Series) :=
  closes ← column close (data self);
  exp1 ← ewm_span fast closes;
  closes ← column close (data self);
  exp2 ← ewm_span slow closes;
  let dif := ssub exp1 exp2 in
  dea ← ewm_span signal dif;
  let histogram := sscale (Fin 2) (ssub dif dea) in
  Ok (dif, dea, histogram).

Definition calculate_kdj (self : TechnicalAnalysis) (n m1 m2 : nat)
    : res (Series * Series * Series) :=
  lows ← column low (data self);
  let low_list := rolling_min n lows in
  highs ← column high (data self);
  let high_list := rolling_max n highs in
  closes ← column close (data self);
  let rsv := sscale hundred
               (sdiv (ssub closes low_list) (ssub high_list low_list)) in
  k ← ewm_com_pred m1 rsv;
  d ← ewm_com_pred m2 k;
  let j := ssub (sscale (Fin 3) k) (sscale (Fin 2) d) in
  Ok (k, d, j).

(** *** Volatility, lines 247-262 *)

Definition calculate_bollinger_bands (self : TechnicalAnalysis)
    (period : nat) (std_dev : Z) : res (Series * Series * Series) :=
  closes ← column close (data self);
  let middle := rolling_mean period closes in
  closes ← column close (data self);
  let std := rolling_std period closes in
  let width := sscale (Fin (inject_Z std_dev)) std in
  let upper := sadd middle width in
  let lower := ssub middle width in
  Ok (upper, middle, lower).

Definition calculate_atr (self : TechnicalAnalysis) (period : nat)
    : res Series :=
  highs ← column high (data self);
  lows ← column low (data self);
  closes ← column close (data self);
  Ok (rolling_mean period (true_range highs lows closes)).

(** *** Volume: OBV, lines 266-277 *)

(** The body of the loop of [calculate_obv]: [obv.iloc[i]] is assigned from
    [obv.iloc[i-1]] and the closes at [i] and [i-1]. *)
Definition obv_step (closes vols : Series) (obv : Series) (i : nat)
    : res Series :=
  c ← iloc closes i;
  c' ← iloc closes (i - 1);
  prev ← iloc obv (i - 1);
  if fgt c c' then
    v ← iloc vols i; Ok (<[i := (prev + v)%F]> obv)
  else if flt c c' then
    v ← iloc vols i; Ok (<[i := (prev - v)%F]> obv)
  else Ok (<[i := prev]> obv).

Definition calculate_obv (self : TechnicalAnalysis) : res Series :=
  let obv := replicate (len (data self)) NaN in
  vols ← column vol (data self);
  v0 ← iloc vols 0;
  let obv := <[0 := v0]> obv in
  closes ← column close (data self);
  for_each (obv_step closes vols) (range 1 (len (data self))) obv.

(** *** Price structure, lines 281-311 *)

Definition fib (h l : fval) (ratio : Q) : fval :=
  (h - (h - l) * Fin ratio)%F.

Definition calculate_fibonacci_retracement (h l : fval)
    : list (string * fval) :=
  [ ("0.0", h);
    ("0.236", fib h l (236 # 1000));
    ("0.382", fib h l (382 # 1000));
    ("0.5", fib h l (5 # 10));
    ("0.618", fib h l (618 # 1000));
    ("0.786", fib h l (786 # 1000));
    ("1.0", l) ]%string.

(** [s.iloc[i]] at a position that the loop bounds keep in range. *)
Definition cell (s : Series) (i : nat) : fval := default NaN (s !! i).

Definition is_extremum (cmp : fval → fval → bool) (s : Series)
    (w i : nat) : bool :=
  forallb (fun j => cmp (cell s i) (cell s (i - j))) (range 1 (w + 1))
  && forallb (fun j => cmp (cell s i) (cell s (i + j))) (range 1 (w + 1)).

Definition extrema (cmp : fval → fval → bool) (s : Series) (w : nat)
    : list fval :=
  cell s <$> List.filter (is_extremum cmp s w) (range w (length s - w)).

Definition find_support_resistance (self : TechnicalAnalysis) (w : nat)
    : res (list fval * list fval) :=
  highs ← column high (data self);
  lows ← column low (data self);
  let resistance_levels := extrema fge highs w in
  let support_levels := extrema fle lows w in
  Ok (support_levels, resistance_levels).

(** ** Aggregator, lines 313-386 *)

(** The indicator table: the index, the [datetime] column and the numeric
    columns in their order of insertion.  [pd.DataFrame()] is the table
    without index and without columns. *)
Record IndicatorTable : Type := mkTable {
  table_index : list nat;
  table_datetime : option (list Timestamp);
  table_columns : list (string * Series)
}.

Definition empty_table : IndicatorTable := mkTable [] None [].

Definition get_all_indicators (self : TechnicalAnalysis)
    : res IndicatorTable :=
  if empty (data self) then Ok empty_table
  else
    closes ← column close (data self);
    highs ← column high (data self);
    lows ← column low (data self);
    volume ← column vol (data self);
    index ← column label (data self);
    dt ← column datetime (data self);
    opens ← column open (data self);
    ma5 ← calculate_ma self 5;
    ma10 ← calculate_ma self 10;
    ma20 ← calculate_ma self 20;
    ma50 ← calculate_ma self 50;
    ema12 ← calculate_ema self 12;
    ema26 ← calculate_ema self 26;
    rsi14 ← calculate_rsi self 14;
    rsi6 ← calculate_rsi self 6;
    '(dif, dea, macd_hist) ← calculate_macd self 12 26 9;
    '(k, d, j) ← calculate_kdj self 9 3 3;
    '(plus_di, minus_di, adx) ← calculate_dmi self 14;
    '(bb_upper, bb_middle, bb_lower) ← calculate_bollinger_bands self 20 2;
    atr14 ← calculate_atr self 14;
    obv ← calculate_obv self;
    Ok (mkTable index (Some dt)
          [ ("open", opens); ("high", highs); ("low", lows);
            ("close", closes); ("volume", volume);
            ("ma5", ma5); ("ma10", ma10); ("ma20", ma20); ("ma50", ma50);
            ("ema12", ema12); ("ema26", ema26);
            ("rsi14", rsi14); ("rsi6", rsi6);
            ("macd_dif", dif); ("macd_dea", dea); ("macd_hist", macd_hist);
            ("kdj_k", k); ("kdj_d", d); ("kdj_j", j);
            ("dmi_plus_di", plus_di); ("dmi_minus_di", minus_di);
            ("dmi_adx", adx);
            ("bb_upper", bb_upper); ("bb_middle", bb_middle);
            ("bb_lower", bb_lower);
            ("bb_width", sdiv (ssub bb_upper bb_lower) bb_middle);
            ("atr14", atr14);
            ("obv", obv);
            ("price_change_1", sscale hundred (pct_change 1 closes));
            ("price_change_5", sscale hundred (pct_change 5 closes));
            ("price_change_20", sscale hundred (pct_change 20 closes));
            ("volume_change", sscale hundred (pct_change 1 volume));
            ("volume_sma20", rolling_mean 20 volume) ]%string).

(** ** Snapshot of one asset, lines 470-518 *)

(** The ['indicators'] dictionary.  [None] is Python's [None]; [Some NaN]
    is a NaN taken from a column. *)
Record Indicators : Type := mkIndicators {
  MA5 : option fval;
  MA20 : option fval;
  ADX : option fval;
  RSI : option fval;
  MACD_DIF : option fval;
  Fib_Levels : list (string * fval);
  Current_Price : fval;
  Price_Change_pct : fval
}.

Record DataSummary : Type := mkSummary {
  total_candles : nat;
  date_start : option Timestamp;
  date_end : option Timestamp
}.

Record Report : Type := mkReport {
  asset : string;
  indicators : Indicators;
  data_summary : DataSummary
}.

(** [s.iloc[-1] if guard else None] *)
Definition last_if (guard : bool) (s : res Series) : res (option fval) :=
  if guard then col ← s; v ← iloc_last col; Ok (Some v) else Ok None.

(** [t.isoformat() if guard else None]; the rendering of a timestamp as
    text is left out. *)
Definition last_if_time (guard : bool) (t : res Timestamp)
    : res (option Timestamp) :=
  if guard then v ← t; Ok (Some v) else Ok None.

Definition nonempty {A : Type} (s : list A) : bool :=
  match s with [] => false | _ :: _ => true end.

Definition _analyze_single_asset (ta : TechnicalAnalysis) (name : string)
    : res (option Report) :=
  if empty (data ta) then Ok None
  else
    ma5 ← last_if (5 <=? len (data ta)) (calculate_ma ta 5);
    ma20 ← last_if (20 <=? len (data ta)) (calculate_ma ta 20);
    '(plus_di, minus_di, adx) ← calculate_dmi ta 14;
    adx_last ← last_if (nonempty adx) (Ok adx);
    rsi ← calculate_rsi ta 14;
    rsi_last ← last_if (nonempty rsi) (Ok rsi);
    '(dif, dea, hist) ← calculate_macd ta 12 26 9;
    dif_last ← last_if (nonempty dif) (Ok dif);
    highs ← column high (data ta);
    let high_price := smax highs in
    lows ← column low (data ta);
    let low_price := smin lows in
    closes ← column close (data ta);
    current_price ← iloc_last closes;
    let fib_levels := calculate_fibonacci_retracement high_price low_price in
    first_close ← iloc closes 0;
    let change := ((current_price - first_close) / first_close * hundred)%F in
    dt ← column datetime (data ta);
    start ← last_if_time (0 <? len (data ta)) (iloc dt 0);
    stop ← last_if_time (0 <? len (data ta)) (iloc_last dt);
    Ok (Some (mkReport name
                (mkIndicators ma5 ma20 adx_last rsi_last dif_last
                   fib_levels current_price change)
                (mkSummary (len (data ta)) start stop))).

(** ** Batch orchestrator, lines 389-467

    Writing the result file at the end is left out: the function is
    modelled up to the dictionary it returns. *)

Definition truthy_str (s : option string) : bool :=
  match s with
  | Some (String _ _) => true
  | _ => false
  end.

(** One turn of the loop over the items of the data file. *)
Definition analyze_file_item (results : list (string * Report))
    (item : string * list RawRecord) : res (list (string * Report)) :=
  let '(name, kline_data) := item in
  if nonempty kline_data then
    ta ← __init__ (Some kline_data) None "1D" 100 true;
    result ← _analyze_single_asset ta name;
    match result with
    | Some r => Ok (dict_set name r results)
    | None => Ok results
    end
  else Ok results.

(** One turn of the loop over [inst_ids]. *)
Definition analyze_inst (b : string) (lim : nat) (proxy : bool)
    (results : list (string * Report)) (id : string)
    : res (list (string * Report)) :=
  ta ← from_api id b lim proxy;
  if empty (data ta) then Ok results
  else
    result ← _analyze_single_asset ta id;
    match result with
    | Some r => Ok (dict_set id r results)
    | None => Ok results
    end.

Definition analyze_all_assets (data_file : option string)
    (inst_ids : option (list string)) (b : string) (lim : nat) (proxy : bool)
    : res (list (string * Report)) :=
  if truthy_str data_file then
    match read_json (default EmptyString data_file) with
    | None => Ok []
    | Some all_data => for_each analyze_file_item all_data []
    end
  else
    match inst_ids with
    | Some (id :: ids) => for_each (analyze_inst b lim proxy) (id :: ids) []
    | _ => Ok []
    end.

End Engine.

(** ** The candle request, [crypto_data.py] lines 87-157

    [get_okx_candles] asks the exchange for candles and turns the reply
    into a frame.  The request itself is the outside world: it either
    fails (connection, HTTP status, a body that is not the expected
    JSON, rows that do not have the nine cells of a candle), or gives
    the decoded reply with its ['code'] and the rows of its ['data'].
    A row is read as a [RawRecord]: its ['ts'] cell is a whole number
    of milliseconds, null, or not a number, and each of its five
    numeric cells is a number or not. *)

Inductive OkxReply : Type :=
  | RequestError
  | Reply (code : string) (candles : list RawRecord).

(** [pd.to_numeric] with its default [errors='raise']. *)
Definition to_numeric_strict (c : RawNum) : res fval :=
  match c with
  | NumOk v => Ok v
  | NumBad => Raise ValueError
  end.

(** The range of [datetime64[ns]] in whole milliseconds: 2^63 - 1
    nanoseconds are 9223372036854 milliseconds and a fraction. *)
Definition ts_limit : Z := 9223372036854.

(** [pd.to_datetime(pd.to_numeric(ts), unit='ms')] on one cell, line
    145: a cell that is not a number raises in [pd.to_numeric], and a
    number of milliseconds beyond the range of [datetime64[ns]] raises
    [OutOfBoundsDatetime], a [ValueError], in [pd.to_datetime]. *)
Definition ts_to_datetime (c : RawTime) : res Timestamp :=
  match c with
  | TimeOk ms =>
      if (Z.abs ms <=? ts_limit)%Z then Ok (At ms) else Raise ValueError
  | TimeNull => Ok NaT
  | TimeBad => Raise ValueError
  end.

(** The conversions of lines 145-150 on one row.  The code converts
    column by column; every failure ends in the same handler, so the
    order in which the cells are visited does not show. *)
Definition okx_row (i : nat) (c : RawRecord) : res Row :=
  dt ← ts_to_datetime (raw_datetime c);
  o ← to_numeric_strict (raw_open c);
  h ← to_numeric_strict (raw_high c);
  l ← to_numeric_strict (raw_low c);
  cl ← to_numeric_strict (raw_close c);
  v ← to_numeric_strict (raw_vol c);
  Ok (mkRow i dt o h l cl v).

(** [reset_index(drop=True)] on rows that carry their label. *)
Definition relabel (rows : list Row) : list Row :=
  imap (fun i r =>
          mkRow i (datetime r) (open r) (high r) (low r) (close r) (vol r))
       rows.

Definition okx_frame (candles : list RawRecord) : res DataFrame :=
  rows ← sequence (imap okx_row candles);
  Ok (Frame (relabel (sort_values datetime rows))).

(** The function, over the request: [None] on a failed request, on a
    reply whose code is not ['0'], and on any exception of the
    conversion. *)
Definition get_okx_candles
    (request : string → string → nat → bool → OkxReply)
    (inst_id b : string) (lim : nat) (proxy : bool) : option DataFrame :=
  match request inst_id b lim proxy with
  | RequestError => None
  | Reply code candles =>
      if negb (String.eqb code "0") then None
      else
        match okx_frame candles with
        | Ok df => Some df
        | Raise _ => None
        end
  end.

(** A row of the reply whose cells all convert. *)
Definition numeric (c : RawNum) : bool :=
  match c with
  | NumOk _ => true
  | NumBad => false
  end.

Definition ts_converts (t : RawTime) : bool :=
  match t with
  | TimeOk ms => (Z.abs ms <=? ts_limit)%Z
  | TimeNull => true
  | TimeBad => false
  end.

Definition clean (c : RawRecord) : bool :=
  ts_converts (raw_datetime c)
  && numeric (raw_open c) && numeric (raw_high c) && numeric (raw_low c)
  && numeric (raw_close c) && numeric (raw_vol c).

(** Whether the exchange answers for an instrument with at least one
    candle that the conversion accepts. *)
Definition answers (request : string → string → nat → bool → OkxReply)
    (b : string) (lim : nat) (proxy : bool) (inst_id : string) : bool :=
  match request inst_id b lim proxy with
  | Reply code (c :: candles) =>
      String.eqb code "0" && forallb clean (c :: candles)
  | _ => false
  end.

(** * Vocabulary of the statements *)

(** [nan_prefix k s]: the cells of [s] before position [k] are missing. *)
Definition nan_prefix (k : nat) (s : Series) : Prop :=
  ∀ i, i < k → i < length s → s !! i = Some NaN.

(** What one turn of the loop of [calculate_obv] writes at the position
    it visits. *)
Definition obv_next (c c' prev v : fval) : fval :=
  if fgt c c' then (prev + v)%F
  else if flt c c' then (prev - v)%F
  else prev.

(** Every cell is a number: neither NaN nor infinite. *)
Definition finite_series (s : Series) : Prop :=
  Forall (λ v, isfinite v = true) s.

(** [defined_from k s]: the cells of [s] before position [k] are missing
    and those from [k] on are finite numbers. *)
Definition defined_from (k : nat) (s : Series) : Prop :=
  nan_prefix k s
  ∧ ∀ i, k ≤ i → i < length s → ∃ q, s !! i = Some (Fin q).

Definition closes_finite (rows : list Row) : Prop :=
  Forall (λ r, isfinite (close r) = true) rows.

(** The range in which a statement about numbers is read.  A cell of
    the model is an exact rational where the code has a float64, or an
    int64 where [pd.to_numeric] finds whole numbers only.  The two
    agree on which cells hold a number as long as nothing leaves the
    range of the machine type: a float64 sum that overflows becomes an
    infinity and, one step of the window later, NaN; an int64
    difference wraps around.  A price is [ordinary] when its magnitude
    is at most 2^52: differences of such prices do not wrap, and no sum
    over a window of such prices, or of their squares, overflows. *)
Definition price_bound : Q := inject_Z (2 ^ 52)%Z.

Definition ordinary (v : fval) : Prop :=
  match v with
  | Fin q => (Qabs q <= price_bound)%Q
  | _ => False
  end.


Definition ordinary_prices (rows : list Row) : Prop :=
  Forall (λ r, ordinary (high r) ∧ ordinary (low r) ∧ ordinary (close r))
    rows.

(** Zero or more, possibly infinite. *)
Definition nonneg (v : fval) : Prop :=
  match v with
  | Fin q => (0 <= q)%Q
  | PInf => True
  | _ => False
  end.

(** What a row holds besides its label, and the same for a parsed
    record. *)
Definition candle_of_row (r : Row)
    : Timestamp * (fval * fval * fval * fval * fval) :=
  (datetime r, (open r, high r, low r, close r, vol r)).

Definition candle_of_raw (x : Timestamp * RawRecord)
    : Timestamp * (fval * fval * fval * fval * fval) :=
  (x.1, (to_numeric (raw_open x.2), to_numeric (raw_high x.2),
         to_numeric (raw_low x.2), to_numeric (raw_close x.2),
         to_numeric (raw_vol x.2))).

(** Timestamps in strictly ascending, and in non-decreasing, order. *)
Definition strictly_ascending (rows : list Row) : Prop :=
  ∀ i j r r', i < j → rows !! i = Some r → rows !! j = Some r' →
    ts_lt (datetime r) (datetime r').

Definition ascending (rows : list Row) : Prop :=
  ∀ i j r r', i < j → rows !! i = Some r → rows !! j = Some r' →
    ts_le (datetime r) (datetime r').

(** The identifiers of [l] that are not in [seen], each at its first
    occurrence. *)
Fixpoint first_occurrences (seen l : list string) : list string :=
  match l with
  | [] => []
  | x :: rest =>
      if bool_decide (x ∈ seen) then first_occurrences seen rest
      else x :: first_occurrences (x :: seen) rest
  end.


(** The frame that [from_api] stores for an identifier, the instance it
    builds, and whether the loop over [inst_ids] analyses it. *)
Section BatchVocabulary.

Variable get_okx_candles : string → string → nat → bool → option DataFrame.
Variables (b : string) (lim : nat) (proxy : bool).

Definition fetched (id : string) : DataFrame :=
  match get_okx_candles id b lim proxy with
  | None => NoColumns
  | Some df => df
  end.

Definition instance_of (id : string) : TechnicalAnalysis :=
  mkTA (Some id) b lim proxy (fetched id).

Definition has_data (id : string) : bool := negb (empty (fetched id)).

End BatchVocabulary.

(** ** Vocabulary of the further properties *)

(** [alpha = 2 / (span + 1)] as a rational. *)
Definition alpha_of_span (span : nat) : Q :=
  2 / inject_Z (Z.of_nat (span + 1)).

(** The recursion of [ewm_go] on finite cells: the running average after
    each close, from the average [w] before the first. *)
Fixpoint ema_q (a w : Q) (cs : list Q) : list Q :=
  match cs with
  | [] => []
  | c :: rest =>
      let w' := if Qeq_bool w c then w
                else ((1 * (1 + - a) * w + a * c) / (1 * (1 + - a) + a))%Q in
      w' :: ema_q a w' rest
  end.

(** High, low and close of every candle are numbers. *)
Definition prices_finite (rows : list Row) : Prop :=
  Forall (λ r, isfinite (high r) = true ∧ isfinite (low r) = true
               ∧ isfinite (close r) = true) rows.





(** The names of the columns of the table, in their order. *)
Definition indicator_names : list string :=
  [ "open"; "high"; "low"; "close"; "volume";
    "ma5"; "ma10"; "ma20"; "ma50"; "ema12"; "ema26"; "rsi14"; "rsi6";
    "macd_dif"; "macd_dea"; "macd_hist"; "kdj_k"; "kdj_d"; "kdj_j";
    "dmi_plus_di"; "dmi_minus_di"; "dmi_adx";
    "bb_upper"; "bb_middle"; "bb_lower"; "bb_width"; "atr14"; "obv";
    "price_change_1"; "price_change_5"; "price_change_20";
    "volume_change"; "volume_sma20" ]%string.

(** The records of a collection whose timestamps all parse. *)
Definition parses (kline_data : list RawRecord) : Prop :=
  Forall (λ r, raw_datetime r ≠ TimeBad) kline_data.

(** The names under which the loop over a data file stores a report:
    those of the items with at least one record. *)
Definition analysed (all_data : list (string * list RawRecord))
    : list string :=
  (List.filter (λ item, nonempty item.2) all_data).*1.

(** The reports of a dictionary carry the name they are stored under and
    count the records of an item of the file with that name. *)
Definition reports_of (all_data : list (string * list RawRecord))
    (results : list (string * Report)) : Prop :=
  ∀ name r, dict_get name results = Some r →
    asset r = name
    ∧ ∃ kline_data, (name, kline_data) ∈ all_data ∧ kline_data ≠ []
        ∧ total_candles (data_summary r) = length kline_data.

(** A cell that is missing, or a number with the property [P]. *)
Definition nan_or (P : Q → Prop) (v : fval) : Prop :=
  match v with
  | NaN => True
  | Fin q => P q
  | _ => False
  end.

Definition within (lo hi q : Q) : Prop := (lo <= q)%Q ∧ (q <= hi)%Q.


(** ** Sample inputs *)

(** A square root on the rationals, rounded down on the scale of the
    denominator: a stand-in for numpy's where a statement is evaluated. *)
Definition Qsqrt_floor (q : Q) : Q :=
  Z.sqrt (Qnum q * Zpos (Qden q)) # Qden q.

(** A candle at position [i] that closes at [c], one above its low and
    one below its high, with volume 1. *)
Definition bar_at (i : nat) (c : Z) : Row :=
  mkRow i (At (Z.of_nat i)) (Fin (inject_Z c)) (Fin (inject_Z (c + 1)))
        (Fin (inject_Z (c - 1))) (Fin (inject_Z c)) (Fin 1).

Definition instance_with (df : DataFrame) : TechnicalAnalysis :=
  mkTA None "1D" 100 true df.

Definition series_of_closes (cs : list Z) : TechnicalAnalysis :=
  instance_with (Frame (imap bar_at cs)).

Definition flat3 : TechnicalAnalysis := series_of_closes [1; 1; 1]%Z.
Definition rising3 : TechnicalAnalysis := series_of_closes [1; 2; 3]%Z.
Definition zigzag4 : TechnicalAnalysis := series_of_closes [1; 2; 1; 3]%Z.

(** One rise followed by fifteen unchanged closes. *)
Definition flat_tail : TechnicalAnalysis :=
  series_of_closes (1 :: replicate 15 2)%Z.

(** Two candles: the high rises by 1 while the low falls by 1. *)
Definition tie_rows : list Row :=
  [ mkRow 0 (At 0) (Fin 7) (Fin 10) (Fin 5) (Fin 7) (Fin 1);
    mkRow 1 (At 1) (Fin 7) (Fin 11) (Fin 4) (Fin 7) (Fin 1) ].

Definition tie_series : TechnicalAnalysis := instance_with (Frame tie_rows).

Definition no_data : TechnicalAnalysis := instance_with NoColumns.
Definition no_rows : TechnicalAnalysis := instance_with (Frame []).

Definition raw_candle (t : RawTime) (c : Z) : RawRecord :=
  mkRaw t (NumOk (Fin (inject_Z c))) (NumOk (Fin (inject_Z c)))
        (NumOk (Fin (inject_Z c))) (NumOk (Fin (inject_Z c))) NumBad.

Definition duplicate_records : list RawRecord :=
  [ raw_candle (TimeOk 5) 1; raw_candle (TimeOk 3) 2; raw_candle (TimeOk 5) 3 ].

Definition distinct_records : list RawRecord :=
  [ raw_candle (TimeOk 5) 1; raw_candle (TimeOk 3) 2; raw_candle TimeNull 3 ].

(** A collaborator that has data for one instrument only. *)
Definition sample_exchange (id _ : string) (_ : nat) (_ : bool)
    : option DataFrame :=
  if String.eqb id "BTC-USDT" then Some (data rising3) else None.

Definition no_files (_ : string) : option (list (string * list RawRecord)) :=
  None.

Definition sample_klines : list (string * list RawRecord) :=
  [ ("BTC", [raw_candle (TimeOk 5) 1; raw_candle (TimeOk 3) 2]);
    ("ETH", []);
    ("SOL", [raw_candle TimeNull 3]) ]%string.

Definition broken_klines : list (string * list RawRecord) :=
  [ ("BTC", [raw_candle (TimeOk 5) 1; raw_candle (TimeOk 3) 2]);
    ("ETH", [raw_candle (TimeOk 1) 1; raw_candle TimeBad 2]);
    ("SOL", [raw_candle TimeNull 3]) ]%string.

(** A file system with two data files. *)
Definition sample_files (path : string)
    : option (list (string * list RawRecord)) :=
  if String.eqb path "data.json" then Some sample_klines
  else if String.eqb path "broken.json" then Some broken_klines
  else None.

(** * Properties *)

(** ** Columns and rolling windows *)

Lemma length_shift (s : Series) : length (shift s) = length s.
Proof. unfold shift. rewrite length_take. simpl. lia. Qed.

Lemma length_diff (s : Series) : length (diff s) = length s.
Proof. unfold diff, ssub. rewrite length_zip_with, length_shift. lia. Qed.

Lemma length_rolling need agg w (s : Series) :
  length (rolling need agg w s) = length s.
Proof. unfold rolling. apply length_imap. Qed.

Lemma lookup_rolling need agg w (s : Series) i :
  i < length s →
  rolling need agg w s !! i =
    Some (let obs := observations w i s in
          if (w <=? length obs) && (need <=? length obs)
          then agg obs else NaN).
Proof.
  intros Hi. unfold rolling. rewrite list_lookup_imap.
  destruct (lookup_lt_is_Some_2 s i Hi) as [x ->]. reflexivity.
Qed.

Lemma length_window w i (s : Series) :
  i < length s → length (window w i s) = Nat.min w (i + 1).
Proof. intros Hi. unfold window. rewrite length_drop, length_take. lia. Qed.

Lemma lookup_window w i (s : Series) j :
  i < length s → j < Nat.min w (i + 1) →
  window w i s !! j = s !! (i + 1 - w + j).
Proof.
  intros Hi Hj. unfold window. rewrite lookup_drop, lookup_take.
  destruct (decide (i + 1 - w + j < i + 1)) as [_|Hn]; [reflexivity | lia].
Qed.

Lemma length_filter_le {A} (f : A → bool) (l : list A) :
  length (List.filter f l) ≤ length l.
Proof. induction l as [|x l IH]; simpl; [lia | destruct (f x); simpl; lia]. Qed.

Lemma length_filter_lt_elem {A} (f : A → bool) (l : list A) x :
  x ∈ l → f x = false → length (List.filter f l) < length l.
Proof.
  induction 1 as [x l | x y l Hin IH]; intros Hf; simpl.
  - rewrite Hf. pose proof (length_filter_le f l). lia.
  - specialize (IH Hf). destruct (f y); simpl; lia.
Qed.

Lemma observations_le w i (s : Series) :
  i < length s → length (observations w i s) ≤ Nat.min w (i + 1).
Proof.
  intros Hi. unfold observations. rewrite <- (length_window w i s Hi).
  apply length_filter_le.
Qed.

(** A window that reaches a NaN cell, or the start of the column, gives NaN. *)
Lemma rolling_nan need agg w (s : Series) i :
  i < length s → length (observations w i s) < w →
  rolling need agg w s !! i = Some NaN.
Proof.
  intros Hi Hlt. rewrite lookup_rolling by exact Hi. simpl.
  destruct (Nat.leb_spec w (length (observations w i s))); [lia | reflexivity].
Qed.

Lemma rolling_warmup need agg w (s : Series) i :
  i < length s → i + 1 < w → rolling need agg w s !! i = Some NaN.
Proof.
  intros Hi Hw. apply rolling_nan; [exact Hi |].
  pose proof (observations_le w i s Hi). lia.
Qed.

Lemma rolling_nan_prefix need agg w k (s : Series) :
  1 ≤ w → nan_prefix k s → nan_prefix (k + (w - 1)) (rolling need agg w s).
Proof.
  intros Hw Hk i Hi Hlen. rewrite length_rolling in Hlen.
  destruct (Nat.lt_ge_cases (i + 1) w) as [Hs|Hs];
    [apply rolling_warmup; assumption |].
  apply rolling_nan; [exact Hlen |].
  unfold observations.
  assert (Hwin : length (window w i s) = w)
    by (rewrite length_window by exact Hlen; lia).
  rewrite <- Hwin at 2.
  apply length_filter_lt_elem with (x := NaN); [| reflexivity].
  apply list_elem_of_lookup. exists 0.
  rewrite lookup_window by lia.
  apply Hk; lia.
Qed.

Lemma all_nan_of_prefix (s : Series) :
  nan_prefix (length s) s → s = replicate (length s) NaN.
Proof.
  intros H. apply list_eq. intros i.
  destruct (Nat.lt_ge_cases i (length s)) as [Hi|Hi].
  - rewrite H by exact Hi. symmetry. apply lookup_replicate_2. exact Hi.
  - rewrite lookup_ge_None_2 by exact Hi. symmetry.
    apply lookup_ge_None_2. rewrite length_replicate. exact Hi.
Qed.

(** A column shorter than the window is entirely missing. *)
Lemma rolling_short need agg w (s : Series) :
  length s < w → rolling need agg w s = replicate (length s) NaN.
Proof.
  intros Hlt.
  rewrite (all_nan_of_prefix (rolling need agg w s)).
  - rewrite length_rolling. reflexivity.
  - intros i _ Hi. rewrite length_rolling in Hi. apply rolling_warmup; lia.
Qed.

(** ** OBV *)

Lemma iloc_lookup {A} (s : list A) i v : s !! i = Some v → iloc s i = Ok v.
Proof. unfold iloc. intros ->. reflexivity. Qed.

Lemma obv_step_spec (closes vols obv : Series) i c c' prev v :
  closes !! i = Some c → closes !! (i - 1) = Some c' →
  obv !! (i - 1) = Some prev → vols !! i = Some v →
  obv_step closes vols obv i = Ok (<[i := obv_next c c' prev v]> obv).
Proof.
  intros Hc Hc' Hp Hv. unfold obv_step, obv_next.
  rewrite (iloc_lookup _ _ _ Hc), (iloc_lookup _ _ _ Hc'),
    (iloc_lookup _ _ _ Hp), (iloc_lookup _ _ _ Hv).
  simpl. destruct (fgt c c'); [reflexivity |].
  destruct (flt c c'); reflexivity.
Qed.

(** The loop over [range(a, a + k)] leaves the positions below [a] as they
    were and links every position it visits to the one before it. *)
Lemma obv_loop (closes vols : Series) n k :
  length closes = n → length vols = n →
  ∀ a (obv : Series), 1 ≤ a → a + k ≤ n → length obv = n →
  ∃ obv' : Series,
    for_each (obv_step closes vols) (seq a k) obv = Ok obv'
    ∧ length obv' = n
    ∧ (∀ j, j < a → obv' !! j = obv !! j)
    ∧ (∀ j c c' prev v, a ≤ j → j < a + k →
         closes !! j = Some c → closes !! (j - 1) = Some c' →
         obv' !! (j - 1) = Some prev → vols !! j = Some v →
         obv' !! j = Some (obv_next c c' prev v)).
Proof.
  intros Hc Hv. induction k as [|k IH]; intros a obv Ha Hak Hlen.
  - exists obv. simpl.
    split; [reflexivity |]. split; [exact Hlen |].
    split; [reflexivity | intros; lia].
  - destruct (lookup_lt_is_Some_2 closes a ltac:(lia)) as [c Hca].
    destruct (lookup_lt_is_Some_2 closes (a - 1) ltac:(lia)) as [c' Hca'].
    destruct (lookup_lt_is_Some_2 obv (a - 1) ltac:(lia)) as [prev Hpa].
    destruct (lookup_lt_is_Some_2 vols a ltac:(lia)) as [v Hva].
    simpl. rewrite (obv_step_spec _ _ _ _ _ _ _ _ Hca Hca' Hpa Hva). simpl.
    destruct (IH (S a) (<[a := obv_next c c' prev v]> obv))
      as (obv' & Hrun & Hlen' & Hold & Hnew);
      [lia | lia | rewrite length_insert; exact Hlen |].
    exists obv'. split; [exact Hrun |]. split; [exact Hlen' |]. split.
    + intros j Hj. rewrite Hold by lia. apply list_lookup_insert_ne. lia.
    + intros j cj cj' pj vj Hj1 Hj2 Hcj Hcj' Hpj Hvj.
      destruct (decide (j = a)) as [->|Hne].
      * rewrite Hold by lia. rewrite list_lookup_insert_eq by lia.
        rewrite Hold in Hpj by lia.
        rewrite list_lookup_insert_ne in Hpj by lia.
        congruence.
      * apply Hnew; try assumption; lia.
Qed.





Lemma Qltb_lt (a b : Q) : Qltb a b = true ↔ (a < b)%Q.
Proof.
  unfold Qltb. rewrite negb_true_iff. split.
  - intros H. apply Qnot_le_lt. intros Hle.
    apply Qle_bool_iff in Hle. congruence.
  - intros H. destruct (Qle_bool b a) eqn:E; [| reflexivity].
    apply Qle_bool_iff in E. lra.
Qed.

Lemma Qltb_ge (a b : Q) : Qltb a b = false ↔ (b <= a)%Q.
Proof.
  unfold Qltb. rewrite negb_false_iff. apply Qle_bool_iff.
Qed.



Lemma obv_run (self : TechnicalAnalysis) (rows : list Row) :
  data self = Frame rows → rows ≠ [] →
  ∃ obv : Series,
    calculate_obv self = Ok obv
    ∧ length obv = length rows
    ∧ obv !! 0 = vol <$> rows !! 0
    ∧ ∀ i r r' prev, 1 ≤ i → rows !! i = Some r → rows !! (i - 1) = Some r' →
        obv !! (i - 1) = Some prev →
        obv !! i = Some (obv_next (close r) (close r') prev (vol r)).
Proof.
  intros Hd Hne. unfold calculate_obv, len. rewrite Hd. simpl.
  destruct rows as [|r0 rows]; [congruence |]. simpl.
  unfold range. simpl. rewrite Nat.sub_0_r.
  destruct (obv_loop (close <$> r0 :: rows) (vol <$> r0 :: rows)
              (S (length rows)) (length rows)
              ltac:(rewrite length_fmap; reflexivity)
              ltac:(rewrite length_fmap; reflexivity)
              1 (vol r0 :: replicate (length rows) NaN)
              ltac:(lia) ltac:(lia)
              ltac:(simpl; rewrite length_replicate; reflexivity))
    as (obv & Hrun & Hlen & Hold & Hnew).
  exists obv. split; [exact Hrun |]. split; [exact Hlen |]. split.
  - rewrite Hold by lia. reflexivity.
  - intros i r r' prev Hi Hr Hr' Hp.
    apply Hnew; try assumption.
    + apply lookup_lt_Some in Hr. simpl in Hr. lia.
    + rewrite list_lookup_fmap, Hr. reflexivity.
    + rewrite list_lookup_fmap, Hr'. reflexivity.
    + rewrite list_lookup_fmap, Hr. reflexivity.
Qed.




(** ** Missing values spread *)

Lemma fsub_nan_l y : (NaN - y)%F = NaN.
Proof. destruct y; reflexivity. Qed.
Lemma fsub_nan_r x : (x - NaN)%F = NaN.
Proof. destruct x; reflexivity. Qed.
Lemma fmul_nan_r x : (x * NaN)%F = NaN.
Proof. destruct x; reflexivity. Qed.
Lemma fdiv_nan_l y : (NaN / y)%F = NaN.
Proof. destruct y; reflexivity. Qed.
Lemma fdiv_nan_r x : (x / NaN)%F = NaN.
Proof. destruct x; reflexivity. Qed.

Lemma nan_prefix_mono k k' (s : Series) :
  k' ≤ k → nan_prefix k s → nan_prefix k' s.
Proof. intros Hk H i Hi Hl. apply H; lia. Qed.

Lemma nan_prefix_zip_l (f : fval → fval → fval) k (a b : Series) :
  (∀ y, f NaN y = NaN) → nan_prefix k a → nan_prefix k (zip_with f a b).
Proof.
  intros Hf Ha i Hi Hl. rewrite length_zip_with in Hl.
  rewrite lookup_zip_with, (Ha i Hi) by lia. simpl.
  destruct (lookup_lt_is_Some_2 b i ltac:(lia)) as [y ->]. simpl.
  rewrite Hf. reflexivity.
Qed.

Lemma nan_prefix_zip_r (f : fval → fval → fval) k (a b : Series) :
  (∀ x, f x NaN = NaN) → nan_prefix k b → nan_prefix k (zip_with f a b).
Proof.
  intros Hf Hb i Hi Hl. rewrite length_zip_with in Hl.
  rewrite lookup_zip_with, (Hb i Hi) by lia.
  destruct (lookup_lt_is_Some_2 a i ltac:(lia)) as [x ->]. simpl.
  rewrite Hf. reflexivity.
Qed.

Lemma nan_prefix_fmap (f : fval → fval) k (a : Series) :
  f NaN = NaN → nan_prefix k a → nan_prefix k (f <$> a).
Proof.
  intros Hf Ha i Hi Hl. rewrite length_fmap in Hl.
  rewrite list_lookup_fmap, (Ha i Hi Hl). simpl. rewrite Hf. reflexivity.
Qed.

Lemma nan_prefix_assign cond v k (s t : Series) :
  (∀ y, cond NaN y = false) → nan_prefix k s →
  nan_prefix k (assign_where cond v s t).
Proof.
  intros Hc. unfold assign_where. apply nan_prefix_zip_l.
  intros y. rewrite Hc. reflexivity.
Qed.

Lemma nan_prefix_replicate k n : nan_prefix k (replicate n NaN).
Proof.
  intros i _ Hi. rewrite length_replicate in Hi.
  apply lookup_replicate_2. exact Hi.
Qed.

Lemma nan_prefix_diff (s : Series) : nan_prefix 1 (diff s).
Proof.
  intros i Hi Hl. assert (i = 0) as -> by lia.
  rewrite length_diff in Hl. unfold diff, ssub, shift.
  destruct s as [|x s]; [simpl in Hl; lia |].
  simpl. rewrite fsub_nan_r. reflexivity.
Qed.

Lemma length_assign cond v (s t : Series) :
  length t = length s → length (assign_where cond v s t) = length s.
Proof. intros H. unfold assign_where. rewrite length_zip_with. lia. Qed.

Lemma length_directional_movement (highs lows : Series) :
  length lows = length highs →
  length (directional_movement highs lows).1 = length highs
  ∧ length (directional_movement highs lows).2 = length highs.
Proof.
  intros H. unfold directional_movement. simpl.
  repeat first
    [ rewrite length_assign | rewrite length_fmap | rewrite length_diff
    | unfold sneg ]; auto.
Qed.

Lemma nan_prefix_directional_movement (highs lows : Series) :
  nan_prefix 1 (directional_movement highs lows).1
  ∧ nan_prefix 1 (directional_movement highs lows).2.
Proof.
  unfold directional_movement. simpl.
  split; repeat apply nan_prefix_assign; try reflexivity;
    try apply nan_prefix_fmap; try reflexivity; apply nan_prefix_diff.
Qed.

Lemma length_true_range (highs lows closes : Series) :
  length lows = length highs → length closes = length highs →
  length (true_range highs lows closes) = length highs.
Proof.
  intros Hl Hc. unfold true_range, row_max3, ssub, sabs.
  rewrite length_zip_with, length_zip_with, length_zip, !length_fmap,
    !length_zip_with, !length_shift. lia.
Qed.

Lemma ewm_go_nan alpha w n :
  ewm_go alpha NaN w (replicate n NaN) = replicate n NaN.
Proof. induction n as [|n IH]; simpl; [| rewrite IH]; reflexivity. Qed.

Lemma ewm_mean_nan alpha n :
  ewm_mean alpha (replicate n NaN) = replicate n NaN.
Proof. destruct n; simpl; [| rewrite ewm_go_nan]; reflexivity. Qed.

Lemma length_ewm_go alpha w o (s : Series) :
  length (ewm_go alpha w o s) = length s.
Proof.
  revert w o. induction s as [|x s IH]; intros w o; simpl; [reflexivity |].
  destruct (notna w), (notna x); simpl; rewrite IH; reflexivity.
Qed.

Lemma length_ewm_mean alpha (s : Series) :
  length (ewm_mean alpha s) = length s.
Proof. destruct s; simpl; [| rewrite length_ewm_go]; reflexivity. Qed.

Lemma zip_nan_l (f : fval → fval → fval) (b : Series) n :
  (∀ y, f NaN y = NaN) → length b = n →
  zip_with f (replicate n NaN) b = replicate n NaN.
Proof.
  intros Hf <-. induction b as [|y b IH]; simpl; [| rewrite Hf, IH]; reflexivity.
Qed.

Lemma zip_nan_r (f : fval → fval → fval) (a : Series) n :
  (∀ x, f x NaN = NaN) → length a = n →
  zip_with f a (replicate n NaN) = replicate n NaN.
Proof.
  intros Hf <-. induction a as [|x a IH]; simpl; [| rewrite Hf, IH]; reflexivity.
Qed.

Lemma fmap_nan (f : fval → fval) n :
  f NaN = NaN → f <$> replicate n NaN = replicate n NaN.
Proof. intros Hf. rewrite fmap_replicate, Hf. reflexivity. Qed.

(** ** Series shorter than the window *)

Section Short.

Variable sqrtQ : Q → Q.
Variable self : TechnicalAnalysis.
Variable rows : list Row.
Hypothesis Hdata : data self = Frame rows.

Let n := length rows.
Let missing : Series := replicate n NaN.

Lemma calculate_ma_short p : n < p → calculate_ma self p = Ok missing.
Proof.
  intros Hp. unfold calculate_ma. rewrite Hdata. simpl.
  unfold rolling_mean. rewrite rolling_short; rewrite length_fmap; [| exact Hp].
  reflexivity.
Qed.

Lemma length_gains (closes : Series) : length (gains closes) = length closes.
Proof. unfold gains, where_. rewrite length_fmap. apply length_diff. Qed.

Lemma length_losses (closes : Series) : length (losses closes) = length closes.
Proof.
  unfold losses, sneg, where_. rewrite !length_fmap. apply length_diff.
Qed.

Lemma calculate_rsi_short p : n < p → calculate_rsi self p = Ok missing.
Proof.
  intros Hp. unfold calculate_rsi. rewrite Hdata. simpl.
  unfold rolling_mean.
  rewrite !rolling_short
    by (rewrite ?length_gains, ?length_losses, length_fmap; exact Hp).
  rewrite length_gains, length_losses, length_fmap.
  unfold sdiv. rewrite zip_with_replicate, fmap_replicate. reflexivity.
Qed.

Lemma calculate_bollinger_bands_short p k :
  n < p →
  calculate_bollinger_bands sqrtQ self p k = Ok (missing, missing, missing).
Proof.
  intros Hp. unfold calculate_bollinger_bands. rewrite Hdata. simpl.
  unfold rolling_mean, rolling_std.
  rewrite !rolling_short by (rewrite length_fmap; exact Hp).
  rewrite length_fmap. unfold sscale, sadd, ssub.
  rewrite fmap_replicate, !zip_with_replicate. reflexivity.
Qed.

Lemma calculate_atr_short p : n < p → calculate_atr self p = Ok missing.
Proof.
  intros Hp. unfold calculate_atr. rewrite Hdata. simpl.
  unfold rolling_mean.
  rewrite rolling_short;
    rewrite length_true_range; rewrite ?length_fmap; try reflexivity.
  exact Hp.
Qed.

(** The directional indices are missing on the first [p] positions and
    ADX on the first [2p - 1]. *)
Lemma calculate_dmi_prefix p :
  1 ≤ p →
  ∃ plus_di minus_di adx : Series,
    calculate_dmi self p = Ok (plus_di, minus_di, adx)
    ∧ length plus_di = n ∧ length minus_di = n ∧ length adx = n
    ∧ nan_prefix p plus_di ∧ nan_prefix p minus_di
    ∧ nan_prefix (p + (p - 1)) adx.
Proof.
  intros Hp. unfold calculate_dmi. rewrite Hdata.
  unfold column. cbn [mbind res_bind].
  destruct (directional_movement (high <$> rows) (low <$> rows))
    as [plus_dm minus_dm] eqn:Hdm.
  destruct (length_directional_movement (high <$> rows) (low <$> rows))
    as [Lp Lm]; [rewrite !length_fmap; reflexivity |].
  destruct (nan_prefix_directional_movement (high <$> rows) (low <$> rows))
    as [Np Nm].
  rewrite Hdm in Lp, Lm, Np, Nm. simpl in Lp, Lm, Np, Nm.
  rewrite length_fmap in Lp, Lm.
  assert (Ltr : length (true_range (high <$> rows) (low <$> rows)
                          (close <$> rows)) = n)
    by (rewrite length_true_range; rewrite !length_fmap; reflexivity).
  set (atr := rolling_mean p (true_range _ _ _)).
  assert (Latr : length atr = n)
    by (unfold atr, rolling_mean; rewrite length_rolling; exact Ltr).
  set (plus_di := sdiv (sscale hundred (rolling_mean p plus_dm)) atr).
  set (minus_di := sdiv (sscale hundred (rolling_mean p minus_dm)) atr).
  assert (Lpd : length plus_di = n).
  { unfold plus_di, sdiv, sscale, rolling_mean.
    rewrite length_zip_with, length_fmap, length_rolling. fold n in Lp. lia. }
  assert (Lmd : length minus_di = n).
  { unfold minus_di, sdiv, sscale, rolling_mean.
    rewrite length_zip_with, length_fmap, length_rolling. fold n in Lm. lia. }
  assert (Npd : nan_prefix p plus_di).
  { unfold plus_di, sdiv, sscale. apply nan_prefix_zip_l; [apply fdiv_nan_l |].
    apply nan_prefix_fmap; [reflexivity |].
    replace p with (1 + (p - 1)) at 1 by lia.
    apply rolling_nan_prefix; assumption. }
  assert (Nmd : nan_prefix p minus_di).
  { unfold minus_di, sdiv, sscale. apply nan_prefix_zip_l; [apply fdiv_nan_l |].
    apply nan_prefix_fmap; [reflexivity |].
    replace p with (1 + (p - 1)) at 1 by lia.
    apply rolling_nan_prefix; assumption. }
  eexists _, _, _. split; [reflexivity |].
  split; [exact Lpd |]. split; [exact Lmd |]. split.
  { unfold rolling_mean. rewrite length_rolling.
    unfold sdiv, sscale, sabs, ssub, sadd.
    rewrite !length_zip_with, !length_fmap, !length_zip_with. lia. }
  split; [exact Npd |]. split; [exact Nmd |].
  apply rolling_nan_prefix; [exact Hp |].
  unfold sdiv, sscale, sabs, ssub.
  apply nan_prefix_zip_l; [apply fdiv_nan_l |].
  apply nan_prefix_fmap; [reflexivity |].
  apply nan_prefix_fmap; [reflexivity |].
  apply nan_prefix_zip_l; [apply fsub_nan_l | exact Npd].
Qed.

Lemma calculate_dmi_short p :
  n < p → calculate_dmi self p = Ok (missing, missing, missing).
Proof.
  intros Hp.
  destruct (calculate_dmi_prefix p ltac:(lia))
    as (plus_di & minus_di & adx & -> & L1 & L2 & L3 & N1 & N2 & N3).
  rewrite (all_nan_of_prefix plus_di), (all_nan_of_prefix minus_di),
    (all_nan_of_prefix adx), L1, L2, L3; [reflexivity | ..].
  - apply nan_prefix_mono with (k := p + (p - 1)); [lia | exact N3].
  - apply nan_prefix_mono with (k := p); [lia | exact N2].
  - apply nan_prefix_mono with (k := p); [lia | exact N1].
Qed.

Lemma calculate_kdj_short p m1 m2 :
  n < p → 1 ≤ m1 → 1 ≤ m2 →
  calculate_kdj self p m1 m2 = Ok (missing, missing, missing).
Proof.
  intros Hp H1 H2. unfold calculate_kdj. rewrite Hdata.
  unfold column. cbn [mbind res_bind].
  unfold rolling_min, rolling_max.
  rewrite !rolling_short by (rewrite length_fmap; exact Hp).
  rewrite !length_fmap. fold n. fold missing.
  assert (Hrsv : sscale hundred
                   (sdiv (ssub (close <$> rows) missing)
                         (ssub missing missing)) = missing).
  { unfold sscale, sdiv, ssub, missing.
    rewrite zip_with_replicate. simpl.
    rewrite (zip_nan_r fdiv); [apply fmap_nan; reflexivity | apply fdiv_nan_r |].
    rewrite length_zip_with, length_fmap, length_replicate. fold n. lia. }
  rewrite Hrsv. unfold ewm_com_pred.
  destruct (Nat.ltb_spec m1 1); [lia |].
  destruct (Nat.ltb_spec m2 1); [lia |]. cbn [mbind res_bind].
  unfold missing. rewrite !ewm_mean_nan.
  unfold sscale, ssub. rewrite !fmap_replicate, zip_with_replicate.
  reflexivity.
Qed.

Lemma calculate_ema_empty s :
  n = 0 → 1 ≤ s → calculate_ema self s = Ok [].
Proof.
  intros Hn Hs. unfold calculate_ema, ewm_span. rewrite Hdata. simpl.
  destruct (Nat.ltb_spec s 1); [lia |].
  destruct rows; [reflexivity | discriminate].
Qed.

Lemma calculate_macd_empty f s g :
  n = 0 → 1 ≤ f → 1 ≤ s → 1 ≤ g →
  calculate_macd self f s g = Ok ([], [], []).
Proof.
  intros Hn Hf Hs Hg. unfold calculate_macd, ewm_span. rewrite Hdata.
  unfold column. cbn [mbind res_bind].
  rewrite (proj2 (Nat.ltb_ge f 1)), (proj2 (Nat.ltb_ge s 1)),
    (proj2 (Nat.ltb_ge g 1)) by lia.
  destruct rows; [reflexivity | discriminate].
Qed.

End Short.

(** ** Finite columns: where a rolling aggregate is defined *)

Lemma filter_all {A} (f : A → bool) (l : list A) :
  Forall (λ x, f x = true) l → List.filter f l = l.
Proof.
  induction 1 as [|x l Hx _ IH]; simpl; [reflexivity |].
  rewrite Hx, IH. reflexivity.
Qed.

Lemma isfinite_notna v : isfinite v = true → notna v = true.
Proof. destruct v; simpl; intros H; [discriminate H | reflexivity ..]. Qed.

Lemma finite_window w i (s : Series) :
  finite_series s → finite_series (window w i s).
Proof. intros H. unfold window. apply Forall_drop, Forall_take, H. Qed.

Lemma observations_finite w i (s : Series) :
  finite_series s → observations w i s = window w i s.
Proof.
  intros H. unfold observations. apply filter_all.
  eapply Forall_impl; [apply finite_window, H |].
  intros v. apply isfinite_notna.
Qed.

Lemma fsum_finite (s : Series) :
  finite_series s → ∃ q, fsum s = Fin q.
Proof.
  induction 1 as [|x l Hx _ [q IH]]; [eexists; reflexivity |].
  change (fsum (x :: l)) with (x + fsum l)%F.
  rewrite IH. destruct x; try discriminate.
  eexists; reflexivity.
Qed.

Lemma of_nat_nonzero k : 1 ≤ k → Qeq_bool (inject_Z (Z.of_nat k)) 0 = false.
Proof.
  intros Hk. destruct (Qeq_bool _ _) eqn:E; [| reflexivity].
  apply Qeq_bool_iff in E. unfold Qeq in E. simpl in E. lia.
Qed.

Lemma mean_finite (s : Series) :
  finite_series s → 1 ≤ length s → ∃ q, mean s = Fin q.
Proof.
  intros Hf Hl. unfold mean. destruct (fsum_finite s Hf) as [q ->].
  unfold of_nat. simpl. rewrite of_nat_nonzero by exact Hl.
  eexists; reflexivity.
Qed.

Lemma rolling_mean_defined w (s : Series) i :
  finite_series s → 1 ≤ w → w - 1 ≤ i → i < length s →
  ∃ q, rolling_mean w s !! i = Some (Fin q).
Proof.
  intros Hf Hw Hi Hl. unfold rolling_mean.
  rewrite lookup_rolling by exact Hl. cbv zeta.
  rewrite observations_finite by exact Hf.
  rewrite length_window by exact Hl.
  replace (Nat.min w (i + 1)) with w by lia.
  rewrite Nat.leb_refl, (proj2 (Nat.leb_le 1 w)) by lia. cbn [andb].
  destruct (mean_finite (window w i s)) as [q ->];
    [apply finite_window, Hf | rewrite length_window; lia |].
  eexists; reflexivity.
Qed.


Section Std.

Variable sqrtQ : Q → Q.




End Std.

(** ** MA and Bollinger Bands *)

Lemma closes_finite_series rows :
  closes_finite rows → finite_series (close <$> rows).
Proof. intros H. apply Forall_fmap. exact H. Qed.

Lemma rolling_mean_defined_from w (s : Series) :
  finite_series s → 1 ≤ w → defined_from (w - 1) (rolling_mean w s).
Proof.
  intros Hf Hw. split.
  - change (w - 1) with (0 + (w - 1)). apply rolling_nan_prefix; [exact Hw |].
    intros i Hi. lia.
  - intros i Hi Hl. unfold rolling_mean in Hl. rewrite length_rolling in Hl.
    apply rolling_mean_defined; assumption.
Qed.




Section Bands.

Variable sqrtQ : Q → Q.
Variable self : TechnicalAnalysis.
Variable rows : list Row.
Hypothesis Hdata : data self = Frame rows.




End Bands.

(** ** RSI *)

Lemma gains_nonneg (closes : Series) : Forall nonneg (gains closes).
Proof.
  unfold gains, where_. apply Forall_fmap, Forall_forall. intros d _. simpl.
  unfold fgt. destruct d as [| | |q]; simpl; try lra; try exact I.
  destruct (Qltb 0 q) eqn:E; simpl; [apply Qltb_lt in E |]; lra.
Qed.

Lemma losses_nonneg (closes : Series) : Forall nonneg (losses closes).
Proof.
  unfold losses, sneg, where_. rewrite <- list_fmap_compose.
  apply Forall_fmap, Forall_forall. intros d _. simpl.
  destruct d as [| | |q]; simpl; try lra; try exact I.
  destruct (Qltb q 0) eqn:E; simpl; [apply Qltb_lt in E |]; lra.
Qed.

Lemma fadd_nonneg x y : nonneg x → nonneg y → nonneg (x + y)%F.
Proof. destruct x, y; simpl; try tauto. lra. Qed.

Lemma fsum_nonneg (s : Series) : Forall nonneg s → nonneg (fsum s).
Proof.
  induction 1 as [|x l Hx _ IH]; [simpl; lra |].
  change (fsum (x :: l)) with (x + fsum l)%F. apply fadd_nonneg; assumption.
Qed.

Lemma Qdiv_nonneg (a b : Q) : (0 <= a → 0 < b → 0 <= a / b)%Q.
Proof. intros Ha Hb. apply Qle_shift_div_l; [exact Hb | lra]. Qed.

Lemma mean_nonneg (s : Series) :
  Forall nonneg s → 1 ≤ length s → nonneg (mean s).
Proof.
  intros Hs Hl. unfold mean. pose proof (fsum_nonneg s Hs) as Hn.
  assert (Hpos : (0 < inject_Z (Z.of_nat (length s)))%Q)
    by (unfold Qlt; simpl; lia).
  unfold of_nat. destruct (fsum s) as [| | |a]; simpl in *; try tauto.
  - destruct (Qle_bool 0 _) eqn:E; [exact I |].
    assert (Hle : (0 <= inject_Z (Z.of_nat (length s)))%Q) by lra.
    apply Qle_bool_iff in Hle. congruence.
  - rewrite of_nat_nonzero by exact Hl. simpl. apply Qdiv_nonneg; assumption.
Qed.

Lemma Forall_filter_bool {A} (P : A → Prop) (f : A → bool) (l : list A) :
  Forall P l → Forall P (List.filter f l).
Proof.
  induction 1 as [|x l Hx _ IH]; simpl; [constructor |].
  destruct (f x); [constructor |]; assumption.
Qed.

Lemma rolling_mean_nonneg w (s : Series) i v :
  Forall nonneg s → rolling_mean w s !! i = Some v → v = NaN ∨ nonneg v.
Proof.
  intros Hs Hv.
  assert (Hi : i < length s).
  { apply lookup_lt_Some in Hv. unfold rolling_mean in Hv.
    rewrite length_rolling in Hv. exact Hv. }
  unfold rolling_mean in Hv. rewrite lookup_rolling in Hv by exact Hi.
  cbv zeta in Hv.
  destruct ((w <=? length (observations w i s))
            && (1 <=? length (observations w i s))) eqn:E;
    [| left; congruence].
  apply andb_true_iff in E as [_ H1]. apply Nat.leb_le in H1.
  right. replace v with (mean (observations w i s)) by congruence.
  apply mean_nonneg; [| exact H1].
  unfold observations, window.
  apply Forall_filter_bool, Forall_drop, Forall_take, Hs.
Qed.

Lemma Qinv_bounds (r : Q) :
  (0 <= r → 0 <= 100 + - (100 / (1 + r)) ∧ 100 + - (100 / (1 + r)) <= 100)%Q.
Proof.
  intros Hr.
  assert (Hpos : (0 < 1 + r)%Q) by lra.
  assert (H1 : (0 <= 100 / (1 + r))%Q) by (apply Qdiv_nonneg; lra).
  assert (H2 : (100 / (1 + r) <= 100)%Q)
    by (apply Qle_shift_div_r; [exact Hpos | nra]).
  lra.
Qed.

(** The RSI formula on averages that are missing or non-negative. *)
Lemma rsi_of_rs_cases (g l : fval) :
  g = NaN ∨ nonneg g → l = NaN ∨ nonneg l →
  rsi_of_rs (g / l)%F = NaN
  ∨ ∃ q, rsi_of_rs (g / l)%F = Fin q ∧ (0 <= q)%Q ∧ (q <= 100)%Q.
Proof.
  intros [-> | Hg]; [left; reflexivity |].
  intros [-> | Hl]; [left; rewrite fdiv_nan_r; reflexivity |].
  destruct g as [| | |a], l as [| | |b]; simpl in Hg, Hl;
    try contradiction.
  - left; reflexivity.
  - right. simpl. apply Qle_bool_iff in Hl. rewrite Hl. simpl.
    eexists. split; [reflexivity |]. lra.
  - right. simpl. eexists. split; [reflexivity |].
    pose proof (Qinv_bounds 0 ltac:(lra)). tauto.
  - simpl. destruct (Qeq_bool b 0) eqn:Eb.
    + destruct (Qeq_bool a 0) eqn:Ea; [left; reflexivity |].
      assert (Ha : ~ (a == 0)%Q)
        by (intros H; apply Qeq_bool_iff in H; congruence).
      assert (Hlt : Qltb 0 a = true) by (apply Qltb_lt; lra).
      rewrite Hlt. right. simpl. eexists. split; [reflexivity |]. lra.
    + assert (Hb : ~ (b == 0)%Q)
        by (intros H; apply Qeq_bool_iff in H; congruence).
      assert (Hr : (0 <= a / b)%Q) by (apply Qdiv_nonneg; lra).
      right. simpl.
      assert (Hne : Qeq_bool (1 + a / b) 0 = false).
      { apply not_true_is_false. intros E. apply Qeq_bool_iff in E. lra. }
      unfold rsi_of_rs, hundred. cbn [fsub fdiv fadd fneg].
      rewrite Hne. cbn [fsub fdiv fadd fneg]. eexists. split; [reflexivity |].
      apply Qinv_bounds. exact Hr.
Qed.

Lemma rsi_lookup (closes : Series) p i v :
  (rsi_of_rs <$> sdiv (rolling_mean p (gains closes))
                      (rolling_mean p (losses closes))) !! i = Some v →
  ∃ g l, rolling_mean p (gains closes) !! i = Some g
         ∧ rolling_mean p (losses closes) !! i = Some l
         ∧ v = rsi_of_rs (g / l)%F.
Proof.
  rewrite list_lookup_fmap. unfold sdiv. rewrite lookup_zip_with.
  destruct (rolling_mean p (gains closes) !! i) as [g|]; [| discriminate].
  destruct (rolling_mean p (losses closes) !! i) as [l|]; [| discriminate].
  simpl. intros [= <-]. eauto.
Qed.

(** C9.  Every defined value of the RSI column is a number between 0
    and 100, whatever the series and the period. *)
Theorem rsi_bounded (self : TechnicalAnalysis) (p : nat) (rsi : Series)
    (i : nat) (v : fval) :
  calculate_rsi self p = Ok rsi → rsi !! i = Some v → v ≠ NaN →
  ∃ q, v = Fin q ∧ (0 <= q)%Q ∧ (q <= 100)%Q.
Proof.
  unfold calculate_rsi. destruct (data self) as [|rows]; [discriminate |].
  unfold column. cbn [mbind res_bind]. intros [= <-] Hv Hnan.
  apply rsi_lookup in Hv as (g & l & Hg & Hl & ->).
  apply rolling_mean_nonneg in Hg; [| apply gains_nonneg].
  apply rolling_mean_nonneg in Hl; [| apply losses_nonneg].
  destruct (rsi_of_rs_cases g l Hg Hl) as [E | (q & E & H0 & H100)];
    [contradiction |].
  exists q. auto.
Qed.

Lemma rsi_bounded_witness :
  ∃ (rsi : Series) (v : fval),
    calculate_rsi zigzag4 2 = Ok rsi ∧ rsi !! 3 = Some v ∧ v ≠ NaN
    ∧ ∃ q, v = Fin q ∧ (0 <= q)%Q ∧ (q <= 100)%Q.
Proof.
  exists [NaN; Fin 100; Fin (200 # 4); Fin (400 # 6)], (Fin (400 # 6)).
  assert (H1 : calculate_rsi zigzag4 2
               = Ok [NaN; Fin 100; Fin (200 # 4); Fin (400 # 6)])
    by (vm_compute; reflexivity).
  assert (H2 : Fin (400 # 6) ≠ NaN) by discriminate.
  split; [exact H1 |]. split; [reflexivity |]. split; [exact H2 |].
  exact (rsi_bounded zigzag4 2 _ 3 _ H1 eq_refl H2).
Defined.








Lemma calculate_rsi_prefix (self : TechnicalAnalysis) (rows : list Row)
    (p : nat) :
  data self = Frame rows →
  ∃ rsi : Series,
    calculate_rsi self p = Ok rsi ∧ length rsi = length rows
    ∧ nan_prefix (p - 1) rsi.
Proof.
  intros Hd. unfold calculate_rsi. rewrite Hd.
  unfold column. cbn [mbind res_bind].
  eexists. split; [reflexivity |]. split.
  - unfold sdiv, rolling_mean.
    rewrite length_fmap, length_zip_with, !length_rolling, length_gains,
      length_losses, length_fmap. lia.
  - apply nan_prefix_fmap; [reflexivity |].
    apply nan_prefix_zip_l; [apply fdiv_nan_l |].
    destruct p as [|p]; [intros i Hi; lia |].
    change (S p - 1) with (0 + (S p - 1)).
    apply rolling_nan_prefix; [lia | intros i Hi; lia].
Qed.



(** ** Series Normalizer *)

#[local] Instance ts_le_key_total {A} (key : A → Timestamp) :
  Total (λ x y, ts_le (key x) (key y)).
Proof.
  intros x y. destruct (key x) as [|a], (key y) as [|b]; simpl; try tauto. lia.
Qed.

#[local] Instance ts_le_key_trans {A} (key : A → Timestamp) :
  Transitive (λ x y, ts_le (key x) (key y)).
Proof.
  intros x y z. destruct (key x) as [|a], (key y) as [|b], (key z) as [|c];
    simpl; try tauto. lia.
Qed.

Lemma ts_le_neq_lt a b : ts_le a b → a ≠ b → ts_lt a b.
Proof.
  destruct a as [|x], b as [|y]; simpl; try tauto.
  intros Hle Hne. assert (x ≠ y) by congruence. lia.
Qed.

Lemma StronglySorted_lookup {A} (R : relation A) (l : list A) i j x y :
  StronglySorted R l → i < j → l !! i = Some x → l !! j = Some y → R x y.
Proof.
  intros Hs. revert i j. induction Hs as [|a l Hs IH Hall]; intros i j Hij Hx Hy.
  - discriminate.
  - destruct j as [|j]; [lia |]. simpl in Hy. destruct i as [|i].
    + simpl in Hx. injection Hx as ->.
      rewrite Forall_lookup in Hall. exact (Hall j y Hy).
    + simpl in Hx. apply (IH i j); [lia | assumption ..].
Qed.

Lemma sequence_ok {A} (l : list (res A)) (xs : list A) :
  sequence l = Ok xs → l = Ok <$> xs.
Proof.
  revert xs. induction l as [|m l IH]; intros xs; simpl.
  - intros [= <-]. reflexivity.
  - destruct m as [x|e]; simpl; [| discriminate].
    destruct (sequence l) as [ys|e]; simpl; [| discriminate].
    intros [= <-]. rewrite (IH ys eq_refl). reflexivity.
Qed.

Lemma sequence_total {A} (l : list (res A)) :
  Forall (λ m, ∃ x, m = Ok x) l → ∃ xs, sequence l = Ok xs.
Proof.
  induction 1 as [|m l [x ->] _ [xs IH]]; simpl; [eexists; reflexivity |].
  rewrite IH. simpl. eexists; reflexivity.
Qed.

Lemma fst_reset_index {A} (l : list (nat * A)) :
  (reset_index l).*1 = seq 0 (length l).
Proof.
  unfold reset_index. rewrite fmap_imap.
  rewrite (imap_ext _ (λ i _, i)) by reflexivity.
  rewrite (imap_seq_0 l (λ i, i)). apply list_fmap_id.
Qed.

Lemma snd_reset_index {A} (l : list (nat * A)) :
  (reset_index l).*2 = l.*2.
Proof.
  unfold reset_index. rewrite fmap_imap.
  rewrite (imap_ext _ (λ _ r, r.2)) by reflexivity.
  apply imap_const.
Qed.

#[local] Instance to_datetime_inj : Inj (=) (=) to_datetime.
Proof. intros [a| |] [b| |]; simpl; congruence. Qed.

#[local] Instance Ok_inj {A} : Inj (=) (=) (@Ok A).
Proof. intros x y. congruence. Qed.

(** What [_process_dataframe] makes of a non-empty list of records whose
    timestamps parse to [dts]. *)
Lemma process_rows (records : list RawRecord) (dts : list Timestamp)
    (df : DataFrame) :
  sequence (to_datetime ∘ raw_datetime <$> records) = Ok dts →
  df = Frame (row_of <$> reset_index
                (sort_values (λ r, r.2.1)
                   (zip (seq 0 (length records)) (zip dts records)))) →
  length (rows_of df) = length records
  ∧ label <$> rows_of df = seq 0 (length records)
  ∧ datetime <$> rows_of df ≡ₚ dts
  ∧ candle_of_row <$> rows_of df ≡ₚ candle_of_raw <$> zip dts records
  ∧ ascending (rows_of df).
Proof.
  intros Hseq ->. simpl.
  apply sequence_ok in Hseq.
  assert (Ldts : length dts = length records).
  { apply (f_equal length) in Hseq. rewrite !length_fmap in Hseq. lia. }
  set (frame := zip (seq 0 (length records)) (zip dts records)).
  assert (Lframe : length frame = length records).
  { unfold frame. rewrite !length_zip, length_seq. lia. }
  pose proof (merge_sort_Permutation
                (λ x y : nat * (Timestamp * RawRecord), ts_le x.2.1 y.2.1)
                frame) as Hperm.
  fold (sort_values (λ r : nat * (Timestamp * RawRecord), r.2.1) frame)
    in Hperm.
  set (sorted := sort_values _ frame) in *.
  assert (Lsorted : length sorted = length records)
    by (rewrite (Permutation_length Hperm); exact Lframe).
  assert (Hsnd : frame.*2 = zip dts records).
  { unfold frame. apply snd_zip. rewrite length_zip, length_seq. lia. }
  assert (Hcandle : candle_of_row <$> (row_of <$> reset_index sorted)
                    = candle_of_raw <$> sorted.*2).
  { rewrite <- snd_reset_index, <- !list_fmap_compose. reflexivity. }
  assert (Htime : datetime <$> (row_of <$> reset_index sorted)
                  = fst <$> sorted.*2).
  { rewrite <- snd_reset_index, <- !list_fmap_compose. reflexivity. }
  split; [rewrite length_fmap; unfold reset_index; rewrite length_imap;
          exact Lsorted |].
  split.
  { rewrite <- list_fmap_compose.
    change (label ∘ row_of) with (@fst nat (Timestamp * RawRecord)).
    rewrite fst_reset_index, Lsorted. reflexivity. }
  split.
  { rewrite Htime, Hperm, Hsnd. rewrite fst_zip by lia. reflexivity. }
  split.
  { rewrite Hcandle, Hperm, Hsnd. reflexivity. }
  intros i j r r' Hij Hr Hr'.
  assert (Hs : StronglySorted ts_le (datetime <$> (row_of <$> reset_index sorted))).
  { rewrite Htime, <- list_fmap_compose.
    apply StronglySorted_fmap
      with (R1 := λ x y : nat * (Timestamp * RawRecord), ts_le x.2.1 y.2.1);
      [auto |].
    apply StronglySorted_merge_sort; apply _. }
  apply (StronglySorted_lookup ts_le _ i j _ _ Hs Hij);
    rewrite list_lookup_fmap; [rewrite Hr | rewrite Hr']; reflexivity.
Qed.

(** The normalizer accepts every collection whose timestamps parse,
    duplicates included. *)
Lemma process_accepts (records : list RawRecord) :
  Forall (λ r, raw_datetime r ≠ TimeBad) records →
  ∃ dts, sequence (to_datetime ∘ raw_datetime <$> records) = Ok dts.
Proof.
  intros H. apply sequence_total. apply Forall_fmap.
  eapply Forall_impl; [exact H |]. intros r Hr. simpl.
  destruct (raw_datetime r) eqn:E; [eexists; reflexivity .. | congruence].
Qed.

Lemma ascending_nodup_strict (rows : list Row) :
  ascending rows → NoDup (datetime <$> rows) → strictly_ascending rows.
Proof.
  intros Hasc Hnd i j r r' Hij Hr Hr'.
  apply ts_le_neq_lt; [exact (Hasc i j r r' Hij Hr Hr') |].
  intros Heq.
  assert (i = j); [| lia].
  apply (NoDup_lookup _ i j (datetime r) Hnd);
    rewrite list_lookup_fmap; [rewrite Hr | rewrite Hr', Heq]; reflexivity.
Qed.

(** C3, as the code has it.  Every collection whose timestamps parse is
    accepted, with or without duplicates; the resulting series has the
    same candles, labelled 0..n-1, in ascending (non-decreasing) order
    of timestamp, and in strictly ascending order when the timestamps
    of the collection are pairwise distinct. *)
Theorem normalizer_sorts (records : list RawRecord) :
  Forall (λ r, raw_datetime r ≠ TimeBad) records →
  ∃ (df : DataFrame) (dts : list Timestamp),
    _process_dataframe records = Ok df
    ∧ sequence (to_datetime ∘ raw_datetime <$> records) = Ok dts
    ∧ length (rows_of df) = length records
    ∧ label <$> rows_of df = seq 0 (length records)
    ∧ candle_of_row <$> rows_of df ≡ₚ candle_of_raw <$> zip dts records
    ∧ ascending (rows_of df)
    ∧ (NoDup (raw_datetime <$> records) → strictly_ascending (rows_of df)).
Proof.
  intros Hparse. destruct (process_accepts records Hparse) as [dts Hseq].
  destruct records as [|r0 records].
  - exists NoColumns, []. simpl.
    repeat split; try reflexivity; try (intros i j r r' _ Hr; discriminate Hr).
    intros _ i j r r' _ Hr; discriminate Hr.
  - set (recs := r0 :: records) in *.
    destruct (process_rows recs dts _ Hseq eq_refl)
      as (Hlen & Hlab & Htime & Hcandle & Hasc).
    eexists _, dts. split.
    { unfold _process_dataframe. fold recs. rewrite Hseq. reflexivity. }
    split; [exact Hseq |]. split; [exact Hlen |]. split; [exact Hlab |].
    split; [exact Hcandle |]. split; [exact Hasc |].
    intros Hnd. apply ascending_nodup_strict; [exact Hasc |].
    rewrite Htime. apply sequence_ok in Hseq.
    apply (NoDup_fmap_1 Ok). rewrite <- Hseq, list_fmap_compose.
    apply NoDup_fmap_2; [apply _ | exact Hnd].
Qed.

Lemma normalizer_sorts_witness :
  Forall (λ r, raw_datetime r ≠ TimeBad) distinct_records
  ∧ ∃ df : DataFrame,
      _process_dataframe distinct_records = Ok df
      ∧ label <$> rows_of df = [0; 1; 2]
      ∧ strictly_ascending (rows_of df).
Proof.
  assert (Hparse : Forall (λ r, raw_datetime r ≠ TimeBad) distinct_records)
    by (repeat constructor; discriminate).
  split; [exact Hparse |].
  destruct (normalizer_sorts distinct_records Hparse)
    as (df & dts & Hrun & _ & _ & Hlab & _ & _ & Hstrict).
  exists df. split; [exact Hrun |]. split; [exact Hlab |].
  apply Hstrict.
  repeat (apply NoDup_cons; split;
          [rewrite ?elem_of_cons, elem_of_nil; intros H;
           repeat (destruct H as [H | H]; try discriminate H); exact H |]).
  apply NoDup_nil. exact I.
Defined.

(** ** Snapshot *)

Lemma last_if_nonempty (s : Series) : last_if (nonempty s) (Ok s) = Ok (last s).
Proof.
  destruct s as [|x s]; [reflexivity |]. unfold last_if, iloc_last. simpl.
  destruct (last (x :: s)) as [v|] eqn:E; [reflexivity |].
  apply last_None in E. discriminate.
Qed.

Lemma last_if_guard (b : bool) (s : Series) :
  s ≠ [] → last_if b (Ok s) = Ok (if b then last s else None).
Proof.
  intros Hs. destruct b; [| reflexivity]. unfold last_if, iloc_last. simpl.
  destruct (last s) as [v|] eqn:E; [reflexivity |].
  apply last_None in E. contradiction.
Qed.

Lemma nonempty_length {A} (s : list A) : 1 ≤ length s → s ≠ [].
Proof. destruct s; simpl; [lia | discriminate]. Qed.

Lemma last_nan_prefix k (s : Series) :
  1 ≤ length s → length s ≤ k → nan_prefix k s → last s = Some NaN.
Proof.
  intros H1 Hk Hn. rewrite last_lookup. apply Hn; lia.
Qed.

Lemma calculate_macd_frame (self : TechnicalAnalysis) (rows : list Row)
    (fast slow signal : nat) :
  data self = Frame rows → 1 ≤ fast → 1 ≤ slow → 1 ≤ signal →
  ∃ dif dea hist : Series,
    calculate_macd self fast slow signal = Ok (dif, dea, hist)
    ∧ length dif = length rows.
Proof.
  intros Hd Hf Hs Hg. unfold calculate_macd, ewm_span. rewrite Hd.
  unfold column. cbn [mbind res_bind].
  rewrite (proj2 (Nat.ltb_ge fast 1)), (proj2 (Nat.ltb_ge slow 1)),
    (proj2 (Nat.ltb_ge signal 1)) by lia.
  cbn [mbind res_bind].
  eexists _, _, _. split; [reflexivity |].
  unfold ssub. rewrite length_zip_with, !length_ewm_mean, length_fmap. lia.
Qed.

Section Snapshot.

Variable ta : TechnicalAnalysis.
Variable name : string.
Variable rows : list Row.
Hypothesis Hdata : data ta = Frame rows.
Hypothesis Hrows : rows ≠ [].

Lemma analyze_single_run :
  ∃ (ma5 ma20 plus_di minus_di adx rsi dif dea hist : Series)
    (report : Report),
    calculate_ma ta 5 = Ok ma5
    ∧ calculate_ma ta 20 = Ok ma20
    ∧ calculate_dmi ta 14 = Ok (plus_di, minus_di, adx)
    ∧ calculate_rsi ta 14 = Ok rsi
    ∧ calculate_macd ta 12 26 9 = Ok (dif, dea, hist)
    ∧ _analyze_single_asset ta name = Ok (Some report)
    ∧ asset report = name
    ∧ total_candles (data_summary report) = length rows
    ∧ MA5 (indicators report) = (if 5 <=? length rows then last ma5 else None)
    ∧ MA20 (indicators report)
      = (if 20 <=? length rows then last ma20 else None)
    ∧ ADX (indicators report) = last adx
    ∧ RSI (indicators report) = last rsi
    ∧ MACD_DIF (indicators report) = last dif
    ∧ length adx = length rows ∧ nan_prefix 27 adx
    ∧ length rsi = length rows ∧ nan_prefix 13 rsi.
Proof.
  assert (Hn : 1 ≤ length rows) by (destruct rows; simpl; [congruence | lia]).
  assert (∃ r0 rest, rows = r0 :: rest) as (r0 & rest & Erows)
    by (destruct rows; [congruence | eauto]).
  destruct (calculate_dmi_prefix ta rows Hdata 14 ltac:(lia))
    as (plus_di & minus_di & adx & Hdmi & _ & _ & Ladx & _ & _ & Nadx).
  destruct (calculate_rsi_prefix ta rows 14 Hdata)
    as (rsi & Hrsi & Lrsi & Nrsi).
  destruct (calculate_macd_frame ta rows 12 26 9 Hdata)
    as (dif & dea & hist & Hmacd & Ldif); [lia .. |].
  assert (Hma : ∀ p, calculate_ma ta p = Ok (rolling_mean p (close <$> rows)))
    by (intros p; unfold calculate_ma; rewrite Hdata; reflexivity).
  assert (Lma : ∀ p, rolling_mean p (close <$> rows) ≠ []).
  { intros p. apply nonempty_length. unfold rolling_mean.
    rewrite length_rolling, length_fmap. exact Hn. }
  destruct (last (close <$> rows)) as [current|] eqn:Hcur;
    [| apply last_None in Hcur; destruct rows; [congruence | discriminate]].
  destruct (last (datetime <$> rows)) as [stop|] eqn:Hstop;
    [| apply last_None in Hstop; destruct rows; [congruence | discriminate]].
  exists (rolling_mean 5 (close <$> rows)), (rolling_mean 20 (close <$> rows)),
    plus_di, minus_di, adx, rsi, dif, dea, hist.
  eexists. split; [apply Hma |]. split; [apply Hma |].
  split; [exact Hdmi |]. split; [exact Hrsi |]. split; [exact Hmacd |].
  split.
  { unfold _analyze_single_asset, empty, len. rewrite Hdata.
    cbn [rows_of].
    rewrite Erows at 1. rewrite !Hma, !last_if_guard by apply Lma.
    cbn [mbind res_bind]. rewrite Hdmi. cbn [mbind res_bind].
    rewrite last_if_nonempty. cbn [mbind res_bind].
    rewrite Hrsi. cbn [mbind res_bind].
    rewrite last_if_nonempty. cbn [mbind res_bind].
    rewrite Hmacd. cbn [mbind res_bind].
    rewrite last_if_nonempty. cbn [mbind res_bind].
    unfold column, iloc_last. cbn [mbind res_bind].
    rewrite Hcur, Hstop. cbn [mbind res_bind].
    rewrite Erows at 1. cbn [fmap list_fmap iloc lookup list_lookup].
    cbn [mbind res_bind].
    rewrite (proj2 (Nat.ltb_lt 0 (length rows))) by lia.
    unfold last_if_time. cbn [mbind res_bind].
    rewrite Erows at 1. cbn [fmap list_fmap iloc lookup list_lookup].
    cbn [mbind res_bind]. reflexivity. }
  cbn [asset data_summary total_candles indicators MA5 MA20 ADX RSI MACD_DIF].
  repeat (split; [reflexivity |]).
  split; [exact Ladx |]. split; [exact Nadx |]. split; [exact Lrsi |].
  exact Nrsi.
Qed.

End Snapshot.

(** C6, as the code has it.  On a non-empty series the snapshot is
    produced, and each indicator entry is the value at the last
    position of its column ([.iloc[-1]]), missing or not: MA5 and MA20
    are [None] below 5 and 20 candles and the last value of their
    column otherwise; ADX, RSI and MACD_DIF are the last value of
    their column.  Below an indicator's lookback the entry is a
    missing marker: [None] for MA5 (5) and MA20 (20), NaN for ADX
    (28) and RSI (14). *)
Theorem snapshot_last_position (ta : TechnicalAnalysis) (name : string)
    (rows : list Row) :
  data ta = Frame rows → rows ≠ [] →
  ∃ (ma5 ma20 plus_di minus_di adx rsi dif dea hist : Series)
    (report : Report),
    calculate_ma ta 5 = Ok ma5
    ∧ calculate_ma ta 20 = Ok ma20
    ∧ calculate_dmi ta 14 = Ok (plus_di, minus_di, adx)
    ∧ calculate_rsi ta 14 = Ok rsi
    ∧ calculate_macd ta 12 26 9 = Ok (dif, dea, hist)
    ∧ _analyze_single_asset ta name = Ok (Some report)
    ∧ MA5 (indicators report) = (if 5 <=? length rows then last ma5 else None)
    ∧ MA20 (indicators report)
      = (if 20 <=? length rows then last ma20 else None)
    ∧ ADX (indicators report) = last adx
    ∧ RSI (indicators report) = last rsi
    ∧ MACD_DIF (indicators report) = last dif
    ∧ (length rows < 5 → MA5 (indicators report) = None)
    ∧ (length rows < 20 → MA20 (indicators report) = None)
    ∧ (length rows < 28 → ADX (indicators report) = Some NaN)
    ∧ (length rows < 14 → RSI (indicators report) = Some NaN).
Proof.
  intros Hd Hne.
  assert (Hn : 1 ≤ length rows) by (destruct rows; simpl; [congruence | lia]).
  destruct (analyze_single_run ta name rows Hd Hne)
    as (ma5 & ma20 & plus_di & minus_di & adx & rsi & dif & dea & hist
        & report & H5 & H20 & Hdmi & Hrsi & Hmacd & Hrun & _ & _
        & E5 & E20 & Eadx & Ersi & Edif & Ladx & Nadx & Lrsi & Nrsi).
  exists ma5, ma20, plus_di, minus_di, adx, rsi, dif, dea, hist, report.
  repeat (split; [assumption |]).
  split; [| split; [| split]].
  - intros Hlt. rewrite E5, (proj2 (Nat.leb_gt 5 (length rows))) by lia.
    reflexivity.
  - intros Hlt. rewrite E20, (proj2 (Nat.leb_gt 20 (length rows))) by lia.
    reflexivity.
  - intros Hlt. rewrite Eadx. apply last_nan_prefix with (k := 27);
      [lia | lia | exact Nadx].
  - intros Hlt. rewrite Ersi. apply last_nan_prefix with (k := 13);
      [lia | lia | exact Nrsi].
Qed.

Lemma snapshot_last_position_witness :
  data rising3 = Frame (imap bar_at [1; 2; 3]%Z)
  ∧ imap bar_at [1; 2; 3]%Z ≠ []
  ∧ ∃ report : Report,
      _analyze_single_asset rising3 "BTC-USDT" = Ok (Some report)
      ∧ MA5 (indicators report) = None
      ∧ ADX (indicators report) = Some NaN
      ∧ RSI (indicators report) = Some NaN.
Proof.
  split; [reflexivity |]. split; [discriminate |].
  destruct (snapshot_last_position rising3 "BTC-USDT"
              (imap bar_at [1; 2; 3]%Z) eq_refl ltac:(discriminate))
    as (ma5 & ma20 & pdi & mdi & adx & rsi & dif & dea & hist & report
        & _ & _ & _ & _ & _ & Hrun & _ & _ & _ & _ & _
        & H5 & _ & Hadx & Hrsi).
  exists report. split; [exact Hrun |].
  split; [apply H5; simpl; lia |].
  split; [apply Hadx; simpl; lia | apply Hrsi; simpl; lia].
Defined.

(** C10.  On an instance whose data are empty the aggregator returns the
    empty table and the single-asset analysis returns no report;
    neither raises. *)
Theorem empty_series_degrades (sqrtQ : Q → Q) (self : TechnicalAnalysis)
    (name : string) :
  empty (data self) = true →
  get_all_indicators sqrtQ self = Ok empty_table
  ∧ _analyze_single_asset self name = Ok None.
Proof.
  intros He. unfold get_all_indicators, _analyze_single_asset.
  rewrite He. split; reflexivity.
Qed.

Lemma empty_series_degrades_witness :
  empty (data no_data) = true
  ∧ get_all_indicators Qsqrt_floor no_data = Ok empty_table
  ∧ _analyze_single_asset no_data "BTC-USDT" = Ok None
  ∧ empty (data no_rows) = true
  ∧ get_all_indicators Qsqrt_floor no_rows = Ok empty_table
  ∧ _analyze_single_asset no_rows "BTC-USDT" = Ok None.
Proof.
  split; [reflexivity |].
  split; [apply (empty_series_degrades Qsqrt_floor no_data "BTC-USDT" eq_refl) |].
  split; [apply (empty_series_degrades Qsqrt_floor no_data "BTC-USDT" eq_refl) |].
  split; [reflexivity |].
  split; apply (empty_series_degrades Qsqrt_floor no_rows "BTC-USDT" eq_refl).
Defined.

(** ** Batch orchestrator *)

Lemma first_occurrences_ext (s1 s2 l : list string) :
  (∀ x, x ∈ s1 ↔ x ∈ s2) →
  first_occurrences s1 l = first_occurrences s2 l.
Proof.
  revert s1 s2. induction l as [|x l IH]; intros s1 s2 H; simpl;
    [reflexivity |].
  rewrite (bool_decide_ext _ _ (H x)). destruct (bool_decide (x ∈ s2)).
  - apply IH, H.
  - f_equal. apply IH. intros y. rewrite !elem_of_cons, H. reflexivity.
Qed.

Lemma eqb_decide (a b : string) : String.eqb a b = bool_decide (a = b).
Proof.
  destruct (String.eqb_spec a b) as [->|Hne].
  - rewrite bool_decide_eq_true_2; reflexivity.
  - rewrite bool_decide_eq_false_2; [reflexivity | exact Hne].
Qed.

Lemma keys_dict_set {V} (k : string) (v : V) (d : list (string * V)) :
  keys (dict_set k v d)
  = if bool_decide (k ∈ keys d) then keys d else keys d ++ [k].
Proof.
  unfold keys. induction d as [|[k' v'] d IH]; csimpl; [reflexivity |].
  rewrite eqb_decide. destruct (decide (k = k')) as [->|Hne].
  - rewrite bool_decide_eq_true_2 by reflexivity.
    rewrite bool_decide_eq_true_2 by left. reflexivity.
  - rewrite bool_decide_eq_false_2 by exact Hne. csimpl. rewrite IH.
    destruct (decide (k ∈ d.*1)) as [Hin|Hin].
    + rewrite !bool_decide_eq_true_2; [reflexivity | | exact Hin].
      right. exact Hin.
    + rewrite !bool_decide_eq_false_2; [reflexivity | | exact Hin].
      rewrite elem_of_cons. tauto.
Qed.

Lemma dict_get_set {V} (k k' : string) (v : V) (d : list (string * V)) :
  dict_get k' (dict_set k v d)
  = if bool_decide (k' = k) then Some v else dict_get k' d.
Proof.
  induction d as [|[k0 v0] d IH]; simpl.
  - rewrite eqb_decide. reflexivity.
  - rewrite !eqb_decide. destruct (decide (k = k0)) as [->|Hne].
    + rewrite bool_decide_eq_true_2 by reflexivity. simpl.
      rewrite eqb_decide. destruct (bool_decide (k' = k0)); reflexivity.
    + rewrite bool_decide_eq_false_2 by exact Hne. simpl.
      rewrite eqb_decide, IH.
      destruct (decide (k' = k0)) as [->|Hne'].
      * rewrite bool_decide_eq_true_2 by reflexivity.
        rewrite bool_decide_eq_false_2 by congruence. reflexivity.
      * rewrite (bool_decide_eq_false_2 (k' = k0)) by exact Hne'.
        reflexivity.
Qed.

Lemma elem_of_first_occurrences (seen l : list string) x :
  x ∈ first_occurrences seen l ↔ x ∈ l ∧ x ∉ seen.
Proof.
  revert seen. induction l as [|y l IH]; intros seen; simpl.
  - rewrite elem_of_nil. tauto.
  - destruct (decide (y ∈ seen)) as [Hin|Hin].
    + rewrite bool_decide_eq_true_2 by exact Hin.
      rewrite IH, elem_of_cons. split; [tauto |].
      intros [[-> | H] Hs]; [contradiction | tauto].
    + rewrite bool_decide_eq_false_2 by exact Hin.
      rewrite !elem_of_cons, IH, elem_of_cons.
      destruct (decide (x = y)) as [->|Hne]; tauto.
Qed.

Lemma elem_of_filter_bool {A} (f : A → bool) (l : list A) x :
  x ∈ List.filter f l ↔ x ∈ l ∧ f x = true.
Proof. rewrite !list_elem_of_In. apply filter_In. Qed.

Section Batch.

Variable get_okx_candles : string → string → nat → bool → option DataFrame.
Variable read_json : string → option (list (string * list RawRecord)).
Variables (b : string) (lim : nat) (proxy : bool).

Local Abbreviation fetched' := (fetched get_okx_candles b lim proxy).
Local Abbreviation instance_of' := (instance_of get_okx_candles b lim proxy).
Local Abbreviation has_data' := (has_data get_okx_candles b lim proxy).

Lemma analyze_single_total (ta : TechnicalAnalysis) (name : string) :
  empty (data ta) = false →
  ∃ r, _analyze_single_asset ta name = Ok (Some r).
Proof.
  intros He. destruct (data ta) as [|rows] eqn:Hd; [discriminate |].
  destruct rows as [|r0 rows]; [discriminate |].
  destruct (analyze_single_run ta name (r0 :: rows) Hd ltac:(discriminate))
    as (? & ? & ? & ? & ? & ? & ? & ? & ? & r & _ & _ & _ & _ & _ & Hr & _).
  exists r. exact Hr.
Qed.

Lemma analyze_inst_skip results id :
  has_data' id = false →
  analyze_inst get_okx_candles b lim proxy results id = Ok results.
Proof.
  unfold has_data, analyze_inst, from_api, __init__.
  cbn [mbind res_bind data]. fold (fetched' id).
  intros H. apply negb_false_iff in H. rewrite H. reflexivity.
Qed.

Lemma analyze_inst_keep results id :
  has_data' id = true →
  ∃ r, _analyze_single_asset (instance_of' id) id = Ok (Some r)
       ∧ analyze_inst get_okx_candles b lim proxy results id
         = Ok (dict_set id r results).
Proof.
  unfold has_data. intros H. apply negb_true_iff in H.
  destruct (analyze_single_total (instance_of' id) id H) as [r Hr].
  exists r. split; [exact Hr |].
  unfold analyze_inst, from_api, __init__.
  cbn [mbind res_bind data]. fold (fetched' id). fold (instance_of' id).
  change (data (instance_of' id)) with (fetched' id) in H.
  rewrite H, Hr. reflexivity.
Qed.

Lemma analyze_loop (ids : list string) :
  ∀ results : list (string * Report),
  ∃ results' : list (string * Report),
    for_each (analyze_inst get_okx_candles b lim proxy) ids results
    = Ok results'
    ∧ keys results'
      = keys results
        ++ first_occurrences (keys results) (List.filter has_data' ids)
    ∧ (∀ id r, id ∈ ids → has_data' id = true →
         _analyze_single_asset (instance_of' id) id = Ok (Some r) →
         dict_get id results' = Some r)
    ∧ (∀ id, ¬ (id ∈ ids ∧ has_data' id = true) →
         dict_get id results' = dict_get id results).
Proof.
  induction ids as [|id ids IH]; intros results.
  - exists results. simpl. rewrite app_nil_r.
    split; [reflexivity |]. split; [reflexivity |].
    split; [| reflexivity].
    intros id r Hin. apply elem_of_nil in Hin. contradiction.
  - cbn [for_each List.filter]. destruct (has_data' id) eqn:Hid.
    + destruct (analyze_inst_keep results id Hid) as (r & Hr & ->).
      cbn [mbind res_bind].
      destruct (IH (dict_set id r results))
        as (results' & Hrun & Hkeys & Hval & Hold).
      exists results'. split; [exact Hrun |]. split; [| split].
      * rewrite Hkeys, keys_dict_set. cbn [first_occurrences].
        destruct (bool_decide (id ∈ keys results)); [reflexivity |].
        rewrite <- app_assoc. cbn [app]. do 2 f_equal.
        apply first_occurrences_ext. intros x.
        rewrite elem_of_app, !elem_of_cons, elem_of_nil. tauto.
      * intros id' r' Hin Hd' Hr'.
        destruct (decide (id' ∈ ids)) as [Hin'|Hin'];
          [exact (Hval id' r' Hin' Hd' Hr') |].
        apply elem_of_cons in Hin as [-> | Hin]; [| contradiction].
        rewrite Hold by tauto. rewrite dict_get_set.
        rewrite bool_decide_eq_true_2 by reflexivity. congruence.
      * intros id' Hn. rewrite Hold.
        -- rewrite dict_get_set.
           rewrite bool_decide_eq_false_2; [reflexivity |].
           intros ->. apply Hn. split; [left | exact Hid].
        -- intros [Hin Hd']. apply Hn. split; [right; exact Hin | exact Hd'].
    + rewrite (analyze_inst_skip results id Hid). cbn [mbind res_bind].
      destruct (IH results) as (results' & Hrun & Hkeys & Hval & Hold).
      exists results'. split; [exact Hrun |]. split; [exact Hkeys |]. split.
      * intros id' r' Hin Hd' Hr'.
        apply elem_of_cons in Hin as [-> | Hin]; [congruence |].
        exact (Hval id' r' Hin Hd' Hr').
      * intros id' Hn. apply Hold. intros [Hin Hd']. apply Hn.
        split; [right; exact Hin | exact Hd'].
Qed.

(** C5.  Given a list of instruments, the batch analyzer returns
    normally; an instrument whose retrieval gives no data (a failed
    request or an empty frame) is skipped and the following ones are
    still processed; the result holds exactly the instruments that have
    data, each once, in the order of their first occurrence in the
    list, each mapped to its report. *)
Theorem batch_skips_missing_data (ids : list string) :
  ∃ results : list (string * Report),
    analyze_all_assets get_okx_candles read_json None (Some ids) b lim proxy
    = Ok results
    ∧ keys results = first_occurrences [] (List.filter has_data' ids)
    ∧ (∀ id, id ∈ keys results ↔ id ∈ ids ∧ has_data' id = true)
    ∧ (∀ id, id ∈ ids → has_data' id = true →
         ∃ r, _analyze_single_asset (instance_of' id) id = Ok (Some r)
              ∧ dict_get id results = Some r).
Proof.
  destruct (analyze_loop ids []) as (results & Hrun & Hkeys & Hval & _).
  exists results. split.
  { unfold analyze_all_assets. cbn [truthy_str].
    destruct ids as [|id ids]; [| exact Hrun].
    simpl in Hrun. congruence. }
  split; [exact Hkeys |]. split.
  - intros id. rewrite Hkeys. cbn [keys fmap list_fmap app].
    rewrite elem_of_first_occurrences, elem_of_filter_bool, elem_of_nil.
    tauto.
  - intros id Hin Hd.
    destruct (analyze_single_total (instance_of' id) id) as [r Hr].
    { unfold has_data in Hd. apply negb_true_iff in Hd. exact Hd. }
    exists r. split; [exact Hr | exact (Hval id r Hin Hd Hr)].
Qed.


End Batch.

Lemma batch_skips_missing_data_witness :
  ∃ results : list (string * Report),
    analyze_all_assets sample_exchange no_files None
      (Some ["ETH-USDT"; "BTC-USDT"; "SOL-USDT"; "BTC-USDT"]%string)
      "1D" 100 true
    = Ok results
    ∧ keys results = ["BTC-USDT"%string].
Proof.
  destruct (batch_skips_missing_data sample_exchange no_files "1D" 100 true
              ["ETH-USDT"; "BTC-USDT"; "SOL-USDT"; "BTC-USDT"]%string)
    as (results & Hrun & Hkeys & _).
  exists results. split; [exact Hrun | exact Hkeys].
Defined.

(** ** Short series, MA and Bollinger Bands: the statements *)

(** C2, as the code has it.  On a series that carries its columns and is
    shorter than the window, every windowed indicator returns columns
    of the same length that are entirely missing, and does not raise:
    MA, RSI, Bollinger Bands, ATR, DMI, and KDJ with smoothing
    parameters of at least 1; EMA and MACD return empty columns on the
    empty series.  RSI with period 14 on three candles gives three missing
    values. *)
Theorem short_series_missing (sqrtQ : Q → Q) (self : TechnicalAnalysis)
    (rows : list Row) :
  data self = Frame rows →
  (∀ p, length rows < p →
     calculate_ma self p = Ok (replicate (length rows) NaN))
  ∧ (∀ p, length rows < p →
       calculate_rsi self p = Ok (replicate (length rows) NaN))
  ∧ (∀ p k, length rows < p →
       calculate_bollinger_bands sqrtQ self p k
       = Ok (replicate (length rows) NaN, replicate (length rows) NaN,
             replicate (length rows) NaN))
  ∧ (∀ p, length rows < p →
       calculate_atr self p = Ok (replicate (length rows) NaN))
  ∧ (∀ p, length rows < p →
       calculate_dmi self p
       = Ok (replicate (length rows) NaN, replicate (length rows) NaN,
             replicate (length rows) NaN))
  ∧ (∀ p m1 m2, length rows < p → 1 ≤ m1 → 1 ≤ m2 →
       calculate_kdj self p m1 m2
       = Ok (replicate (length rows) NaN, replicate (length rows) NaN,
             replicate (length rows) NaN))
  ∧ (∀ s, length rows < 1 → 1 ≤ s → calculate_ema self s = Ok [])
  ∧ (∀ f s g, length rows < 1 → 1 ≤ f → 1 ≤ s → 1 ≤ g →
       calculate_macd self f s g = Ok ([], [], []))
  ∧ (length rows = 3 → calculate_rsi self 14 = Ok [NaN; NaN; NaN]).
Proof.
  intros Hd.
  split; [intros p; apply calculate_ma_short; exact Hd |].
  split; [intros p; apply calculate_rsi_short; exact Hd |].
  split; [intros p k; apply calculate_bollinger_bands_short; exact Hd |].
  split; [intros p; apply calculate_atr_short; exact Hd |].
  split; [intros p; apply calculate_dmi_short; exact Hd |].
  split; [intros p m1 m2; apply calculate_kdj_short; exact Hd |].
  split; [intros s Hn Hs; apply (calculate_ema_empty self rows Hd); lia |].
  split; [intros f s g Hn Hf Hs Hg;
          apply (calculate_macd_empty self rows Hd); lia |].
  intros H3. rewrite (calculate_rsi_short self rows Hd 14) by lia.
  rewrite H3. reflexivity.
Qed.

Lemma short_series_missing_witness :
  data rising3 = Frame (imap bar_at [1; 2; 3]%Z)
  ∧ calculate_rsi rising3 14 = Ok [NaN; NaN; NaN]
  ∧ calculate_ma rising3 5 = Ok [NaN; NaN; NaN]
  ∧ calculate_kdj rising3 9 3 3
    = Ok ([NaN; NaN; NaN], [NaN; NaN; NaN], [NaN; NaN; NaN]).
Proof.
  split; [reflexivity |].
  destruct (short_series_missing Qsqrt_floor rising3
              (imap bar_at [1; 2; 3]%Z) eq_refl)
    as (Hma & _ & _ & _ & _ & Hkdj & _ & _ & Hrsi).
  split; [apply Hrsi; reflexivity |].
  split; [apply (Hma 5); simpl; lia |].
  apply (Hkdj 9 3 3); simpl; lia.
Defined.


Lemma ordinary_finite (v : fval) : ordinary v → isfinite v = true.
Proof. destruct v; simpl; [contradiction .. | reflexivity]. Qed.




(** ** DMI: the tie between the two directional moves *)

Lemma lookup_shift (s : Series) i y :
  1 ≤ i → i < length s → s !! (i - 1) = Some y → shift s !! i = Some y.
Proof.
  intros Hi Hl Hy. unfold shift. rewrite lookup_take.
  destruct (decide (i < length s)); [| lia].
  destruct i as [|j]; [lia |]. replace (S j - 1) with j in Hy by lia.
  exact Hy.
Qed.

Lemma lookup_diff (s : Series) i x y :
  1 ≤ i → s !! i = Some x → s !! (i - 1) = Some y →
  diff s !! i = Some (x - y)%F.
Proof.
  intros Hi Hx Hy. unfold diff, ssub. rewrite lookup_zip_with, Hx. simpl.
  rewrite (lookup_shift s i y Hi); [reflexivity | | exact Hy].
  eapply lookup_lt_Some. exact Hx.
Qed.

Lemma lookup_assign cond v (s t : Series) i x y :
  s !! i = Some x → t !! i = Some y →
  assign_where cond v s t !! i = Some (if cond x y then v else x).
Proof.
  intros Hx Hy. unfold assign_where.
  rewrite lookup_zip_with, Hx. simpl. rewrite Hy. reflexivity.
Qed.

(** C1.  At a position where the upward move of the high equals the
    downward move of the low and both are positive, the code zeroes +DM
    but keeps -DM: line 198 compares -DM with the +DM that line 197 has
    just zeroed. *)
Theorem dmi_tie_keeps_minus_dm (highs lows : Series) (i : nat)
    (h h' l l' : Q) :
  1 ≤ i →
  highs !! i = Some (Fin h) → highs !! (i - 1) = Some (Fin h') →
  lows !! i = Some (Fin l) → lows !! (i - 1) = Some (Fin l') →
  (h - h' == l' - l)%Q → (0 < h - h')%Q →
  (directional_movement highs lows).1 !! i = Some (Fin 0)
  ∧ ∃ m, (directional_movement highs lows).2 !! i = Some (Fin m)
         ∧ (m == l' - l)%Q ∧ (0 < m)%Q.
Proof.
  intros Hi Hh Hh' Hl Hl' Htie Hpos.
  pose proof (lookup_diff highs i _ _ Hi Hh Hh') as Hup.
  pose proof (lookup_diff lows i _ _ Hi Hl Hl') as Hdown.
  assert (Hdown' : sneg (diff lows) !! i = Some (Fin (- (l + - l')))).
  { unfold sneg. rewrite list_lookup_fmap, Hdown. reflexivity. }
  cbn [fsub fadd fneg] in Hup.
  set (up := (h + - h')%Q) in *. set (down := (- (l + - l'))%Q) in *.
  assert (Eup : (up == h - h')%Q) by (unfold up; ring).
  assert (Edown : (down == l' - l)%Q) by (unfold down; ring).
  assert (P1 : assign_where (λ x _, flt x (Fin 0)) (Fin 0) (diff highs)
                 (diff highs) !! i = Some (Fin up)).
  { rewrite (lookup_assign _ _ _ _ i _ _ Hup Hup). cbn [flt].
    rewrite (proj2 (Qltb_ge up 0)) by lra. reflexivity. }
  assert (M1 : assign_where (λ x _, flt x (Fin 0)) (Fin 0) (sneg (diff lows))
                 (sneg (diff lows)) !! i = Some (Fin down)).
  { rewrite (lookup_assign _ _ _ _ i _ _ Hdown' Hdown'). cbn [flt].
    rewrite (proj2 (Qltb_ge down 0)) by lra. reflexivity. }
  unfold directional_movement. cbn [fst snd].
  assert (P2 : assign_where fle (Fin 0)
                 (assign_where (λ x _, flt x (Fin 0)) (Fin 0) (diff highs)
                    (diff highs))
                 (assign_where (λ x _, flt x (Fin 0)) (Fin 0)
                    (sneg (diff lows)) (sneg (diff lows))) !! i
               = Some (Fin 0)).
  { rewrite (lookup_assign _ _ _ _ i _ _ P1 M1). cbn [fle].
    rewrite (proj2 (Qle_bool_iff up down)) by lra. reflexivity. }
  split; [exact P2 |].
  exists down. split; [| split; [exact Edown | lra]].
  rewrite (lookup_assign _ _ _ _ i _ _ M1 P2). cbn [fle].
  destruct (Qle_bool down 0) eqn:E; [| reflexivity].
  apply Qle_bool_iff in E. lra.
Qed.

Lemma dmi_tie_keeps_minus_dm_witness :
  directional_movement (high <$> tie_rows) (low <$> tie_rows)
  = ([NaN; Fin 0], [NaN; Fin 1])
  ∧ (∃ m, (directional_movement (high <$> tie_rows) (low <$> tie_rows)).2
          !! 1 = Some (Fin m) ∧ (0 < m)%Q)
  ∧ ∃ (plus_di minus_di adx : Series) (q : Q),
      calculate_dmi tie_series 1 = Ok (plus_di, minus_di, adx)
      ∧ (∃ z, plus_di !! 1 = Some (Fin z) ∧ (z == 0)%Q)
      ∧ minus_di !! 1 = Some (Fin q) ∧ (0 < q)%Q.
Proof.
  split; [vm_compute; reflexivity |]. split.
  - destruct (dmi_tie_keeps_minus_dm (high <$> tie_rows) (low <$> tie_rows)
                1 11 10 4 5 ltac:(lia) eq_refl eq_refl eq_refl eq_refl
                eq_refl eq_refl) as (_ & m & Hm & _ & Hpos).
    exists m. split; [exact Hm | exact Hpos].
  - eexists _, _, _, _. split; [vm_compute; reflexivity |].
    split; [eexists; split; [reflexivity | reflexivity] |].
    split; [reflexivity | reflexivity].
Defined.

(** ** The code at concrete inputs *)

(** C2 fails on the empty series: [calculate_obv] raises on the empty
    frame, with or without columns, and on the frame without columns
    so does every indicator that reads a column. *)
Lemma empty_series_raises :
  len (data no_rows) = 0
  ∧ calculate_obv no_rows = Raise IndexError
  ∧ len (data no_data) = 0
  ∧ calculate_obv no_data = Raise KeyError
  ∧ calculate_rsi no_data 14 = Raise KeyError
  ∧ calculate_ma no_data 5 = Raise KeyError.
Proof. repeat split; reflexivity. Qed.

(** C3 fails on duplicates: a collection with two candles at time 5 is
    accepted and both are kept, so the result is not strictly
    ascending. *)
Lemma duplicate_timestamps_accepted :
  ¬ NoDup (raw_datetime <$> duplicate_records)
  ∧ ∃ r1 r2 r3,
      _process_dataframe duplicate_records = Ok (Frame [r1; r2; r3])
      ∧ datetime r1 = At 3 ∧ datetime r2 = At 5 ∧ datetime r3 = At 5
      ∧ ¬ strictly_ascending [r1; r2; r3].
Proof.
  split.
  - intros H. apply NoDup_cons in H as [Hn _]. apply Hn.
    right. left.
  - eexists _, _, _. split; [vm_compute; reflexivity |].
    split; [reflexivity |]. split; [reflexivity |]. split; [reflexivity |].
    intros H. specialize (H 1 2 _ _ ltac:(lia) eq_refl eq_refl).
    simpl in H. lia.
Qed.


(** C6 fails on a flat tail: after one rise and fifteen unchanged closes
    the RSI column holds 100 at positions 13 and 14 and is missing at
    the last position; the snapshot reports the missing last value, not
    the last defined one. *)
Lemma snapshot_not_last_defined :
  ∃ (report : Report) (rsi : Series) (q : Q),
    _analyze_single_asset flat_tail "BTC-USDT" = Ok (Some report)
    ∧ calculate_rsi flat_tail 14 = Ok rsi
    ∧ RSI (indicators report) = Some NaN
    ∧ last (List.filter notna rsi) = Some (Fin q)
    ∧ (q == 100)%Q.
Proof.
  eexists _, _, _. split; [vm_compute; reflexivity |].
  split; [vm_compute; reflexivity |].
  split; [reflexivity |]. split; reflexivity.
Qed.


(** * Further properties of the engine *)

(** ** Exponential smoothing *)

Lemma finite_series_Fin (s : Series) :
  finite_series s → ∃ qs : list Q, s = Fin <$> qs.
Proof.
  induction 1 as [|x l Hx _ [qs ->]]; [exists []; reflexivity |].
  destruct x as [| | |q]; try discriminate. exists (q :: qs). reflexivity.
Qed.

Lemma finite_series_fmap_Fin (qs : list Q) : finite_series (Fin <$> qs).
Proof. apply Forall_fmap, Forall_forall. intros q _. reflexivity. Qed.

Lemma ewm_go_q (a w : Q) (cs : list Q) :
  ewm_go (Fin a) (Fin w) (Fin 1) (Fin <$> cs) = Fin <$> ema_q a w cs.
Proof.
  revert w. induction cs as [|c cs IH]; intros w; [reflexivity |].
  rewrite fmap_cons. cbn [ewm_go notna isnan negb feqb fmul fsub fadd fneg].
  assert (Hden : Qeq_bool (1 * (1 + - a) + a) 0 = false).
  { apply not_true_is_false. intros E. apply Qeq_bool_iff in E.
    assert ((1 * (1 + - a) + a == 1)%Q) by ring. lra. }
  cbn [ema_q]. destruct (Qeq_bool w c).
  - rewrite IH. reflexivity.
  - cbn [fdiv]. rewrite Hden, IH. reflexivity.
Qed.

Lemma ewm_mean_q (a : Q) (c : Q) (cs : list Q) :
  ewm_mean (Fin a) (Fin <$> c :: cs) = Fin <$> c :: ema_q a c cs.
Proof. rewrite !fmap_cons. cbn [ewm_mean]. rewrite ewm_go_q. reflexivity. Qed.

Lemma ewm_mean_finite (a : Q) (s : Series) :
  finite_series s → finite_series (ewm_mean (Fin a) s).
Proof.
  intros Hf. destruct (finite_series_Fin s Hf) as [[|c cs] ->];
    [constructor |].
  rewrite ewm_mean_q. apply finite_series_fmap_Fin.
Qed.

Lemma length_ema_q a w cs : length (ema_q a w cs) = length cs.
Proof.
  revert w. induction cs as [|c cs IH]; intros w; simpl; [| rewrite IH];
    reflexivity.
Qed.

(** Each value is the previous one moved towards the new close by
    [alpha]. *)
Lemma ema_q_step (a : Q) (cs : list Q) :
  ∀ (w : Q) i y c,
    (w :: ema_q a w cs) !! i = Some y → cs !! i = Some c →
    ∃ y', ema_q a w cs !! i = Some y'
          ∧ (y' == (1 - a) * y + a * c)%Q.
Proof.
  induction cs as [|c0 cs IH]; intros w i y c Hy Hc; [discriminate |].
  destruct i as [|i].
  - simpl in Hy, Hc. injection Hy as ->. injection Hc as ->.
    cbn [ema_q]. eexists. split; [reflexivity |].
    destruct (Qeq_bool y c) eqn:E.
    + apply Qeq_bool_iff in E. rewrite <- E. ring.
    + field. intros H. assert ((1 * (1 + - a) + a == 1)%Q) by ring. lra.
  - cbn [ema_q] in *. simpl in Hy, Hc. simpl.
    exact (IH _ i y c Hy Hc).
Qed.

Lemma ema_q_constant (a c : Q) (cs : list Q) :
  Forall (λ x, (x == c)%Q) cs →
  ∀ w, (w == c)%Q → Forall (λ x, (x == c)%Q) (ema_q a w cs).
Proof.
  induction 1 as [|x cs Hx _ IH]; intros w Hw; [constructor |].
  cbn [ema_q].
  assert (E : Qeq_bool w x = true) by (apply Qeq_bool_iff; lra).
  rewrite E. constructor; [exact Hw | apply IH; exact Hw].
Qed.

Lemma of_nat_div (k : Q) (n : nat) :
  1 ≤ n → (Fin k / of_nat n)%F = Fin (k / inject_Z (Z.of_nat n)).
Proof.
  intros Hn. unfold of_nat. cbn [fdiv]. rewrite of_nat_nonzero by exact Hn.
  reflexivity.
Qed.

Lemma ewm_span_frame (span : nat) (s : Series) :
  1 ≤ span →
  ewm_span span s = Ok (ewm_mean (Fin (alpha_of_span span)) s).
Proof.
  intros Hs. unfold ewm_span. rewrite (proj2 (Nat.ltb_ge span 1)) by lia.
  rewrite of_nat_div by lia. reflexivity.
Qed.

Lemma closes_Fin (rows : list Row) :
  closes_finite rows → ∃ cs : list Q, close <$> rows = Fin <$> cs.
Proof. intros H. apply finite_series_Fin, closes_finite_series, H. Qed.

(** X1.  EMA on finite closes: no position is missing, the first value
    is the first close, and each later value is the previous one times
    [1 - alpha] plus the close times [alpha], with
    [alpha = 2 / (span + 1)]. *)
Theorem ema_recursion (self : TechnicalAnalysis) (rows : list Row)
    (span : nat) :
  data self = Frame rows → closes_finite rows → 1 ≤ span →
  ∃ ema : Series,
    calculate_ema self span = Ok ema
    ∧ length ema = length rows
    ∧ finite_series ema
    ∧ ema !! 0 = close <$> rows !! 0
    ∧ ∀ i r y, rows !! S i = Some r → ema !! i = Some (Fin y) →
        ∃ c y', close r = Fin c ∧ ema !! S i = Some (Fin y')
                ∧ (y' == (1 - alpha_of_span span) * y
                         + alpha_of_span span * c)%Q.
Proof.
  intros Hd Hf Hs. unfold calculate_ema. rewrite Hd.
  unfold column. cbn [mbind res_bind]. rewrite ewm_span_frame by exact Hs.
  eexists. split; [reflexivity |].
  split; [rewrite length_ewm_mean, length_fmap; reflexivity |].
  split; [apply ewm_mean_finite, closes_finite_series, Hf |].
  destruct (closes_Fin rows Hf) as [cs Hcs].
  rewrite <- list_lookup_fmap, Hcs.
  destruct cs as [|c0 cs].
  - split; [reflexivity |]. intros i r y Hr.
    apply (f_equal length) in Hcs. rewrite length_fmap in Hcs.
    apply lookup_lt_Some in Hr. simpl in Hcs. lia.
  - rewrite ewm_mean_q. split; [reflexivity |].
    intros i r y Hr Hy.
    assert (Hc : (Fin <$> c0 :: cs) !! S i = Some (close r))
      by (rewrite <- Hcs, list_lookup_fmap, Hr; reflexivity).
    rewrite list_lookup_fmap in Hc. simpl in Hc.
    destruct (cs !! i) as [c|] eqn:Ec; [| discriminate].
    simpl in Hc. injection Hc as Hc.
    rewrite list_lookup_fmap in Hy.
    destruct ((c0 :: ema_q (alpha_of_span span) c0 cs) !! i) as [y0|] eqn:Ey;
      [| discriminate].
    simpl in Hy. injection Hy as ->.
    destruct (ema_q_step _ cs c0 i y c Ey Ec) as (y' & Hy' & Heq).
    exists c, y'. split; [symmetry; exact Hc |]. split; [| exact Heq].
    rewrite fmap_cons. simpl. rewrite list_lookup_fmap, Hy'. reflexivity.
Qed.

(** X2.  EMA of a constant finite price is that constant at every
    position, for every span of at least 1. *)
Theorem ema_constant (self : TechnicalAnalysis) (rows : list Row)
    (span : nat) (c : Q) :
  data self = Frame rows → 1 ≤ span →
  Forall (λ r, feq (close r) (Fin c)) rows →
  ∃ ema : Series,
    calculate_ema self span = Ok ema
    ∧ length ema = length rows
    ∧ Forall (λ v, feq v (Fin c)) ema.
Proof.
  intros Hd Hs Hc. unfold calculate_ema. rewrite Hd.
  unfold column. cbn [mbind res_bind]. rewrite ewm_span_frame by exact Hs.
  eexists. split; [reflexivity |].
  split; [rewrite length_ewm_mean, length_fmap; reflexivity |].
  assert (Hf : closes_finite rows).
  { eapply Forall_impl; [exact Hc |]. intros r. cbv beta.
    destruct (close r); simpl; intros H; try contradiction. reflexivity. }
  destruct (closes_Fin rows Hf) as [cs Hcs]. rewrite Hcs.
  assert (Hall : Forall (λ x, (x == c)%Q) cs).
  { apply Forall_lookup. intros i x Hx.
    assert (Hi : (close <$> rows) !! i = Some (Fin x))
      by (rewrite Hcs, list_lookup_fmap, Hx; reflexivity).
    rewrite list_lookup_fmap in Hi.
    destruct (rows !! i) as [r|] eqn:Er; [| discriminate].
    simpl in Hi. injection Hi as Hi.
    rewrite Forall_lookup in Hc. specialize (Hc i r Er).
    rewrite Hi in Hc. exact Hc. }
  destruct cs as [|c0 cs]; [constructor |].
  rewrite ewm_mean_q. apply Forall_fmap.
  apply Forall_cons in Hall as [H0 Hall].
  constructor; [exact H0 |].
  eapply Forall_impl; [apply (ema_q_constant _ c cs Hall c0 H0) |].
  intros x Hx. exact Hx.
Qed.

(** ** MACD *)




(** ** Directional movement, case by case *)


(** ** Fibonacci retracement *)

(** X5.  The retracement of a swing between two prices of ordinary size
    has the seven labels in their order, ['0.0'] at the high and
    ['1.0'] at the low; when the low is not above the high every level
    lies between the two and no level is above the one before it in
    the list.  A zero range gives seven equal levels. *)
Theorem fibonacci_levels_ordered (h l : Q) :
  ordinary (Fin h) → ordinary (Fin l) →
  keys (calculate_fibonacci_retracement (Fin h) (Fin l))
  = ["0.0"; "0.236"; "0.382"; "0.5"; "0.618"; "0.786"; "1.0"]%string
  ∧ dict_get "0.0" (calculate_fibonacci_retracement (Fin h) (Fin l))
    = Some (Fin h)
  ∧ dict_get "1.0" (calculate_fibonacci_retracement (Fin h) (Fin l))
    = Some (Fin l)
  ∧ (∀ i v, (calculate_fibonacci_retracement (Fin h) (Fin l)).*2 !! i
            = Some v →
       ∃ x, v = Fin x
            ∧ ((l <= h)%Q → (l <= x)%Q ∧ (x <= h)%Q)
            ∧ ((l == h)%Q → (x == h)%Q))
  ∧ ((l <= h)%Q →
     ∀ i j x y, i < j →
       (calculate_fibonacci_retracement (Fin h) (Fin l)).*2 !! i
       = Some (Fin x) →
       (calculate_fibonacci_retracement (Fin h) (Fin l)).*2 !! j
       = Some (Fin y) →
       (y <= x)%Q).
Proof.
  intros _ _.
  split; [reflexivity |]. split; [reflexivity |]. split; [reflexivity |].
  split.
  - intros i v Hv.
    do 7 (destruct i as [|i];
          [simpl in Hv; injection Hv as <-; eexists;
           (split; [reflexivity |]); split; intros; try split; lra |]).
    discriminate Hv.
  - intros Hle i j x y Hij Hx Hy.
    do 7 (destruct i as [|i];
          [do 7 (destruct j as [|j];
                 [first [ lia
                        | simpl in Hx, Hy; injection Hx as <-;
                          injection Hy as <-; lra ] |]);
           discriminate Hy |]).
    discriminate Hx.
Qed.

(** ** Bollinger Bands around the moving average *)





(** ** True range and ATR *)

Lemma fmax2_Fin (a b : Q) :
  ∃ m, fmax2 (Fin a) (Fin b) = Fin m ∧ (a <= m)%Q ∧ (b <= m)%Q.
Proof.
  unfold fmax2. cbn [flt]. destruct (Qltb a b) eqn:E.
  - apply Qltb_lt in E. exists b. split; [reflexivity | lra].
  - apply Qltb_ge in E. exists a. split; [reflexivity | lra].
Qed.

Lemma smax3_Fin (a b c : Q) :
  ∃ m, smax [Fin a; Fin b; Fin c] = Fin m
       ∧ (a <= m)%Q ∧ (b <= m)%Q ∧ (c <= m)%Q.
Proof.
  unfold smax. cbn [List.filter notna isnan negb fmax_list foldl].
  destruct (fmax2_Fin a b) as (m1 & -> & ? & ?).
  destruct (fmax2_Fin m1 c) as (m & -> & ? & ?).
  exists m. split; [reflexivity | lra].
Qed.

Lemma lookup_true_range (highs lows closes : Series) i v :
  true_range highs lows closes !! i = Some v →
  ∃ h l sc, highs !! i = Some h ∧ lows !! i = Some l
            ∧ shift closes !! i = Some sc
            ∧ v = smax [(h - l)%F; fabs (h - sc)%F; fabs (l - sc)%F].
Proof.
  unfold true_range, row_max3, ssub, sabs. intros H.
  apply lookup_zip_with_Some in H as (x & [y z] & -> & Hx & Hyz).
  apply lookup_zip_with_Some in Hyz as (y' & z' & Hyz & Hy & Hz).
  injection Hyz as <- <-.
  apply lookup_zip_with_Some in Hx as (h & l & -> & Hh & Hl).
  rewrite list_lookup_fmap, lookup_zip_with, Hh in Hy.
  rewrite list_lookup_fmap, lookup_zip_with, Hl in Hz.
  destruct (shift closes !! i) as [sc|]; [| discriminate].
  simpl in Hy, Hz. injection Hy as <-. injection Hz as <-.
  exists h, l, sc. auto.
Qed.

(** On finite prices the true range is a number at every position: the
    high minus the low at position 0, and from then on the largest of
    that and the distances of high and low to the previous close. *)
Lemma true_range_cells (rows : list Row) i v :
  prices_finite rows →
  true_range (high <$> rows) (low <$> rows) (close <$> rows) !! i = Some v →
  ∃ r h l t, rows !! i = Some r ∧ high r = Fin h ∧ low r = Fin l
    ∧ v = Fin t ∧ (h - l <= t)%Q
    ∧ (i = 0 → t = (h + - l)%Q)
    ∧ (1 ≤ i → (0 <= t)%Q
               ∧ ∀ r' c, rows !! (i - 1) = Some r' → close r' = Fin c →
                   (Qabs (h - c) <= t)%Q ∧ (Qabs (l - c) <= t)%Q).
Proof.
  intros Hf Hv. unfold prices_finite in Hf. rewrite Forall_lookup in Hf.
  apply lookup_true_range in Hv as (hv & lv & sc & Hh & Hl & Hsc & ->).
  rewrite list_lookup_fmap in Hh, Hl.
  destruct (rows !! i) as [r|] eqn:Er; [| discriminate].
  simpl in Hh, Hl. injection Hh as <-. injection Hl as <-.
  destruct (Hf i r Er) as (Fh & Fl & _).
  destruct (high r) as [| | |h] eqn:Eh; try discriminate.
  destruct (low r) as [| | |l] eqn:El; try discriminate.
  unfold shift in Hsc. rewrite lookup_take in Hsc.
  destruct (decide (i < length (close <$> rows))); [| discriminate].
  destruct i as [|j].
  - simpl in Hsc. injection Hsc as <-.
    exists r, h, l, (h + - l)%Q. split; [reflexivity |].
    split; [exact Eh |]. split; [exact El |].
    split; [reflexivity |]. split; [lra |]. split; [reflexivity | lia].
  - simpl in Hsc. rewrite list_lookup_fmap in Hsc.
    destruct (rows !! j) as [r'|] eqn:Er'; [| discriminate].
    simpl in Hsc. injection Hsc as <-.
    destruct (Hf j r' Er') as (_ & _ & Fc).
    destruct (close r') as [| | |c] eqn:Ec; try discriminate.
    cbn [fsub fadd fneg fabs].
    destruct (smax3_Fin (h + - l) (Qabs (h + - c)) (Qabs (l + - c)))
      as (t & -> & H1 & H2 & H3).
    exists r, h, l, t. split; [reflexivity |].
    split; [exact Eh |]. split; [exact El |].
    split; [reflexivity |]. split; [lra |]. split; [lia |].
    intros _. split.
    + pose proof (Qabs_nonneg (h + - c)). lra.
    + intros r0 c0 Hr0 Hc0. replace (S j - 1) with j in Hr0 by lia.
      rewrite Er' in Hr0. injection Hr0 as <-.
      rewrite Ec in Hc0. injection Hc0 as <-. split; assumption.
Qed.

Lemma true_range_finite (rows : list Row) :
  prices_finite rows →
  finite_series
    (true_range (high <$> rows) (low <$> rows) (close <$> rows)).
Proof.
  intros Hf. apply Forall_lookup. intros i v Hv.
  destruct (true_range_cells rows i v Hf Hv)
    as (? & ? & ? & ? & _ & _ & _ & -> & _). reflexivity.
Qed.

Lemma ordinary_prices_finite (rows : list Row) :
  ordinary_prices rows → prices_finite rows.
Proof.
  intros H. eapply Forall_impl; [exact H |].
  intros r (Hh & Hl & Hc).
  repeat split; apply ordinary_finite; assumption.
Qed.

(** X7.  On prices of ordinary size (no difference of two of them
    wraps around, no sum over a window overflows) ATR(p), [p >= 1], is
    missing on the first [p - 1] positions and a number from position
    [p - 1] on, because the true range of the first candle is its high
    minus its low; the true range is at least the high minus the low
    everywhere and, after the first candle, at least the distance of
    the high and of the low to the previous close; when no low is
    above its high, no ATR value is negative. *)
Theorem atr_defined_from (self : TechnicalAnalysis) (rows : list Row)
    (p : nat) :
  data self = Frame rows → ordinary_prices rows → 1 ≤ p →
  ∃ atr : Series,
    calculate_atr self p = Ok atr
    ∧ atr = rolling_mean p
              (true_range (high <$> rows) (low <$> rows) (close <$> rows))
    ∧ length atr = length rows
    ∧ defined_from (p - 1) atr
    ∧ (∀ i v,
         true_range (high <$> rows) (low <$> rows) (close <$> rows) !! i
         = Some v →
         ∃ r h l t, rows !! i = Some r ∧ high r = Fin h ∧ low r = Fin l
           ∧ v = Fin t ∧ (h - l <= t)%Q
           ∧ (i = 0 → t = (h + - l)%Q)
           ∧ (1 ≤ i → (0 <= t)%Q
                ∧ ∀ r' c, rows !! (i - 1) = Some r' → close r' = Fin c →
                    (Qabs (h - c) <= t)%Q ∧ (Qabs (l - c) <= t)%Q))
    ∧ (Forall (λ r, fle (low r) (high r) = true) rows →
       ∀ i q, atr !! i = Some (Fin q) → (0 <= q)%Q).
Proof.
  intros Hd Hf Hp. apply ordinary_prices_finite in Hf.
  unfold calculate_atr. rewrite Hd.
  unfold column. cbn [mbind res_bind].
  set (tr := true_range (high <$> rows) (low <$> rows) (close <$> rows)).
  assert (Ltr : length tr = length rows)
    by (unfold tr; rewrite length_true_range; rewrite !length_fmap;
        reflexivity).
  eexists. split; [reflexivity |]. split; [reflexivity |].
  split; [unfold rolling_mean; rewrite length_rolling; exact Ltr |].
  split; [apply rolling_mean_defined_from;
          [apply true_range_finite, Hf | exact Hp] |].
  split; [intros i v; apply true_range_cells; exact Hf |].
  intros Hlh i q Hq.
  assert (Hnn : Forall nonneg tr).
  { apply Forall_lookup. intros j v Hv.
    destruct (true_range_cells rows j v Hf Hv)
      as (r & h & l & t & Hr & Eh & El & -> & Hge & H0 & H1).
    simpl. destruct j as [|j]; [| apply H1; lia].
    rewrite Forall_lookup in Hlh. specialize (Hlh 0 r Hr).
    rewrite Eh, El in Hlh. simpl in Hlh. apply Qle_bool_iff in Hlh. lra. }
  destruct (rolling_mean_nonneg p tr i (Fin q) Hnn Hq) as [E | E];
    [discriminate E | exact E].
Qed.

(** ** Support and resistance *)

Lemma cell_lookup (s : Series) i x : s !! i = Some x → cell s i = x.
Proof. unfold cell. intros ->. reflexivity. Qed.

Lemma elem_of_range a b i : i ∈ range a b ↔ a ≤ i ∧ i < b.
Proof. unfold range. rewrite elem_of_seq. lia. Qed.

Lemma forallb_range (f : nat → bool) a b :
  forallb f (range a b) = true ↔ ∀ j, a ≤ j → j < b → f j = true.
Proof.
  rewrite forallb_forall. split.
  - intros H j Ha Hb. apply H, list_elem_of_In, elem_of_range. lia.
  - intros H j Hj. apply list_elem_of_In, elem_of_range in Hj.
    apply H; lia.
Qed.

(** The values [extrema] returns are those of the positions that have [w]
    neighbours on both sides and compare well with each of them. *)
Lemma elem_of_extrema (cmp : fval → fval → bool) (s : Series) (w : nat) v :
  v ∈ extrema cmp s w ↔
  ∃ i, w ≤ i ∧ i + w < length s ∧ s !! i = Some v
       ∧ ∀ j x, 1 ≤ j → j ≤ w →
           (s !! (i - j) = Some x → cmp v x = true)
           ∧ (s !! (i + j) = Some x → cmp v x = true).
Proof.
  unfold extrema. rewrite list_elem_of_fmap. split.
  - intros (i & -> & Hi). apply elem_of_filter_bool in Hi as [Hr He].
    apply elem_of_range in Hr. exists i.
    split; [lia |]. split; [lia |].
    destruct (lookup_lt_is_Some_2 s i ltac:(lia)) as [v Hv].
    rewrite (cell_lookup _ _ _ Hv). split; [exact Hv |].
    unfold is_extremum in He. apply andb_true_iff in He as [Hb Ha].
    rewrite forallb_range in Hb, Ha.
    intros j x Hj1 Hj2. split; intros Hx.
    + specialize (Hb j ltac:(lia) ltac:(lia)).
      rewrite (cell_lookup _ _ _ Hv), (cell_lookup _ _ _ Hx) in Hb.
      exact Hb.
    + specialize (Ha j ltac:(lia) ltac:(lia)).
      rewrite (cell_lookup _ _ _ Hv), (cell_lookup _ _ _ Hx) in Ha.
      exact Ha.
  - intros (i & Hw & Hn & Hv & Hall). exists i.
    split; [symmetry; apply cell_lookup, Hv |].
    apply elem_of_filter_bool. split; [apply elem_of_range; lia |].
    unfold is_extremum. apply andb_true_iff.
    rewrite !forallb_range. rewrite (cell_lookup _ _ _ Hv).
    split; intros j Hj1 Hj2.
    + destruct (lookup_lt_is_Some_2 s (i - j) ltac:(lia)) as [x Hx].
      rewrite (cell_lookup _ _ _ Hx).
      exact (proj1 (Hall j x ltac:(lia) ltac:(lia)) Hx).
    + destruct (lookup_lt_is_Some_2 s (i + j) ltac:(lia)) as [x Hx].
      rewrite (cell_lookup _ _ _ Hx).
      exact (proj2 (Hall j x ltac:(lia) ltac:(lia)) Hx).
Qed.

Lemma extrema_short (cmp : fval → fval → bool) (s : Series) (w : nat) :
  length s ≤ 2 * w → extrema cmp s w = [].
Proof.
  intros H. unfold extrema, range.
  replace (length s - w - w) with 0 by lia. reflexivity.
Qed.

(** X8.  [find_support_resistance] never reports a candle within
    [window] positions of either end of the series, and reports nothing
    when the series has at most [2 * window] candles.  A value is a
    resistance level exactly when it is the high of a candle with
    [window] neighbours on each side that is at least each of their
    highs; a support level is the same for lows, with at most. *)
Theorem support_resistance_interior (self : TechnicalAnalysis)
    (rows : list Row) (w : nat) :
  data self = Frame rows →
  ∃ support resistance : list fval,
    find_support_resistance self w = Ok (support, resistance)
    ∧ (length rows ≤ 2 * w → support = [] ∧ resistance = [])
    ∧ (∀ v, v ∈ resistance ↔
         ∃ i, w ≤ i ∧ i + w < length rows
              ∧ (high <$> rows) !! i = Some v
              ∧ ∀ j x, 1 ≤ j → j ≤ w →
                  ((high <$> rows) !! (i - j) = Some x → fge v x = true)
                  ∧ ((high <$> rows) !! (i + j) = Some x → fge v x = true))
    ∧ (∀ v, v ∈ support ↔
         ∃ i, w ≤ i ∧ i + w < length rows
              ∧ (low <$> rows) !! i = Some v
              ∧ ∀ j x, 1 ≤ j → j ≤ w →
                  ((low <$> rows) !! (i - j) = Some x → fle v x = true)
                  ∧ ((low <$> rows) !! (i + j) = Some x → fle v x = true)).
Proof.
  intros Hd. unfold find_support_resistance. rewrite Hd.
  unfold column. cbn [mbind res_bind].
  eexists _, _. split; [reflexivity |]. split.
  - intros Hn. split; apply extrema_short; rewrite length_fmap; exact Hn.
  - split; intros v; rewrite elem_of_extrema, length_fmap; reflexivity.
Qed.

(** ** OBV on monotone closes *)





(** ** RSI on monotone closes *)








Lemma window_fmap {A} (f : A → fval) w i (l : list A) :
  window w i (f <$> l) = f <$> drop (i + 1 - w) (take (i + 1) l).
Proof. unfold window. rewrite <- fmap_take, <- fmap_drop. reflexivity. Qed.


(** ** The indicator table *)

Lemma length_shift_by k (s : Series) : length (shift_by k s) = length s.
Proof.
  unfold shift_by. rewrite length_take, length_app, length_replicate. lia.
Qed.

Lemma length_ffill_from prev (s : Series) :
  length (ffill_from prev s) = length s.
Proof.
  revert prev. induction s as [|x s IH]; intros prev; simpl;
    [| rewrite IH]; reflexivity.
Qed.

Lemma length_pct_change k (s : Series) : length (pct_change k s) = length s.
Proof.
  unfold pct_change, sdiv, ffill.
  rewrite length_fmap, length_zip_with, length_shift_by, length_ffill_from.
  lia.
Qed.

Lemma length_rolling_mean w (s : Series) :
  length (rolling_mean w s) = length s.
Proof. apply length_rolling. Qed.

Lemma calculate_macd_lengths (self : TechnicalAnalysis) (rows : list Row)
    (fast slow signal : nat) :
  data self = Frame rows → 1 ≤ fast → 1 ≤ slow → 1 ≤ signal →
  ∃ dif dea hist : Series,
    calculate_macd self fast slow signal = Ok (dif, dea, hist)
    ∧ length dif = length rows ∧ length dea = length rows
    ∧ length hist = length rows
    ∧ ∀ e1 e2, calculate_ema self fast = Ok e1 →
        calculate_ema self slow = Ok e2 → dif = ssub e1 e2.
Proof.
  intros Hd Hf Hs Hg. unfold calculate_macd, calculate_ema. rewrite Hd.
  unfold column. cbn [mbind res_bind].
  rewrite !ewm_span_frame by assumption. cbn [mbind res_bind].
  rewrite ewm_span_frame by assumption. cbn [mbind res_bind].
  eexists _, _, _. split; [reflexivity |].
  assert (L : length (ssub (ewm_mean (Fin (alpha_of_span fast))
                              (close <$> rows))
                           (ewm_mean (Fin (alpha_of_span slow))
                              (close <$> rows))) = length rows).
  { unfold ssub. rewrite length_zip_with, !length_ewm_mean, length_fmap.
    lia. }
  split; [exact L |]. split; [rewrite length_ewm_mean; exact L |].
  split.
  - unfold sscale, ssub at 1.
    rewrite length_fmap, length_zip_with, length_ewm_mean, L. lia.
  - intros e1 e2 [= <-] [= <-]. reflexivity.
Qed.

Lemma calculate_kdj_lengths (self : TechnicalAnalysis) (rows : list Row)
    (n m1 m2 : nat) :
  data self = Frame rows → 1 ≤ m1 → 1 ≤ m2 →
  ∃ k d j : Series,
    calculate_kdj self n m1 m2 = Ok (k, d, j)
    ∧ length k = length rows ∧ length d = length rows
    ∧ length j = length rows
    ∧ j = ssub (sscale (Fin 3) k) (sscale (Fin 2) d).
Proof.
  intros Hd H1 H2. unfold calculate_kdj, ewm_com_pred. rewrite Hd.
  unfold column. cbn [mbind res_bind].
  rewrite (proj2 (Nat.ltb_ge m1 1)), (proj2 (Nat.ltb_ge m2 1)) by lia.
  cbn [mbind res_bind].
  eexists _, _, _. split; [reflexivity |].
  set (rsv := sscale hundred _).
  assert (L : length rsv = length rows).
  { unfold rsv, sscale, sdiv, ssub, rolling_min, rolling_max.
    rewrite length_fmap, !length_zip_with, !length_rolling, !length_fmap.
    lia. }
  split; [rewrite length_ewm_mean; exact L |].
  split; [rewrite !length_ewm_mean; exact L |].
  split; [| reflexivity].
  unfold ssub, sscale.
  rewrite length_zip_with, !length_fmap, !length_ewm_mean, L. lia.
Qed.

Lemma calculate_bollinger_lengths (sqrtQ : Q → Q) (self : TechnicalAnalysis)
    (rows : list Row) (p : nat) (k : Z) :
  data self = Frame rows →
  ∃ upper middle lower : Series,
    calculate_bollinger_bands sqrtQ self p k = Ok (upper, middle, lower)
    ∧ middle = rolling_mean p (close <$> rows)
    ∧ length upper = length rows ∧ length middle = length rows
    ∧ length lower = length rows.
Proof.
  intros Hd. unfold calculate_bollinger_bands. rewrite Hd.
  unfold column. cbn [mbind res_bind].
  eexists _, _, _. split; [reflexivity |]. split; [reflexivity |].
  unfold sadd, ssub, sscale, rolling_std.
  rewrite !length_zip_with, !length_fmap, !length_rolling_mean,
    !length_rolling, !length_fmap.
  repeat split; lia.
Qed.

(** X11.  On a non-empty series [get_all_indicators] does not raise
    and returns a table aligned with the input: it keeps the index and
    the timestamps of the series, has the 33 named columns in their
    order, and every column has one cell per candle.  Its price
    columns are those of the series, its ['bb_middle'] column is its
    ['ma20'] column, and its ['macd_dif'] column is ['ema12'] minus
    ['ema26']. *)
Theorem indicator_table_aligned (sqrtQ : Q → Q) (self : TechnicalAnalysis)
    (rows : list Row) :
  data self = Frame rows → rows ≠ [] →
  ∃ table : IndicatorTable,
    get_all_indicators sqrtQ self = Ok table
    ∧ table_index table = label <$> rows
    ∧ table_datetime table = Some (datetime <$> rows)
    ∧ keys (table_columns table) = indicator_names
    ∧ Forall (λ c, length c.2 = length rows) (table_columns table)
    ∧ dict_get "close" (table_columns table) = Some (close <$> rows)
    ∧ dict_get "volume" (table_columns table) = Some (vol <$> rows)
    ∧ dict_get "bb_middle" (table_columns table)
      = dict_get "ma20" (table_columns table)
    ∧ ∃ dif e12 e26,
        dict_get "macd_dif" (table_columns table) = Some dif
        ∧ dict_get "ema12" (table_columns table) = Some e12
        ∧ dict_get "ema26" (table_columns table) = Some e26
        ∧ dif = ssub e12 e26.
Proof.
  intros Hd Hne.
  assert (He : empty (data self) = false)
    by (rewrite Hd; destruct rows; [congruence | reflexivity]).
  assert (Hma : ∀ p, calculate_ma self p
                     = Ok (rolling_mean p (close <$> rows)))
    by (intros p; unfold calculate_ma; rewrite Hd; reflexivity).
  assert (Hema : ∀ s, 1 ≤ s →
            calculate_ema self s
            = Ok (ewm_mean (Fin (alpha_of_span s)) (close <$> rows))).
  { intros s Hs. unfold calculate_ema. rewrite Hd. unfold column.
    cbn [mbind res_bind]. apply ewm_span_frame. exact Hs. }
  destruct (calculate_rsi_prefix self rows 14 Hd) as (rsi14 & E14 & L14 & _).
  destruct (calculate_rsi_prefix self rows 6 Hd) as (rsi6 & E6 & L6 & _).
  destruct (calculate_macd_lengths self rows 12 26 9 Hd)
    as (dif & dea & hist & Emacd & Ldif & Ldea & Lhist & Hdif); [lia .. |].
  destruct (calculate_kdj_lengths self rows 9 3 3 Hd)
    as (k & d & j & Ekdj & Lk & Ld & Lj & _); [lia .. |].
  destruct (calculate_dmi_prefix self rows Hd 14 ltac:(lia))
    as (pdi & mdi & adx & Edmi & Lpdi & Lmdi & Ladx & _).
  destruct (calculate_bollinger_lengths sqrtQ self rows 20 2 Hd)
    as (bu & bm & bl & Ebb & Hbm & Lbu & Lbm & Lbl).
  assert (Eatr : calculate_atr self 14
                 = Ok (rolling_mean 14
                         (true_range (high <$> rows) (low <$> rows)
                            (close <$> rows))))
    by (unfold calculate_atr; rewrite Hd; reflexivity).
  destruct (obv_run self rows Hd Hne) as (obv & Eobv & Lobv & _).
  eexists. split.
  { unfold get_all_indicators. rewrite He, Hd.
    unfold column. cbn [mbind res_bind].
    rewrite !Hma. cbn [mbind res_bind].
    rewrite !Hema by lia. cbn [mbind res_bind].
    rewrite E14. cbn [mbind res_bind]. rewrite E6. cbn [mbind res_bind].
    rewrite Emacd. cbn [mbind res_bind]. rewrite Ekdj. cbn [mbind res_bind].
    rewrite Edmi. cbn [mbind res_bind]. rewrite Ebb. cbn [mbind res_bind].
    rewrite Eatr. cbn [mbind res_bind]. rewrite Eobv. cbn [mbind res_bind].
    reflexivity. }
  cbn [table_index table_datetime table_columns].
  split; [reflexivity |]. split; [reflexivity |]. split; [reflexivity |].
  split.
  { assert (Ltr : length (true_range (high <$> rows) (low <$> rows)
                            (close <$> rows)) = length rows)
      by (rewrite length_true_range; rewrite !length_fmap; reflexivity).
    repeat (apply Forall_cons; split;
            [cbn [snd]; unfold sscale;
             rewrite ?length_rolling_mean, ?length_ewm_mean, ?Ltr,
               ?length_fmap, ?length_pct_change, ?length_fmap;
             first [ reflexivity | assumption
                   | unfold sdiv, ssub;
                     rewrite !length_zip_with; lia ] |]).
    constructor. }
  split; [reflexivity |]. split; [reflexivity |].
  split; [cbn; rewrite Hbm; reflexivity |].
  eexists _, _, _. split; [reflexivity |]. split; [reflexivity |].
  split; [reflexivity |].
  apply Hdif; apply Hema; lia.
Qed.

(** ** The constructor and the file branch of the batch *)

Lemma sequence_raises (records : list RawRecord) :
  Exists (λ r, raw_datetime r = TimeBad) records →
  sequence (to_datetime ∘ raw_datetime <$> records) = Raise ValueError.
Proof.
  induction records as [|r records IH]; intros Hex.
  - inversion Hex.
  - csimpl. destruct (raw_datetime r) eqn:Er; cbn [to_datetime mbind res_bind];
      [| | reflexivity];
      (rewrite IH; [reflexivity |]);
      (apply Exists_cons in Hex as [Hr | Hex]; [congruence | exact Hex]).
Qed.

Lemma parses_or_bad (records : list RawRecord) :
  parses records ∨ Exists (λ r, raw_datetime r = TimeBad) records.
Proof.
  induction records as [|r records [IH | IH]].
  - left. constructor.
  - destruct (raw_datetime r) eqn:Er;
      [left; constructor; [congruence | exact IH] ..
      | right; left; exact Er].
  - right. right. exact IH.
Qed.

Lemma parses_not_bad (records : list RawRecord) :
  parses records → Exists (λ r, raw_datetime r = TimeBad) records → False.
Proof.
  intros Hp Hex. apply Exists_exists in Hex as (r & Hin & Hr).
  unfold parses in Hp. rewrite Forall_forall in Hp. exact (Hp r Hin Hr).
Qed.

(** What the normalizer returns on records that parse. *)
Lemma process_frame (records : list RawRecord) :
  records ≠ [] → parses records →
  ∃ rows, _process_dataframe records = Ok (Frame rows)
          ∧ length rows = length records.
Proof.
  intros Hne Hp. destruct (process_accepts records Hp) as [dts Hseq].
  destruct (process_rows records dts _ Hseq eq_refl) as (Hlen & _).
  eexists. split; [| exact Hlen].
  unfold _process_dataframe. destruct records as [|r0 records];
    [congruence |].
  rewrite Hseq. reflexivity.
Qed.

(** X12.  The normalizer raises exactly when a [datetime] cell does not
    parse, and then a [ValueError]; an empty collection leaves
    [pd.DataFrame()] untouched and any other accepted collection gives
    a frame with its columns and as many rows as records. *)
Theorem normalizer_rejects_bad_timestamp (records : list RawRecord) :
  (_process_dataframe records = Raise ValueError
   ↔ Exists (λ r, raw_datetime r = TimeBad) records)
  ∧ (∀ e, _process_dataframe records = Raise e → e = ValueError)
  ∧ (∀ df, _process_dataframe records = Ok df →
       parses records
       ∧ (records = [] → df = NoColumns)
       ∧ (records ≠ [] →
          ∃ rows, df = Frame rows ∧ length rows = length records)).
Proof.
  assert (Hbad : Exists (λ r, raw_datetime r = TimeBad) records →
                 _process_dataframe records = Raise ValueError).
  { intros Hex. unfold _process_dataframe.
    destruct records as [|r0 records]; [inversion Hex |].
    rewrite (sequence_raises _ Hex). reflexivity. }
  assert (Hgood : parses records →
            (records = [] → _process_dataframe records = Ok NoColumns)
            ∧ (records ≠ [] →
               ∃ rows, _process_dataframe records = Ok (Frame rows)
                       ∧ length rows = length records)).
  { intros Hp. split; [intros ->; reflexivity |].
    intros Hne. apply process_frame; assumption. }
  destruct (parses_or_bad records) as [Hp | Hex].
  - destruct (Hgood Hp) as [H0 H1].
    destruct records as [|r0 records].
    + rewrite (H0 eq_refl). split; [| split].
      * split; [discriminate |]. intros Hex. inversion Hex.
      * discriminate.
      * intros df [= <-]. split; [exact Hp |].
        split; [reflexivity | congruence].
    + destruct (H1 ltac:(discriminate)) as (rows & Hrun & Hlen).
      rewrite Hrun. split; [| split].
      * split; [discriminate |].
        intros Hex. destruct (parses_not_bad _ Hp Hex).
      * discriminate.
      * intros df [= <-]. split; [exact Hp |].
        split; [discriminate |]. intros _. exists rows. split;
          [reflexivity | exact Hlen].
  - rewrite (Hbad Hex). split; [| split].
    + split; [intros _; exact Hex | reflexivity].
    + intros e [= <-]. reflexivity.
    + discriminate.
Qed.

Lemma for_each_app {S I} (body : S → I → res S) (l1 l2 : list I) (s : S) :
  for_each body (l1 ++ l2) s = (s' ← for_each body l1 s; for_each body l2 s').
Proof.
  revert s. induction l1 as [|i l1 IH]; intros s; [reflexivity |].
  cbn [app for_each]. destruct (body s i) as [s'|e]; cbn [mbind res_bind];
    [apply IH | reflexivity].
Qed.

Lemma for_each_ext {S I} (body body' : S → I → res S) (l : list I) (s : S) :
  (∀ s i, body s i = body' s i) → for_each body l s = for_each body' l s.
Proof.
  intros H. revert s. induction l as [|i l IH]; intros s; [reflexivity |].
  cbn [for_each]. rewrite H. destruct (body' s i); cbn [mbind res_bind];
    [apply IH | reflexivity].
Qed.

Section FileBatch.

Variable get_okx_candles : string → string → nat → bool → option DataFrame.

Lemma analyze_file_item_skip results name :
  analyze_file_item get_okx_candles results (name, []) = Ok results.
Proof. reflexivity. Qed.

Lemma analyze_file_item_keep results name kline_data :
  kline_data ≠ [] → parses kline_data →
  ∃ r, analyze_file_item get_okx_candles results (name, kline_data)
       = Ok (dict_set name r results)
       ∧ asset r = name
       ∧ total_candles (data_summary r) = length kline_data.
Proof.
  intros Hne Hp.
  destruct (process_frame kline_data Hne Hp) as (rows & Hrun & Hlen).
  assert (Hrows : rows ≠ [])
    by (destruct rows, kline_data; simpl in *; congruence).
  destruct (analyze_single_run
              (mkTA None "1D" 100 true (Frame rows)) name rows eq_refl Hrows)
    as (? & ? & ? & ? & ? & ? & ? & ? & ? & r & _ & _ & _ & _ & _
        & Hr & Ha & Ht & _).
  exists r. split; [| split; [exact Ha | congruence]].
  unfold analyze_file_item, __init__.
  destruct kline_data as [|r0 kline_data]; [congruence |].
  cbn [nonempty]. rewrite Hrun. cbn [mbind res_bind]. rewrite Hr.
  reflexivity.
Qed.

Lemma analyze_file_item_raises results name kline_data :
  Exists (λ r, raw_datetime r = TimeBad) kline_data →
  analyze_file_item get_okx_candles results (name, kline_data)
  = Raise ValueError.
Proof.
  intros Hex. unfold analyze_file_item, __init__, _process_dataframe.
  destruct kline_data as [|r0 kline_data]; [inversion Hex |].
  cbn [nonempty]. rewrite (sequence_raises _ Hex). reflexivity.
Qed.

Lemma analyze_file_loop (all_data items : list (string * list RawRecord)) :
  items ⊆ all_data →
  Forall (λ item, parses item.2) items →
  ∀ results : list (string * Report),
    reports_of all_data results →
    ∃ results' : list (string * Report),
      for_each (analyze_file_item get_okx_candles) items results
      = Ok results'
      ∧ keys results'
        = keys results ++ first_occurrences (keys results) (analysed items)
      ∧ reports_of all_data results'.
Proof.
  induction items as [|[name kline_data] items IH];
    intros Hsub Hall results Hinv.
  - exists results. cbn. rewrite app_nil_r. auto.
  - apply Forall_cons in Hall as [Hp Hall].
    assert (Hsub' : items ⊆ all_data)
      by (intros x Hx; apply Hsub; right; exact Hx).
    cbn [for_each]. destruct kline_data as [|r0 kline_data].
    + rewrite analyze_file_item_skip. cbn [mbind res_bind].
      exact (IH Hsub' Hall results Hinv).
    + destruct (analyze_file_item_keep results name (r0 :: kline_data)
                  ltac:(discriminate) Hp) as (r & -> & Ha & Ht).
      cbn [mbind res_bind].
      destruct (IH Hsub' Hall (dict_set name r results))
        as (results' & Hrun & Hkeys & Hinv').
      { intros name' r' Hget. rewrite dict_get_set in Hget.
        destruct (decide (name' = name)) as [-> | Hne].
        - rewrite bool_decide_eq_true_2 in Hget by reflexivity.
          injection Hget as <-. split; [exact Ha |].
          exists (r0 :: kline_data). split; [apply Hsub; left |].
          split; [discriminate | exact Ht].
        - rewrite bool_decide_eq_false_2 in Hget by exact Hne.
          exact (Hinv name' r' Hget). }
      exists results'. split; [exact Hrun |]. split; [| exact Hinv'].
      rewrite Hkeys, keys_dict_set.
      unfold analysed. cbn [List.filter nonempty snd fmap list_fmap fst
                             first_occurrences].
      destruct (bool_decide (name ∈ keys results)); [reflexivity |].
      rewrite <- app_assoc. cbn [app]. do 2 f_equal.
      apply first_occurrences_ext. intros x.
      rewrite elem_of_app, !elem_of_cons, elem_of_nil. tauto.
Qed.

End FileBatch.

(** X13.  With a data file whose records all have a [datetime] that
    parses, the batch returns normally, whatever the list of
    instruments and the exchange: the result holds the assets that have
    at least one record, each once, in the order of the file; an asset
    with an empty ['kline_1d'] is skipped; every report carries the
    name of its asset and counts the candles of an item of that name. *)
Theorem file_batch_reports
    (get_okx_candles : string → string → nat → bool → option DataFrame)
    (read_json : string → option (list (string * list RawRecord)))
    (path : string) (inst_ids : option (list string))
    (b : string) (lim : nat) (proxy : bool)
    (all_data : list (string * list RawRecord)) :
  path ≠ EmptyString →
  read_json path = Some all_data →
  Forall (λ item, parses item.2) all_data →
  ∃ results : list (string * Report),
    analyze_all_assets get_okx_candles read_json (Some path) inst_ids
      b lim proxy = Ok results
    ∧ keys results = first_occurrences [] (analysed all_data)
    ∧ (∀ name, name ∈ keys results
         ↔ ∃ kline_data, (name, kline_data) ∈ all_data ∧ kline_data ≠ [])
    ∧ reports_of all_data results.
Proof.
  intros Hpath Hread Hall.
  destruct (analyze_file_loop get_okx_candles all_data all_data
              ltac:(intros x Hx; exact Hx) Hall [])
    as (results & Hrun & Hkeys & Hinv).
  { intros name r Hget. discriminate Hget. }
  exists results. split.
  { unfold analyze_all_assets. destruct path as [|c path]; [congruence |].
    cbn [truthy_str from_option id]. rewrite Hread. exact Hrun. }
  split; [exact Hkeys |]. split; [| exact Hinv].
  intros name. rewrite Hkeys. cbn [keys fmap list_fmap app].
  rewrite elem_of_first_occurrences. unfold analysed.
  rewrite list_elem_of_fmap. split.
  - intros [([name' kline_data] & -> & Hin) _].
    apply elem_of_filter_bool in Hin as [Hin Hne].
    exists kline_data. split; [exact Hin |].
    destruct kline_data; [discriminate | discriminate].
  - intros (kline_data & Hin & Hne). split; [| apply not_elem_of_nil].
    exists (name, kline_data). split; [reflexivity |].
    apply elem_of_filter_bool. split; [exact Hin |].
    destruct kline_data; [congruence | reflexivity].
Qed.

(** X14.  The loop over a data file has no handler: the first asset with
    a [datetime] that does not parse makes the whole batch raise
    [ValueError], and the reports of the assets before it are lost. *)
Theorem file_batch_aborts
    (get_okx_candles : string → string → nat → bool → option DataFrame)
    (read_json : string → option (list (string * list RawRecord)))
    (path : string) (inst_ids : option (list string))
    (b : string) (lim : nat) (proxy : bool)
    (before after : list (string * list RawRecord))
    (name : string) (kline_data : list RawRecord) :
  path ≠ EmptyString →
  read_json path = Some (before ++ (name, kline_data) :: after) →
  Forall (λ item, parses item.2) before →
  Exists (λ r, raw_datetime r = TimeBad) kline_data →
  analyze_all_assets get_okx_candles read_json (Some path) inst_ids
    b lim proxy = Raise ValueError.
Proof.
  intros Hpath Hread Hall Hex.
  unfold analyze_all_assets. destruct path as [|c path]; [congruence |].
  cbn [truthy_str from_option id]. rewrite Hread, for_each_app.
  destruct (analyze_file_loop get_okx_candles before before
              ltac:(intros x Hx; exact Hx) Hall [])
    as (results & -> & _).
  { intros n r Hget. discriminate Hget. }
  cbn [mbind res_bind for_each].
  rewrite (analyze_file_item_raises _ _ _ _ Hex). reflexivity.
Qed.

(** X15.  How the batch chooses its source.  A data file that does not
    exist gives the empty dictionary; a data file, when named, is the
    only source: the list of instruments, the candle period and the
    exchange play no role; an empty file name counts as none; without
    a file and without instruments the result is the empty
    dictionary. *)
Theorem batch_source_choice
    (read_json : string → option (list (string * list RawRecord)))
    (get_okx_candles get_okx_candles'
       : string → string → nat → bool → option DataFrame)
    (inst_ids inst_ids' : option (list string))
    (b b' : string) (lim lim' : nat) (proxy proxy' : bool) :
  (∀ path, path ≠ EmptyString → read_json path = None →
     analyze_all_assets get_okx_candles read_json (Some path) inst_ids
       b lim proxy = Ok [])
  ∧ (∀ path, path ≠ EmptyString →
       analyze_all_assets get_okx_candles read_json (Some path) inst_ids
         b lim proxy
       = analyze_all_assets get_okx_candles' read_json (Some path) inst_ids'
           b' lim' proxy')
  ∧ analyze_all_assets get_okx_candles read_json (Some EmptyString) inst_ids
      b lim proxy
    = analyze_all_assets get_okx_candles read_json None inst_ids b lim proxy
  ∧ analyze_all_assets get_okx_candles read_json None None b lim proxy
    = Ok []
  ∧ analyze_all_assets get_okx_candles read_json None (Some []) b lim proxy
    = Ok [].
Proof.
  split; [| split; [| repeat split]].
  - intros path Hpath Hread. unfold analyze_all_assets.
    destruct path; [congruence |]. cbn [truthy_str from_option id].
    rewrite Hread. reflexivity.
  - intros path Hpath. unfold analyze_all_assets.
    destruct path; [congruence |]. cbn [truthy_str from_option id].
    destruct (read_json _) as [all_data|]; [| reflexivity].
    apply for_each_ext. intros s [name kline_data]. reflexivity.
Qed.

(** ** Instances *)


Lemma ema_recursion_witness :
  ∃ ema : Series,
    calculate_ema rising3 3 = Ok ema
    ∧ length ema = 3
    ∧ finite_series ema
    ∧ ema !! 0 = Some (Fin 1).
Proof.
  destruct (ema_recursion rising3 (imap bar_at [1; 2; 3]%Z) 3 eq_refl
              ltac:(repeat constructor) ltac:(lia))
    as (ema & E & L & F & H0 & _).
  exists ema. split; [exact E |]. split; [exact L |]. split; [exact F |].
  exact H0.
Defined.

Lemma ema_constant_witness :
  ∃ ema : Series,
    calculate_ema flat3 5 = Ok ema
    ∧ length ema = 3
    ∧ Forall (λ v, feq v (Fin 1)) ema.
Proof.
  destruct (ema_constant flat3 (imap bar_at [1; 1; 1]%Z) 5 1 eq_refl
              ltac:(lia))
    as (ema & E & L & F).
  { repeat (apply Forall_cons; split; [reflexivity |]). constructor. }
  exists ema. split; [exact E |]. split; [exact L | exact F].
Defined.



Lemma fibonacci_levels_ordered_witness :
  dict_get "0.0" (calculate_fibonacci_retracement (Fin 3) (Fin 1))
  = Some (Fin 3)
  ∧ dict_get "1.0" (calculate_fibonacci_retracement (Fin 3) (Fin 1))
    = Some (Fin 1)
  ∧ ∀ i v, (calculate_fibonacci_retracement (Fin 3) (Fin 1)).*2 !! i
           = Some v →
      ∃ x, v = Fin x ∧ (1 <= x)%Q ∧ (x <= 3)%Q.
Proof.
  destruct (fibonacci_levels_ordered 3 1
              ltac:(vm_compute; discriminate) ltac:(vm_compute; discriminate))
    as (_ & H0 & H1 & Hin & _).
  split; [exact H0 |]. split; [exact H1 |].
  intros i v Hv. destruct (Hin i v Hv) as (x & Ex & Hx & _).
  exists x. split; [exact Ex |]. apply Hx. discriminate.
Defined.


Lemma atr_defined_from_witness :
  ∃ atr : Series,
    calculate_atr zigzag4 2 = Ok atr
    ∧ length atr = 4
    ∧ defined_from 1 atr.
Proof.
  destruct (atr_defined_from zigzag4 (imap bar_at [1; 2; 1; 3]%Z) 2 eq_refl
              ltac:(repeat (apply Forall_cons; split;
                            [repeat split; vm_compute; discriminate |]);
                    constructor)
              ltac:(lia))
    as (atr & E & _ & L & D & _).
  exists atr. split; [exact E |]. split; [exact L | exact D].
Defined.

Lemma support_resistance_interior_witness :
  find_support_resistance zigzag4 2 = Ok ([], []).
Proof.
  destruct (support_resistance_interior zigzag4 (imap bar_at [1; 2; 1; 3]%Z)
              2 eq_refl)
    as (s & r & E & Hshort & _).
  destruct (Hshort ltac:(simpl; lia)) as [-> ->]. exact E.
Defined.



Lemma indicator_table_aligned_witness :
  ∃ table : IndicatorTable,
    get_all_indicators Qsqrt_floor rising3 = Ok table
    ∧ table_index table = [0; 1; 2]
    ∧ keys (table_columns table) = indicator_names
    ∧ Forall (λ c, length c.2 = 3) (table_columns table).
Proof.
  destruct (indicator_table_aligned Qsqrt_floor rising3
              (imap bar_at [1; 2; 3]%Z) eq_refl ltac:(discriminate))
    as (table & E & Hi & _ & Hk & Hl & _).
  exists table. split; [exact E |]. split; [exact Hi |].
  split; [exact Hk | exact Hl].
Defined.

Lemma file_batch_reports_witness :
  ∃ results : list (string * Report),
    analyze_all_assets sample_exchange sample_files (Some "data.json"%string)
      (Some ["BTC-USDT"%string]) "1D" 100 true = Ok results
    ∧ keys results = ["BTC"; "SOL"]%string.
Proof.
  destruct (file_batch_reports sample_exchange sample_files "data.json"
              (Some ["BTC-USDT"%string]) "1D" 100 true sample_klines
              ltac:(discriminate) eq_refl)
    as (results & E & Hk & _).
  { repeat (apply Forall_cons; split;
            [repeat constructor; discriminate |]).
    constructor. }
  exists results. split; [exact E | exact Hk].
Defined.

Lemma file_batch_aborts_witness :
  analyze_all_assets sample_exchange sample_files (Some "broken.json"%string)
    None "1D" 100 true = Raise ValueError.
Proof.
  apply (file_batch_aborts sample_exchange sample_files "broken.json" None
           "1D" 100 true
           [("BTC", [raw_candle (TimeOk 5) 1; raw_candle (TimeOk 3) 2])]%string
           [("SOL", [raw_candle TimeNull 3])]%string
           "ETH" [raw_candle (TimeOk 1) 1; raw_candle TimeBad 2]);
    [discriminate | reflexivity | |].
  - repeat (apply Forall_cons; split;
            [repeat constructor; discriminate |]).
    constructor.
  - right. left. reflexivity.
Defined.

(** ** Price structure of the snapshot *)

Lemma foldl_fmax2_Fin (qs : list Q) (x : Q) :
  ∃ m, foldl fmax2 (Fin x) (Fin <$> qs) = Fin m
       ∧ m ∈ x :: qs ∧ Forall (λ q, (q <= m)%Q) (x :: qs).
Proof.
  revert x. induction qs as [|q qs IH]; intros x.
  - exists x. split; [reflexivity |]. split; [left |].
    repeat constructor. apply Qle_refl.
  - rewrite fmap_cons. cbn [foldl]. unfold fmax2 at 2. cbn [flt].
    destruct (Qltb x q) eqn:E.
    + apply Qltb_lt in E. destruct (IH q) as (m & Hm & Hin & Hall).
      exists m. split; [exact Hm |]. split; [right; exact Hin |].
      apply Forall_cons in Hall as [Hq Hall].
      repeat (apply Forall_cons; split); [lra | exact Hq | exact Hall].
    + apply Qltb_ge in E. destruct (IH x) as (m & Hm & Hin & Hall).
      exists m. split; [exact Hm |]. split.
      * apply elem_of_cons in Hin as [-> | Hin]; [left | right; right; exact Hin].
      * apply Forall_cons in Hall as [Hx Hall].
        repeat (apply Forall_cons; split); [exact Hx | lra | exact Hall].
Qed.

Lemma foldl_fmin2_Fin (qs : list Q) (x : Q) :
  ∃ m, foldl fmin2 (Fin x) (Fin <$> qs) = Fin m
       ∧ m ∈ x :: qs ∧ Forall (λ q, (m <= q)%Q) (x :: qs).
Proof.
  revert x. induction qs as [|q qs IH]; intros x.
  - exists x. split; [reflexivity |]. split; [left |].
    repeat constructor. apply Qle_refl.
  - rewrite fmap_cons. cbn [foldl]. unfold fmin2 at 2. cbn [flt].
    destruct (Qltb q x) eqn:E.
    + apply Qltb_lt in E. destruct (IH q) as (m & Hm & Hin & Hall).
      exists m. split; [exact Hm |]. split; [right; exact Hin |].
      apply Forall_cons in Hall as [Hq Hall].
      repeat (apply Forall_cons; split); [lra | exact Hq | exact Hall].
    + apply Qltb_ge in E. destruct (IH x) as (m & Hm & Hin & Hall).
      exists m. split; [exact Hm |]. split.
      * apply elem_of_cons in Hin as [-> | Hin]; [left | right; right; exact Hin].
      * apply Forall_cons in Hall as [Hx Hall].
        repeat (apply Forall_cons; split); [exact Hx | lra | exact Hall].
Qed.

Lemma fmax_list_Fin (qs : list Q) :
  qs ≠ [] →
  ∃ m, fmax_list (Fin <$> qs) = Fin m
       ∧ m ∈ qs ∧ Forall (λ q, (q <= m)%Q) qs.
Proof.
  destruct qs as [|x qs]; [congruence |]. intros _.
  apply foldl_fmax2_Fin.
Qed.

Lemma fmin_list_Fin (qs : list Q) :
  qs ≠ [] →
  ∃ m, fmin_list (Fin <$> qs) = Fin m
       ∧ m ∈ qs ∧ Forall (λ q, (m <= q)%Q) qs.
Proof.
  destruct qs as [|x qs]; [congruence |]. intros _.
  apply foldl_fmin2_Fin.
Qed.

Lemma filter_notna_Fin (qs : list Q) :
  List.filter notna (Fin <$> qs) = Fin <$> qs.
Proof.
  apply filter_all, Forall_fmap, Forall_forall. intros q _. reflexivity.
Qed.

(** The whole report of [_analyze_single_asset] on a non-empty series. *)
Lemma analyze_single_report (ta : TechnicalAnalysis) (name : string)
    (rows : list Row) (first_row last_row : Row) :
  data ta = Frame rows →
  rows !! 0 = Some first_row → last rows = Some last_row →
  ∃ ma5 ma20 adx rsi dif : option fval,
    _analyze_single_asset ta name
    = Ok (Some (mkReport name
                  (mkIndicators ma5 ma20 adx rsi dif
                     (calculate_fibonacci_retracement
                        (smax (high <$> rows)) (smin (low <$> rows)))
                     (close last_row)
                     ((close last_row - close first_row) / close first_row
                      * hundred)%F)
                  (mkSummary (length rows) (Some (datetime first_row))
                     (Some (datetime last_row))))).
Proof.
  intros Hdata Hfirst Hlast.
  assert (Hrows : rows ≠ []) by (intros ->; discriminate Hfirst).
  assert (Hn : 1 ≤ length rows) by (destruct rows; simpl; [congruence | lia]).
  assert (∃ rest, rows = first_row :: rest) as (rest & Erows).
  { destruct rows as [|r0 rest]; [congruence |].
    injection Hfirst as ->. eauto. }
  destruct (calculate_dmi_prefix ta rows Hdata 14 ltac:(lia))
    as (plus_di & minus_di & adx & Hdmi & _).
  destruct (calculate_rsi_prefix ta rows 14 Hdata) as (rsi & Hrsi & _).
  destruct (calculate_macd_frame ta rows 12 26 9 Hdata)
    as (dif & dea & hist & Hmacd & _); [lia .. |].
  assert (Hma : ∀ p, calculate_ma ta p = Ok (rolling_mean p (close <$> rows)))
    by (intros p; unfold calculate_ma; rewrite Hdata; reflexivity).
  assert (Lma : ∀ p, rolling_mean p (close <$> rows) ≠ []).
  { intros p. apply nonempty_length. unfold rolling_mean.
    rewrite length_rolling, length_fmap. exact Hn. }
  eexists _, _, _, _, _.
  unfold _analyze_single_asset, empty, len. rewrite Hdata.
  cbn [rows_of].
  rewrite Erows at 1. rewrite !Hma, !last_if_guard by apply Lma.
  cbn [mbind res_bind]. rewrite Hdmi. cbn [mbind res_bind].
  rewrite last_if_nonempty. cbn [mbind res_bind].
  rewrite Hrsi. cbn [mbind res_bind].
  rewrite last_if_nonempty. cbn [mbind res_bind].
  rewrite Hmacd. cbn [mbind res_bind].
  rewrite last_if_nonempty. cbn [mbind res_bind].
  unfold column, iloc_last, iloc. cbn [mbind res_bind].
  rewrite !fmap_last, !list_lookup_fmap, Hlast, Hfirst.
  cbn [fmap option_fmap option_map mbind res_bind].
  rewrite (proj2 (Nat.ltb_lt 0 (length rows))) by lia.
  unfold last_if_time. cbn [mbind res_bind]. reflexivity.
Qed.

(** X16.  The price structure of the snapshot.  On a non-empty series
    with finite highs and lows the snapshot is produced whatever the
    closes are (a first close of zero gives a NaN or infinite change,
    not an exception): its current price is the close of the last
    candle, its change is measured from the close of the first one,
    its date range runs from the first to the last candle, and its
    Fibonacci levels run from the largest high of the series down to
    its smallest low. *)
Theorem snapshot_price_structure (ta : TechnicalAnalysis) (name : string)
    (rows : list Row) :
  data ta = Frame rows → rows ≠ [] →
  finite_series (high <$> rows) → finite_series (low <$> rows) →
  ∃ (report : Report) (first_row last_row : Row) (hmax lmin : Q),
    _analyze_single_asset ta name = Ok (Some report)
    ∧ rows !! 0 = Some first_row ∧ last rows = Some last_row
    ∧ asset report = name
    ∧ total_candles (data_summary report) = length rows
    ∧ date_start (data_summary report) = Some (datetime first_row)
    ∧ date_end (data_summary report) = Some (datetime last_row)
    ∧ Current_Price (indicators report) = close last_row
    ∧ Price_Change_pct (indicators report)
      = ((close last_row - close first_row) / close first_row * hundred)%F
    ∧ Fib_Levels (indicators report)
      = calculate_fibonacci_retracement (Fin hmax) (Fin lmin)
    ∧ Fin hmax ∈ high <$> rows
    ∧ (∀ h, Fin h ∈ high <$> rows → (h <= hmax)%Q)
    ∧ Fin lmin ∈ low <$> rows
    ∧ (∀ l, Fin l ∈ low <$> rows → (lmin <= l)%Q).
Proof.
  intros Hdata Hrows Hh Hl.
  destruct (rows !! 0) as [first_row|] eqn:Hfirst;
    [| destruct rows; [congruence | discriminate Hfirst]].
  destruct (last rows) as [last_row|] eqn:Hlast;
    [| apply last_None in Hlast; congruence].
  destruct (finite_series_Fin _ Hh) as [hs Ehs].
  destruct (finite_series_Fin _ Hl) as [ls Els].
  assert (Hhs : hs ≠ [])
    by (intros ->; destruct rows; [congruence | discriminate Ehs]).
  assert (Hls : ls ≠ [])
    by (intros ->; destruct rows; [congruence | discriminate Els]).
  destruct (fmax_list_Fin hs Hhs) as (hmax & Emax & Hin & Hall).
  destruct (fmin_list_Fin ls Hls) as (lmin & Emin & Hin' & Hall').
  destruct (analyze_single_report ta name rows first_row last_row
              Hdata Hfirst Hlast)
    as (ma5 & ma20 & adx & rsi & dif & Hrun).
  eexists _, first_row, last_row, hmax, lmin.
  split; [exact Hrun |].
  cbn [asset data_summary total_candles date_start date_end indicators
       Current_Price Price_Change_pct Fib_Levels].
  do 8 (split; [reflexivity |]).
  split.
  { unfold smax, smin. rewrite Ehs, Els, !filter_notna_Fin, Emax, Emin.
    reflexivity. }
  rewrite Ehs, Els. rewrite Forall_forall in Hall, Hall'.
  split; [apply list_elem_of_fmap; exists hmax; auto |].
  split.
  { intros h Hx. apply list_elem_of_fmap in Hx as (h' & [= ->] & Hx).
    exact (Hall h' Hx). }
  split; [apply list_elem_of_fmap; exists lmin; auto |].
  intros l Hx. apply list_elem_of_fmap in Hx as (l' & [= ->] & Hx).
  exact (Hall' l' Hx).
Qed.

Lemma snapshot_price_structure_witness :
  ∃ report : Report,
    _analyze_single_asset zigzag4 "BTC-USDT" = Ok (Some report)
    ∧ total_candles (data_summary report) = 4
    ∧ date_start (data_summary report) = Some (At 0)
    ∧ date_end (data_summary report) = Some (At 3)
    ∧ Current_Price (indicators report) = Fin 3.
Proof.
  destruct (snapshot_price_structure zigzag4 "BTC-USDT"
              (imap bar_at [1; 2; 1; 3]%Z) eq_refl ltac:(discriminate)
              ltac:(repeat constructor) ltac:(repeat constructor))
    as (report & r0 & r1 & hmax & lmin & E & H0 & H1 & _ & Ht & Hs & He
        & Hc & _).
  injection H0 as <-. injection H1 as <-.
  exists report. split; [exact E |]. split; [exact Ht |].
  split; [exact Hs |]. split; [exact He | exact Hc].
Defined.

(** ** The candle request *)

Lemma okx_row_clean (i : nat) (c : RawRecord) :
  clean c = true →
  ∃ dt, to_datetime (raw_datetime c) = Ok dt
        ∧ okx_row i c = Ok (row_of (i, (dt, c))).
Proof.
  unfold clean, okx_row, row_of, ts_converts, ts_to_datetime.
  destruct c as [t o h l cl v]. cbn [raw_datetime raw_open raw_high raw_low
    raw_close raw_vol fst snd].
  destruct t as [ms| |]; [destruct (Z.abs ms <=? ts_limit)%Z | |];
    destruct o, h, l, cl, v; cbn; try discriminate; intros _;
    eexists; split; reflexivity.
Qed.

Lemma okx_row_unclean (i : nat) (c : RawRecord) :
  clean c = false → okx_row i c = Raise ValueError.
Proof.
  unfold clean, okx_row, ts_converts, ts_to_datetime.
  destruct c as [t o h l cl v]. cbn [raw_datetime raw_open raw_high raw_low
    raw_close raw_vol].
  destruct t as [ms| |]; [destruct (Z.abs ms <=? ts_limit)%Z | |];
    destruct o, h, l, cl, v; cbn; try discriminate; reflexivity.
Qed.

Lemma okx_rows_clean (candles : list RawRecord) (dts : list Timestamp) :
  Forall (λ c, clean c = true) candles →
  sequence (to_datetime ∘ raw_datetime <$> candles) = Ok dts →
  ∀ k, sequence (imap (λ i, okx_row (k + i)) candles)
       = Ok (row_of <$> zip (seq k (length candles)) (zip dts candles)).
Proof.
  intros Hall. revert dts.
  induction Hall as [|c candles Hc _ IH]; intros dts Hseq k.
  - injection Hseq as <-. reflexivity.
  - csimpl in Hseq.
    destruct (okx_row_clean (k + 0) c Hc) as (dt & Hdt & Hrow).
    rewrite Hdt in Hseq. cbn [mbind res_bind] in Hseq.
    destruct (sequence (to_datetime ∘ raw_datetime <$> candles))
      as [dts'|e] eqn:E; [| discriminate Hseq].
    cbn [mbind res_bind] in Hseq. injection Hseq as <-.
    cbn [imap sequence foldr length seq zip zip_with fmap list_fmap].
    fold (@sequence Row). rewrite Hrow. cbn [mbind res_bind].
    rewrite (imap_ext _ (λ i, okx_row (S k + i)))
      by (intros i x _; cbn; f_equal; lia).
    fold (@sequence Row) in *.
    change (foldr _ _ ?l) with (sequence l).
    rewrite (IH dts' eq_refl (S k)). cbn [mbind res_bind].
    rewrite Nat.add_0_r. reflexivity.
Qed.

Lemma okx_rows_unclean (candles : list RawRecord) :
  Exists (λ c, clean c = false) candles →
  ∀ k, sequence (imap (λ i, okx_row (k + i)) candles) = Raise ValueError.
Proof.
  induction candles as [|c candles IH]; intros Hex k; [inversion Hex |].
  cbn [imap sequence foldr]. change (foldr _ _ ?l) with (sequence l).
  rewrite (imap_ext _ (λ i, okx_row (S k + i)))
    by (intros i x _; cbn; f_equal; lia).
  destruct (clean c) eqn:Hc.
  - destruct (okx_row_clean (k + 0) c Hc) as (dt & _ & ->).
    cbn [mbind res_bind]. rewrite IH; [reflexivity |].
    apply Exists_cons in Hex as [Hex | Hex]; [congruence | exact Hex].
  - rewrite (okx_row_unclean _ c Hc). reflexivity.
Qed.

Lemma clean_or_not (candles : list RawRecord) :
  Forall (λ c, clean c = true) candles
  ∨ Exists (λ c, clean c = false) candles.
Proof.
  induction candles as [|c candles [IH | IH]].
  - left. constructor.
  - destruct (clean c) eqn:Hc;
      [left; constructor; assumption | right; left; exact Hc].
  - right. right. exact IH.
Qed.

Lemma clean_parses (candles : list RawRecord) :
  Forall (λ c, clean c = true) candles → parses candles.
Proof.
  intros H. eapply Forall_impl; [exact H |].
  intros c Hc Hbad. unfold clean in Hc.
  rewrite Hbad in Hc. cbn in Hc. discriminate Hc.
Qed.

Lemma datetime_relabel (rows : list Row) :
  datetime <$> relabel rows = datetime <$> rows.
Proof.
  unfold relabel. rewrite fmap_imap.
  rewrite (imap_ext _ (λ _ r, datetime r)) by reflexivity.
  apply imap_const.
Qed.

Lemma candle_relabel (rows : list Row) :
  candle_of_row <$> relabel rows = candle_of_row <$> rows.
Proof.
  unfold relabel. rewrite fmap_imap.
  rewrite (imap_ext _ (λ _ r, candle_of_row r)) by reflexivity.
  apply imap_const.
Qed.

Lemma label_relabel (rows : list Row) :
  label <$> relabel rows = seq 0 (length rows).
Proof.
  unfold relabel. rewrite fmap_imap.
  rewrite (imap_ext _ (λ i _, i)) by reflexivity.
  rewrite (imap_seq_0 rows (λ i, i)). apply list_fmap_id.
Qed.

Lemma ts_to_datetime_clean (candles : list RawRecord) :
  Forall (λ c, clean c = true) candles →
  ts_to_datetime ∘ raw_datetime <$> candles
  = to_datetime ∘ raw_datetime <$> candles.
Proof.
  intros Hall. apply Forall_fmap_ext_1.
  eapply Forall_impl; [exact Hall |].
  intros c Hc. unfold clean, ts_converts in Hc. cbn.
  unfold ts_to_datetime.
  destruct (raw_datetime c) as [ms| |]; [| reflexivity ..].
  destruct (Z.abs ms <=? ts_limit)%Z; [reflexivity | discriminate Hc].
Qed.

(** The frame made of the rows of a reply that all convert. *)
Lemma okx_frame_clean (candles : list RawRecord) :
  Forall (λ c, clean c = true) candles →
  ∃ rows dts,
    okx_frame candles = Ok (Frame rows)
    ∧ sequence (ts_to_datetime ∘ raw_datetime <$> candles) = Ok dts
    ∧ length rows = length candles
    ∧ label <$> rows = seq 0 (length candles)
    ∧ candle_of_row <$> rows ≡ₚ candle_of_raw <$> zip dts candles
    ∧ ascending rows
    ∧ (NoDup (raw_datetime <$> candles) → strictly_ascending rows).
Proof.
  intros Hall.
  destruct (process_accepts candles (clean_parses _ Hall)) as [dts Hseq].
  pose proof (okx_rows_clean candles dts Hall Hseq 0) as Hrows.
  cbn [Nat.add] in Hrows.
  rewrite (imap_ext _ okx_row) in Hrows by reflexivity.
  set (rows := row_of <$> zip (seq 0 (length candles)) (zip dts candles))
    in *.
  assert (Ldts : length dts = length candles).
  { apply sequence_ok in Hseq. apply (f_equal length) in Hseq.
    rewrite !length_fmap in Hseq. lia. }
  assert (Lrows : length rows = length candles).
  { unfold rows. rewrite length_fmap, !length_zip, length_seq. lia. }
  pose proof (merge_sort_Permutation
                (λ x y : Row, ts_le (datetime x) (datetime y)) rows)
    as Hperm.
  fold (sort_values datetime rows) in Hperm.
  assert (Hasc : ascending (relabel (sort_values datetime rows))).
  { intros i j r r' Hij Hr Hr'.
    assert (Hs : StronglySorted ts_le
                   (datetime <$> relabel (sort_values datetime rows))).
    { rewrite datetime_relabel.
      apply StronglySorted_fmap
        with (R1 := λ x y : Row, ts_le (datetime x) (datetime y));
        [auto |].
      apply StronglySorted_merge_sort; apply _. }
    apply (StronglySorted_lookup ts_le _ i j _ _ Hs Hij);
      rewrite list_lookup_fmap; [rewrite Hr | rewrite Hr']; reflexivity. }
  assert (Htime : datetime <$> relabel (sort_values datetime rows) ≡ₚ dts).
  { rewrite datetime_relabel, Hperm. unfold rows.
    rewrite <- list_fmap_compose.
    change (datetime ∘ row_of)
      with ((@fst Timestamp RawRecord)
            ∘ (@snd nat (Timestamp * RawRecord))).
    rewrite list_fmap_compose.
    rewrite snd_zip by (rewrite length_zip, length_seq; lia).
    rewrite fst_zip by lia. reflexivity. }
  exists (relabel (sort_values datetime rows)), dts.
  split; [unfold okx_frame; rewrite Hrows; reflexivity |].
  split; [rewrite (ts_to_datetime_clean candles Hall); exact Hseq |].
  split.
  { unfold relabel. rewrite length_imap, (Permutation_length Hperm).
    exact Lrows. }
  split.
  { rewrite label_relabel, (Permutation_length Hperm), Lrows. reflexivity. }
  split.
  { rewrite candle_relabel, Hperm. unfold rows.
    rewrite <- list_fmap_compose.
    change (candle_of_row ∘ row_of)
      with (candle_of_raw ∘ (@snd nat (Timestamp * RawRecord))).
    rewrite list_fmap_compose.
    rewrite snd_zip by (rewrite length_zip, length_seq; lia).
    reflexivity. }
  split; [exact Hasc |].
  intros Hnd. apply ascending_nodup_strict; [exact Hasc |].
  rewrite Htime. apply sequence_ok in Hseq.
  apply (NoDup_fmap_1 Ok). rewrite <- Hseq, list_fmap_compose.
  apply NoDup_fmap_2; [apply _ | exact Hnd].
Qed.

Lemma okx_frame_unclean (candles : list RawRecord) :
  Exists (λ c, clean c = false) candles →
  okx_frame candles = Raise ValueError.
Proof.
  intros Hex. unfold okx_frame.
  pose proof (okx_rows_unclean candles Hex 0) as H. cbn [Nat.add] in H.
  rewrite (imap_ext _ okx_row) in H by reflexivity.
  rewrite H. reflexivity.
Qed.

(** X17.  [get_okx_candles] gives [None] exactly when the request
    fails, the reply carries a code other than ['0'], or some cell of
    the reply does not convert: a cell that is not a number (no bad
    cell is coerced to NaN here, unlike in the normalizer) or a ['ts']
    beyond the range of [datetime64[ns]]; it never gives
    [pd.DataFrame()].  A reply with code ['0'] whose cells all convert
    gives a frame with the columns, the same candles, labelled 0..n-1
    in ascending order of time, strictly so when the times are
    distinct; an empty reply gives an empty frame with its columns. *)
Theorem okx_candles_frame
    (request : string → string → nat → bool → OkxReply)
    (inst_id b : string) (lim : nat) (proxy : bool) :
  (get_okx_candles request inst_id b lim proxy = None
   ↔ request inst_id b lim proxy = RequestError
     ∨ ∃ code candles, request inst_id b lim proxy = Reply code candles
         ∧ (code ≠ "0"%string ∨ Exists (λ c, clean c = false) candles))
  ∧ get_okx_candles request inst_id b lim proxy ≠ Some NoColumns
  ∧ (request inst_id b lim proxy = Reply "0" [] →
     get_okx_candles request inst_id b lim proxy = Some (Frame []))
  ∧ ∀ candles, request inst_id b lim proxy = Reply "0" candles →
      Forall (λ c, clean c = true) candles →
      ∃ rows dts,
        get_okx_candles request inst_id b lim proxy = Some (Frame rows)
        ∧ sequence (ts_to_datetime ∘ raw_datetime <$> candles) = Ok dts
        ∧ length rows = length candles
        ∧ label <$> rows = seq 0 (length candles)
        ∧ candle_of_row <$> rows ≡ₚ candle_of_raw <$> zip dts candles
        ∧ ascending rows
        ∧ (NoDup (raw_datetime <$> candles) → strictly_ascending rows).
Proof.
  unfold get_okx_candles.
  destruct (request inst_id b lim proxy) as [|code candles] eqn:Hreq.
  { split; [split; [auto | reflexivity] |].
    split; [discriminate |]. split; discriminate. }
  destruct (String.eqb_spec code "0") as [-> | Hcode]; cbn [negb].
  - destruct (clean_or_not candles) as [Hall | Hex].
    + destruct (okx_frame_clean candles Hall)
        as (rows & dts & Hrun & Hrest).
      rewrite Hrun. split; [| split; [discriminate | split]].
      * split; [discriminate |].
        intros [H | (code & candles' & [= <- <-] & [H | H])];
          [discriminate | congruence |].
        apply Exists_exists in H as (c & Hin & Hc).
        rewrite Forall_forall in Hall. rewrite (Hall c Hin) in Hc.
        discriminate Hc.
      * intros [= ->]. cbn in Hrun. injection Hrun as <-. reflexivity.
      * intros candles' [= <-] _. exists rows, dts.
        split; [reflexivity | exact Hrest].
    + rewrite (okx_frame_unclean candles Hex).
      split; [| split; [discriminate | split]].
      * split; [| reflexivity]. intros _. right. exists "0"%string, candles.
        split; [reflexivity | right; exact Hex].
      * intros [= ->]. inversion Hex.
      * intros candles' [= <-] Hall.
        apply Exists_exists in Hex as (c & Hin & Hc).
        rewrite Forall_forall in Hall. rewrite (Hall c Hin) in Hc.
        discriminate Hc.
  - split; [| split; [discriminate | split]].
    + split; [| reflexivity]. intros _. right. exists code, candles.
      split; [reflexivity | left; exact Hcode].
    + intros [= -> _]. congruence.
    + intros candles' [= -> _]. congruence.
Qed.

Lemma has_data_answers (request : string → string → nat → bool → OkxReply)
    (b : string) (lim : nat) (proxy : bool) (inst_id : string) :
  has_data (get_okx_candles request) b lim proxy inst_id
  = answers request b lim proxy inst_id.
Proof.
  unfold has_data, fetched, answers, get_okx_candles.
  destruct (request inst_id b lim proxy) as [|code candles]; [reflexivity |].
  destruct (String.eqb code "0"); cbn [negb andb];
    [| destruct candles; reflexivity].
  destruct (clean_or_not candles) as [Hall | Hex].
  - destruct (okx_frame_clean candles Hall)
      as (rows & dts & -> & _ & Hlen & _).
    destruct candles as [|c candles];
      [destruct rows; [reflexivity | discriminate Hlen] |].
    destruct rows as [|r rows]; [discriminate Hlen |].
    cbn [empty rows_of negb]. symmetry. apply forallb_forall.
    intros x Hx. apply list_elem_of_In in Hx.
    rewrite Forall_forall in Hall. exact (Hall x Hx).
  - rewrite (okx_frame_unclean candles Hex). cbn [empty rows_of negb].
    destruct candles as [|c candles]; [reflexivity |].
    symmetry. apply not_true_is_false. intros Hall.
    apply Exists_exists in Hex as (x & Hx & Hc).
    rewrite forallb_forall in Hall.
    apply list_elem_of_In in Hx. rewrite (Hall x Hx) in Hc. discriminate Hc.
Qed.

(** X18.  The batch over instruments, with the exchange behind it: it
    returns normally whatever the exchange does, and its result holds
    the instruments for which the exchange answers with code ['0'] and
    at least one candle, all cells converting (numbers, and every
    ['ts'] within the range of [datetime64[ns]]), each once in the
    order of first occurrence; every report carries the name of its
    instrument and counts the candles of its reply. *)
Theorem api_batch_instruments
    (request : string → string → nat → bool → OkxReply)
    (read_json : string → option (list (string * list RawRecord)))
    (ids : list string) (b : string) (lim : nat) (proxy : bool) :
  ∃ results : list (string * Report),
    analyze_all_assets (get_okx_candles request) read_json None (Some ids)
      b lim proxy = Ok results
    ∧ keys results
      = first_occurrences [] (List.filter (answers request b lim proxy) ids)
    ∧ ∀ id r, dict_get id results = Some r →
        asset r = id
        ∧ ∃ candles, request id b lim proxy = Reply "0" candles
            ∧ Forall (λ c, clean c = true) candles
            ∧ total_candles (data_summary r) = length candles.
Proof.
  destruct (analyze_loop (get_okx_candles request) read_json b lim proxy ids [])
    as (results & Hrun & Hkeys & Hval & Hold).
  exists results. split.
  { unfold analyze_all_assets. cbn [truthy_str].
    destruct ids as [|id ids]; [| exact Hrun].
    simpl in Hrun. congruence. }
  split.
  { rewrite Hkeys. cbn [keys fmap list_fmap app]. f_equal.
    clear. induction ids as [|id ids IH]; [reflexivity |].
    cbn [List.filter]. rewrite has_data_answers, IH. reflexivity. }
  intros id r Hget.
  destruct (decide (id ∈ ids)) as [Hin | Hin];
    [| rewrite Hold in Hget by tauto; discriminate Hget].
  destruct (has_data (get_okx_candles request) b lim proxy id) eqn:Hhas;
    [| rewrite Hold in Hget by (rewrite Hhas; intros [_ H]; discriminate H);
       discriminate Hget].
  pose proof Hhas as Hans. rewrite has_data_answers in Hans.
  unfold answers in Hans.
  destruct (request id b lim proxy) as [|code candles] eqn:Hreq;
    [discriminate Hans |].
  destruct candles as [|c candles]; [discriminate Hans |].
  apply andb_true_iff in Hans as [Hcode Hclean].
  apply String.eqb_eq in Hcode as ->.
  assert (Hall : Forall (λ c, clean c = true) (c :: candles)).
  { apply Forall_forall. intros x Hx. rewrite forallb_forall in Hclean.
    apply Hclean, list_elem_of_In, Hx. }
  destruct (okx_frame_clean (c :: candles) Hall)
    as (rows & dts & Hframe & _ & Hlen & _).
  assert (Hdata : data (instance_of (get_okx_candles request) b lim proxy id)
                  = Frame rows).
  { unfold instance_of, fetched, get_okx_candles. cbn [data].
    rewrite Hreq. cbn [String.eqb Ascii.eqb Bool.eqb negb].
    rewrite Hframe. reflexivity. }
  assert (Hrows : rows ≠ []) by (intros ->; discriminate Hlen).
  destruct (analyze_single_run _ id rows Hdata Hrows)
    as (? & ? & ? & ? & ? & ? & ? & ? & ? & r' & _ & _ & _ & _ & _
        & Hr & Ha & Ht & _).
  rewrite (Hval id r' Hin Hhas Hr) in Hget. injection Hget as <-.
  split; [exact Ha |]. exists (c :: candles).
  split; [reflexivity |]. split; [exact Hall | congruence].
Qed.

(** ** Ranges of the DMI columns *)

Lemma Forall_zip_with_2 {A B C} (f : A → B → C) (P : A → Prop)
    (R : B → Prop) (S : C → Prop) (a : list A) (b : list B) :
  (∀ x y, P x → R y → S (f x y)) →
  Forall P a → Forall R b → Forall S (zip_with f a b).
Proof.
  intros Hf Ha. revert b. induction Ha as [|x a Hx _ IH]; intros b Hb.
  - constructor.
  - destruct Hb as [|y b Hy Hb]; [constructor |].
    cbn [zip_with]. constructor; [exact (Hf x y Hx Hy) | exact (IH b Hb)].
Qed.

Lemma nan_or_mono (P R : Q → Prop) (v : fval) :
  (∀ q, P q → R q) → nan_or P v → nan_or R v.
Proof. intros H. destruct v; simpl; auto. Qed.



















(** ** Ranges of the KDJ columns *)

(** The low of the window of [rolling_min]: missing, or a number that
    is not above the cell at its position. *)
Lemma rolling_min_cell (w : nat) (qs : list Q) (i : nat) (x : Q) :
  qs !! i = Some x →
  ∃ v, rolling_min w (Fin <$> qs) !! i = Some v
       ∧ nan_or (λ m, (m <= x)%Q) v.
Proof.
  intros Hx. pose proof (lookup_lt_Some _ _ _ Hx) as Hi.
  unfold rolling_min. rewrite lookup_rolling by (rewrite length_fmap; lia).
  cbv zeta. eexists. split; [reflexivity |].
  rewrite observations_finite by apply finite_series_fmap_Fin.
  rewrite window_fmap, length_fmap, length_drop, length_take.
  set (ws := drop (i + 1 - w) (take (i + 1) qs)).
  destruct (Nat.leb_spec w (Nat.min (i + 1) (length qs) - (i + 1 - w)))
    as [Hw | Hw]; cbn [andb]; [| exact I].
  destruct (Nat.leb_spec 1 (Nat.min (i + 1) (length qs) - (i + 1 - w)))
    as [H1 | H1]; [| exact I].
  assert (Hin : x ∈ ws).
  { apply list_elem_of_lookup. exists (w - 1). unfold ws.
    rewrite lookup_drop, lookup_take.
    destruct (decide (i + 1 - w + (w - 1) < i + 1)) as [_ | Hn]; [| lia].
    replace (i + 1 - w + (w - 1)) with i by lia. exact Hx. }
  destruct (fmin_list_Fin ws) as (m & -> & _ & Hall).
  { intros E. rewrite E in Hin. apply elem_of_nil in Hin. exact Hin. }
  rewrite Forall_forall in Hall. exact (Hall x Hin).
Qed.

Lemma rolling_max_cell (w : nat) (qs : list Q) (i : nat) (x : Q) :
  qs !! i = Some x →
  ∃ v, rolling_max w (Fin <$> qs) !! i = Some v
       ∧ nan_or (λ m, (x <= m)%Q) v.
Proof.
  intros Hx. pose proof (lookup_lt_Some _ _ _ Hx) as Hi.
  unfold rolling_max. rewrite lookup_rolling by (rewrite length_fmap; lia).
  cbv zeta. eexists. split; [reflexivity |].
  rewrite observations_finite by apply finite_series_fmap_Fin.
  rewrite window_fmap, length_fmap, length_drop, length_take.
  set (ws := drop (i + 1 - w) (take (i + 1) qs)).
  destruct (Nat.leb_spec w (Nat.min (i + 1) (length qs) - (i + 1 - w)))
    as [Hw | Hw]; cbn [andb]; [| exact I].
  destruct (Nat.leb_spec 1 (Nat.min (i + 1) (length qs) - (i + 1 - w)))
    as [H1 | H1]; [| exact I].
  assert (Hin : x ∈ ws).
  { apply list_elem_of_lookup. exists (w - 1). unfold ws.
    rewrite lookup_drop, lookup_take.
    destruct (decide (i + 1 - w + (w - 1) < i + 1)) as [_ | Hn]; [| lia].
    replace (i + 1 - w + (w - 1)) with i by lia. exact Hx. }
  destruct (fmax_list_Fin ws) as (m & -> & _ & Hall).
  { intros E. rewrite E in Hin. apply elem_of_nil in Hin. exact Hin. }
  rewrite Forall_forall in Hall. exact (Hall x Hin).
Qed.

(** [(c - lo) / (hi - lo) * 100] when [lo <= c <= hi]. *)
Lemma rsv_cell (c : Q) (lo hi : fval) :
  nan_or (λ m, (m <= c)%Q) lo → nan_or (λ m, (c <= m)%Q) hi →
  nan_or (within 0 100) (hundred * ((Fin c - lo) / (hi - lo)))%F.
Proof.
  unfold hundred.
  destruct lo as [| | |m], hi as [| | |M]; cbn [nan_or]; try tauto;
    try (intros; exact I).
  intros Hm HM. cbn [fsub fneg fadd fdiv].
  destruct (Qeq_bool (M + - m) 0) eqn:E.
  - apply Qeq_bool_eq in E.
    assert (H0 : (c + - m == 0)%Q) by lra.
    rewrite (Qeq_eq_bool _ _ H0). exact I.
  - apply Qeq_bool_neq in E. cbn [fmul nan_or]. unfold within.
    assert (Hpos : (0 < M + - m)%Q).
    { destruct (Qlt_le_dec 0 (M + - m)) as [H | H]; [exact H |].
      exfalso. apply E. lra. }
    assert (H1 : (0 <= (c + - m) / (M + - m))%Q)
      by (apply Qle_shift_div_l; [exact Hpos | lra]).
    assert (H2 : ((c + - m) / (M + - m) <= 1)%Q)
      by (apply Qle_shift_div_r; [exact Hpos | lra]).
    split; lra.
Qed.

Lemma kdj_rsv_range (rows : list Row) (n : nat) :
  prices_finite rows →
  Forall (λ r, fle (low r) (close r) = true
               ∧ fle (close r) (high r) = true) rows →
  Forall (nan_or (within 0 100))
    (sscale hundred
       (sdiv (ssub (close <$> rows) (rolling_min n (low <$> rows)))
             (ssub (rolling_max n (high <$> rows))
                   (rolling_min n (low <$> rows))))).
Proof.
  intros Hf Hord.
  assert (Hh : finite_series (high <$> rows)).
  { apply Forall_fmap. eapply Forall_impl; [exact Hf |].
    intros r (H & _ & _). exact H. }
  assert (Hl : finite_series (low <$> rows)).
  { apply Forall_fmap. eapply Forall_impl; [exact Hf |].
    intros r (_ & H & _). exact H. }
  destruct (finite_series_Fin _ Hh) as [hs Ehs].
  destruct (finite_series_Fin _ Hl) as [ls Els].
  rewrite Ehs, Els.
  apply Forall_lookup. intros i v Hv.
  unfold sscale, sdiv, ssub in Hv.
  rewrite list_lookup_fmap in Hv.
  destruct (zip_with fdiv _ _ !! i) as [q|] eqn:Hq; [| discriminate Hv].
  injection Hv as <-.
  apply lookup_zip_with_Some in Hq as (a & b & -> & Ha & Hb).
  apply lookup_zip_with_Some in Ha as (c & lo & -> & Hc & Hlo).
  apply lookup_zip_with_Some in Hb as (hi & lo' & -> & Hhi & Hlo').
  rewrite Hlo in Hlo'. injection Hlo' as <-.
  rewrite list_lookup_fmap in Hc.
  destruct (rows !! i) as [r|] eqn:Hr; [| discriminate Hc].
  injection Hc as <-.
  unfold prices_finite in Hf. rewrite Forall_lookup in Hf, Hord.
  destruct (Hf i r Hr) as (Fh & Fl & Fc).
  destruct (Hord i r Hr) as (Hlc & Hch).
  destruct (high r) as [| | |h] eqn:Eh; try discriminate Fh.
  destruct (low r) as [| | |l] eqn:El; try discriminate Fl.
  destruct (close r) as [| | |c] eqn:Ec; try discriminate Fc.
  cbn [fle] in Hlc, Hch. apply Qle_bool_iff in Hlc, Hch.
  assert (Hls : ls !! i = Some l).
  { apply (f_equal (λ s, s !! i)) in Els.
    rewrite !list_lookup_fmap, Hr in Els. cbn in Els. rewrite El in Els.
    destruct (ls !! i); [injection Els as <-; reflexivity | discriminate]. }
  assert (Hhs : hs !! i = Some h).
  { apply (f_equal (λ s, s !! i)) in Ehs.
    rewrite !list_lookup_fmap, Hr in Ehs. cbn in Ehs. rewrite Eh in Ehs.
    destruct (hs !! i); [injection Ehs as <-; reflexivity | discriminate]. }
  destruct (rolling_min_cell n ls i l Hls) as (lo'' & Elo & Plo).
  destruct (rolling_max_cell n hs i h Hhs) as (hi'' & Ehi & Phi).
  rewrite Hlo in Elo. injection Elo as <-.
  rewrite Hhi in Ehi. injection Ehi as <-.
  apply rsv_cell.
  - eapply nan_or_mono; [| exact Plo]. intros m Hm. cbv beta in *. lra.
  - eapply nan_or_mono; [| exact Phi]. intros m Hm. cbv beta in *. lra.
Qed.

(** The smoothing keeps a range: every value it gives is an average of
    values it has read. *)
Lemma ewm_go_range (lo hi a : Q) (vals : Series) :
  (0 < a)%Q → (a <= 1)%Q →
  Forall (nan_or (within lo hi)) vals →
  ∀ (weighted : fval) (o : Q),
    nan_or (within lo hi) weighted → (0 <= o)%Q →
    Forall (nan_or (within lo hi)) (ewm_go (Fin a) weighted (Fin o) vals).
Proof.
  intros Ha0 Ha1. induction 1 as [|cur vals Hcur _ IH];
    intros weighted o Hw Ho; [constructor |].
  cbn [ewm_go].
  destruct weighted as [| | |w]; cbn [nan_or] in Hw; try contradiction.
  - cbn [notna isnan negb].
    destruct cur as [| | |c]; cbn [nan_or] in Hcur; try contradiction;
      cbn [notna isnan negb];
      (constructor; [| apply IH; assumption]); assumption.
  - cbn [notna isnan negb fsub fneg fadd fmul].
    destruct cur as [| | |c]; cbn [nan_or] in Hcur; try contradiction;
      cbn [notna isnan negb].
    + constructor; [exact Hw |]. apply IH; [exact Hw |].
      apply Qmult_le_0_compat; lra.
    + assert (Hcell : nan_or (within lo hi)
                (if feqb (Fin w) (Fin c) then Fin w
                 else (Fin (o * (1 + - a) * w + a * c)
                       / Fin (o * (1 + - a) + a))%F)).
      { destruct (feqb (Fin w) (Fin c)); [exact Hw |].
        assert (Ho' : (0 <= o * (1 + - a))%Q)
          by (apply Qmult_le_0_compat; lra).
        assert (Hpos : (0 < o * (1 + - a) + a)%Q) by lra.
        cbn [fdiv].
        destruct (Qeq_bool (o * (1 + - a) + a) 0) eqn:E;
          [apply Qeq_bool_eq in E; lra |].
        cbn [nan_or]. destruct Hw as [Hw1 Hw2], Hcur as [Hc1 Hc2].
        generalize dependent (o * (1 + - a))%Q. intros o' Ho' Hpos _.
        split.
        - apply Qle_shift_div_l; [exact Hpos |].
          assert (0 <= o' * (w - lo))%Q by (apply Qmult_le_0_compat; lra).
          assert (0 <= a * (c - lo))%Q by (apply Qmult_le_0_compat; lra).
          lra.
        - apply Qle_shift_div_r; [exact Hpos |].
          assert (0 <= o' * (hi - w))%Q by (apply Qmult_le_0_compat; lra).
          assert (0 <= a * (hi - c))%Q by (apply Qmult_le_0_compat; lra).
          lra. }
      constructor; [exact Hcell |]. apply IH; [exact Hcell | lra].
Qed.

Lemma ewm_mean_range (lo hi a : Q) (vals : Series) :
  (0 < a)%Q → (a <= 1)%Q →
  Forall (nan_or (within lo hi)) vals →
  Forall (nan_or (within lo hi)) (ewm_mean (Fin a) vals).
Proof.
  intros Ha0 Ha1 H. destruct H as [|v0 vals Hv H]; [constructor |].
  cbn [ewm_mean]. constructor; [exact Hv |].
  apply ewm_go_range; try assumption. lra.
Qed.

Lemma ewm_go_nan_prefix alpha o k (vals : Series) :
  nan_prefix k vals → nan_prefix k (ewm_go alpha NaN o vals).
Proof.
  revert k. induction vals as [|cur vals IH]; intros k Hk i Hi Hl;
    [simpl in Hl; lia |].
  assert (Hcur : cur = NaN).
  { specialize (Hk 0 ltac:(lia) ltac:(simpl; lia)). injection Hk as ->.
    reflexivity. }
  subst cur. cbn [ewm_go notna isnan negb].
  destruct i as [|i]; [reflexivity |]. cbn [lookup list_lookup].
  apply (IH (k - 1)); [| lia |].
  - intros j Hj Hlj. exact (Hk (S j) ltac:(lia) ltac:(simpl; lia)).
  - cbn [ewm_go length] in Hl. simpl in Hl. lia.
Qed.

Lemma ewm_mean_nan_prefix alpha k (vals : Series) :
  nan_prefix k vals → nan_prefix k (ewm_mean alpha vals).
Proof.
  intros Hk i Hi Hl. destruct vals as [|v0 vals]; [simpl in Hl; lia |].
  assert (Hv : v0 = NaN).
  { specialize (Hk 0 ltac:(lia) ltac:(simpl; lia)). injection Hk as ->.
    reflexivity. }
  subst v0. cbn [ewm_mean]. destruct i as [|i]; [reflexivity |].
  cbn [lookup list_lookup].
  apply (ewm_go_nan_prefix alpha (Fin 1) (k - 1)); [| lia |].
  - intros j Hj Hlj. exact (Hk (S j) ltac:(lia) ltac:(simpl; lia)).
  - simpl in Hl. lia.
Qed.

Lemma alpha_of_com (m : nat) :
  1 ≤ m →
  ∃ a, (Fin 1 / of_nat m)%F = Fin a ∧ (0 < a)%Q ∧ (a <= 1)%Q.
Proof.
  intros Hm. rewrite (of_nat_div 1 m Hm). eexists. split; [reflexivity |].
  assert (Hpos : (1 <= inject_Z (Z.of_nat m))%Q).
  { change 1%Q with (inject_Z 1). rewrite <- Zle_Qle. lia. }
  split.
  - apply Qlt_shift_div_l; lra.
  - apply Qle_shift_div_r; lra.
Qed.

(** X20.  On finite prices whose close lies between low and high in
    every candle, with smoothing parameters of at least 1: K and D are
    missing or between 0 and 100 at every position (a window whose
    highest high equals its lowest low gives a missing value, not an
    exception), J is three times K minus twice D and so stays between
    -200 and 300, and all three are missing on the first [n - 1]
    positions. *)
Theorem kdj_ranges (self : TechnicalAnalysis) (rows : list Row)
    (n m1 m2 : nat) :
  data self = Frame rows → prices_finite rows →
  Forall (λ r, fle (low r) (close r) = true
               ∧ fle (close r) (high r) = true) rows →
  1 ≤ m1 → 1 ≤ m2 →
  ∃ k d j : Series,
    calculate_kdj self n m1 m2 = Ok (k, d, j)
    ∧ Forall (nan_or (within 0 100)) k
    ∧ Forall (nan_or (within 0 100)) d
    ∧ j = ssub (sscale (Fin 3) k) (sscale (Fin 2) d)
    ∧ Forall (nan_or (within (-200) 300)) j
    ∧ nan_prefix (n - 1) k ∧ nan_prefix (n - 1) d ∧ nan_prefix (n - 1) j.
Proof.
  intros Hd Hf Hord H1 H2.
  pose proof (kdj_rsv_range rows n Hf Hord) as Hrsv.
  assert (Nrsv : nan_prefix (n - 1)
            (sscale hundred
               (sdiv (ssub (close <$> rows) (rolling_min n (low <$> rows)))
                     (ssub (rolling_max n (high <$> rows))
                           (rolling_min n (low <$> rows)))))).
  { unfold sscale. apply nan_prefix_fmap; [reflexivity |].
    unfold sdiv. apply nan_prefix_zip_l; [intros y; reflexivity |].
    unfold ssub. apply nan_prefix_zip_r; [intros [| | |x]; reflexivity |].
    intros i Hi Hl. unfold rolling_min in *. rewrite length_rolling in Hl.
    apply rolling_warmup; [exact Hl | lia]. }
  destruct (alpha_of_com m1 H1) as (a1 & Ea1 & Ha1 & Ha1').
  destruct (alpha_of_com m2 H2) as (a2 & Ea2 & Ha2 & Ha2').
  unfold calculate_kdj, ewm_com_pred. rewrite Hd. unfold column.
  cbn [mbind res_bind].
  rewrite (proj2 (Nat.ltb_ge m1 1)), (proj2 (Nat.ltb_ge m2 1)) by lia.
  cbn [mbind res_bind]. rewrite Ea1, Ea2.
  set (rsv := sscale hundred _) in *. clearbody rsv.
  pose proof (ewm_mean_range 0 100 a1 rsv Ha1 Ha1' Hrsv) as Hk.
  pose proof (ewm_mean_nan_prefix (Fin a1) _ rsv Nrsv) as Nk.
  set (k := ewm_mean (Fin a1) rsv) in *. clearbody k.
  pose proof (ewm_mean_range 0 100 a2 k Ha2 Ha2' Hk) as Hdd.
  pose proof (ewm_mean_nan_prefix (Fin a2) _ k Nk) as Nd.
  set (d := ewm_mean (Fin a2) k) in *. clearbody d.
  exists k, d, (ssub (sscale (Fin 3) k) (sscale (Fin 2) d)).
  split; [reflexivity |]. split; [exact Hk |]. split; [exact Hdd |].
  split; [reflexivity |]. split.
  { unfold ssub, sscale.
    apply Forall_zip_with_2
      with (P := nan_or (within 0 300)) (R := nan_or (within 0 200)).
    - intros [| | |x] [| | |y]; cbn [nan_or]; try tauto.
      unfold within. cbn [fsub fneg fadd nan_or]. intros [? ?] [? ?].
      split; lra.
    - apply Forall_fmap. eapply Forall_impl; [exact Hk |].
      intros [| | |x]; cbn [nan_or fmul]; try tauto.
      unfold within. intros [? ?]. split; lra.
    - apply Forall_fmap. eapply Forall_impl; [exact Hdd |].
      intros [| | |x]; cbn [nan_or fmul]; try tauto.
      unfold within. intros [? ?]. split; lra. }
  split; [exact Nk |]. split; [exact Nd |].
  unfold ssub, sscale. apply nan_prefix_zip_l; [intros y; reflexivity |].
  apply nan_prefix_fmap; [reflexivity | exact Nk].
Qed.

Lemma kdj_ranges_witness :
  ∃ k d j : Series,
    calculate_kdj zigzag4 2 3 3 = Ok (k, d, j)
    ∧ Forall (nan_or (within 0 100)) k
    ∧ Forall (nan_or (within 0 100)) d
    ∧ nan_prefix 1 j.
Proof.
  destruct (kdj_ranges zigzag4 (imap bar_at [1; 2; 1; 3]%Z) 2 3 3 eq_refl
              ltac:(repeat constructor) ltac:(repeat constructor)
              ltac:(lia) ltac:(lia))
    as (k & d & j & E & Hk & Hd & _ & _ & _ & _ & Nj).
  exists k, d, j. split; [exact E |]. split; [exact Hk |].
  split; [exact Hd | exact Nj].
Defined.

(** ** The moving average as an average *)



(** ** The change columns of the indicator table *)

Lemma ffill_from_finite (prev : fval) (s : Series) :
  finite_series s → ffill_from prev s = s.
Proof.
  intros H. revert prev. induction H as [|x s Hx _ IH]; intros prev;
    [reflexivity |].
  cbn [ffill_from]. destruct x; try discriminate Hx.
  cbn [isnan]. rewrite IH. reflexivity.
Qed.

Lemma lookup_shift_by (k : nat) (s : Series) (i : nat) :
  i < length s →
  shift_by k s !! i = if i <? k then Some NaN else s !! (i - k).
Proof.
  intros Hi. unfold shift_by. rewrite lookup_take.
  destruct (decide (i < length s)) as [_ | Hn]; [| lia].
  destruct (Nat.ltb_spec i k) as [Hk | Hk].
  - rewrite lookup_app_l by (rewrite length_replicate; exact Hk).
    apply lookup_replicate_2. exact Hk.
  - rewrite lookup_app_r by (rewrite length_replicate; exact Hk).
    rewrite length_replicate. reflexivity.
Qed.

(** [s.pct_change(periods=k) * 100] on finite cells. *)
Lemma pct_change_cells (k : nat) (qs : list Q) :
  length (sscale hundred (pct_change k (Fin <$> qs))) = length qs
  ∧ nan_prefix k (sscale hundred (pct_change k (Fin <$> qs)))
  ∧ ∀ i c c', k ≤ i → qs !! i = Some c → qs !! (i - k) = Some c' →
      ¬ (c' == 0)%Q →
      sscale hundred (pct_change k (Fin <$> qs)) !! i
      = Some (Fin (100 * (c / c' + - 1))).
Proof.
  unfold sscale, pct_change, sdiv, ffill.
  rewrite ffill_from_finite by apply finite_series_fmap_Fin.
  split.
  { rewrite !length_fmap, length_zip_with, length_shift_by, length_fmap.
    lia. }
  split.
  { intros i Hi Hl. rewrite !length_fmap, length_zip_with, length_shift_by,
      length_fmap in Hl.
    rewrite !list_lookup_fmap, lookup_zip_with.
    rewrite lookup_shift_by by (rewrite length_fmap; lia).
    rewrite (proj2 (Nat.ltb_lt i k)) by exact Hi.
    rewrite list_lookup_fmap.
    destruct (lookup_lt_is_Some_2 qs i ltac:(lia)) as [c ->].
    reflexivity. }
  intros i c c' Hi Hc Hc' Hne.
  pose proof (lookup_lt_Some _ _ _ Hc) as Hl.
  rewrite !list_lookup_fmap, lookup_zip_with.
  rewrite lookup_shift_by by (rewrite length_fmap; lia).
  rewrite (proj2 (Nat.ltb_ge i k)) by exact Hi.
  rewrite !list_lookup_fmap, Hc, Hc'.
  cbn [fmap option_fmap option_map mbind option_bind fdiv].
  assert (E : Qeq_bool c' 0 = false).
  { apply not_true_is_false. intros E. apply Qeq_bool_eq in E.
    exact (Hne E). }
  rewrite E. reflexivity.
Qed.

(** The run of [get_all_indicators] on a non-empty series, with the
    columns that do not come from an indicator function. *)
Lemma indicator_table_changes (sqrtQ : Q → Q) (self : TechnicalAnalysis)
    (rows : list Row) :
  data self = Frame rows → rows ≠ [] →
  ∃ table : IndicatorTable,
    get_all_indicators sqrtQ self = Ok table
    ∧ dict_get "price_change_1" (table_columns table)
      = Some (sscale hundred (pct_change 1 (close <$> rows)))
    ∧ dict_get "price_change_5" (table_columns table)
      = Some (sscale hundred (pct_change 5 (close <$> rows)))
    ∧ dict_get "price_change_20" (table_columns table)
      = Some (sscale hundred (pct_change 20 (close <$> rows)))
    ∧ dict_get "volume_change" (table_columns table)
      = Some (sscale hundred (pct_change 1 (vol <$> rows)))
    ∧ dict_get "volume_sma20" (table_columns table)
      = Some (rolling_mean 20 (vol <$> rows)).
Proof.
  intros Hd Hne.
  assert (He : empty (data self) = false)
    by (rewrite Hd; destruct rows; [congruence | reflexivity]).
  assert (Hma : ∀ p, calculate_ma self p
                     = Ok (rolling_mean p (close <$> rows)))
    by (intros p; unfold calculate_ma; rewrite Hd; reflexivity).
  assert (Hema : ∀ s, 1 ≤ s →
            calculate_ema self s
            = Ok (ewm_mean (Fin (alpha_of_span s)) (close <$> rows))).
  { intros s Hs. unfold calculate_ema. rewrite Hd. unfold column.
    cbn [mbind res_bind]. apply ewm_span_frame. exact Hs. }
  destruct (calculate_rsi_prefix self rows 14 Hd) as (rsi14 & E14 & _).
  destruct (calculate_rsi_prefix self rows 6 Hd) as (rsi6 & E6 & _).
  destruct (calculate_macd_lengths self rows 12 26 9 Hd)
    as (dif & dea & hist & Emacd & _); [lia .. |].
  destruct (calculate_kdj_lengths self rows 9 3 3 Hd)
    as (k & d & j & Ekdj & _); [lia .. |].
  destruct (calculate_dmi_prefix self rows Hd 14 ltac:(lia))
    as (pdi & mdi & adx & Edmi & _).
  destruct (calculate_bollinger_lengths sqrtQ self rows 20 2 Hd)
    as (bu & bm & bl & Ebb & _).
  assert (Eatr : calculate_atr self 14
                 = Ok (rolling_mean 14
                         (true_range (high <$> rows) (low <$> rows)
                            (close <$> rows))))
    by (unfold calculate_atr; rewrite Hd; reflexivity).
  destruct (obv_run self rows Hd Hne) as (obv & Eobv & _).
  eexists. split.
  { unfold get_all_indicators. rewrite He, Hd.
    unfold column. cbn [mbind res_bind].
    rewrite !Hma. cbn [mbind res_bind].
    rewrite !Hema by lia. cbn [mbind res_bind].
    rewrite E14. cbn [mbind res_bind]. rewrite E6. cbn [mbind res_bind].
    rewrite Emacd. cbn [mbind res_bind]. rewrite Ekdj. cbn [mbind res_bind].
    rewrite Edmi. cbn [mbind res_bind]. rewrite Ebb. cbn [mbind res_bind].
    rewrite Eatr. cbn [mbind res_bind]. rewrite Eobv. cbn [mbind res_bind].
    reflexivity. }
  cbn [table_columns]. repeat split; reflexivity.
Qed.

(** X22.  The change columns of the indicator table on finite closes:
    ['price_change_k'], for k = 1, 5 and 20, has one cell per candle,
    is missing on the first k positions, and from position k on holds
    100 * (close[i] / close[i-k] - 1) wherever the earlier close is not
    zero. *)
Theorem price_change_columns (sqrtQ : Q → Q) (self : TechnicalAnalysis)
    (rows : list Row) (cs : list Q) :
  data self = Frame rows → rows ≠ [] → close <$> rows = Fin <$> cs →
  ∃ table : IndicatorTable,
    get_all_indicators sqrtQ self = Ok table
    ∧ ∀ name k,
        (name, k) ∈ [ ("price_change_1", 1); ("price_change_5", 5);
                      ("price_change_20", 20) ]%string →
        ∃ col : Series,
          dict_get name (table_columns table) = Some col
          ∧ length col = length rows
          ∧ nan_prefix k col
          ∧ ∀ i c c', k ≤ i → cs !! i = Some c → cs !! (i - k) = Some c' →
              ¬ (c' == 0)%Q →
              col !! i = Some (Fin (100 * (c / c' + - 1))).
Proof.
  intros Hd Hne Hcs.
  destruct (indicator_table_changes sqrtQ self rows Hd Hne)
    as (table & Hrun & H1 & H5 & H20 & _).
  assert (Ln : length cs = length rows).
  { apply (f_equal length) in Hcs. rewrite !length_fmap in Hcs. lia. }
  exists table. split; [exact Hrun |].
  intros name k Hin. rewrite Hcs in H1, H5, H20.
  destruct (pct_change_cells k cs) as (Hl & Hp & Hc).
  rewrite Ln in Hl.
  repeat (apply elem_of_cons in Hin as [[= -> ->] | Hin];
          [eexists; split; [eassumption |];
           split; [exact Hl |]; split; [exact Hp | exact Hc] |]).
  apply elem_of_nil in Hin. contradiction.
Qed.

Lemma price_change_columns_witness :
  ∃ (table : IndicatorTable) (col : Series),
    get_all_indicators Qsqrt_floor zigzag4 = Ok table
    ∧ dict_get "price_change_1" (table_columns table) = Some col
    ∧ nan_prefix 1 col
    ∧ col !! 3 = Some (Fin (100 * (3 / 1 + - 1))).
Proof.
  destruct (price_change_columns Qsqrt_floor zigzag4
              (imap bar_at [1; 2; 1; 3]%Z) [1; 2; 1; 3]%Q eq_refl
              ltac:(discriminate) eq_refl)
    as (table & E & Hcols).
  destruct (Hcols "price_change_1"%string 1 ltac:(left))
    as (col & Ec & _ & Hp & Hc).
  exists table, col. split; [exact E |]. split; [exact Ec |].
  split; [exact Hp |].
  apply (Hc 3 3%Q 1%Q); [lia | reflexivity | reflexivity | discriminate].
Defined.
